(** * EM-data augmentation: Blur, LongAff (greyscale) and Flip

    A shallow embedding of [em_data/augmentation/blur.py], [long_aff.py] and
    [flip.py].

    - A sample is a Python dict from string keys to numpy arrays: a
      [gmap string (volume A)].  Distinct keys are bound to distinct array
      objects, so an in-place write through one key is a functional update of
      that key's entry.
    - A numpy array of shape (C, Z, Y, X) is a record of its extents together
      with the nested rows [c][z][y][x].
    - [np.random] is an external source: the values it hands out are read off
      a tape, in the order the program asks for them.  An answer outside the
      contract of the request (a [rand()] outside [0,1), a [randint] outside
      its range, ...) is no run of the program: the outcome is [NoRun].
    - Python exceptions are an outcome of their own; the store reached when
      the exception is thrown is kept, since in-place writes made before an
      exception stay visible to the caller.
    - Floats that only steer the control flow (draws, ratios, widths) are
      rationals with exact comparisons; a pixel value of the greyscale
      augmentation is a finite float, read as a real number, an infinity
      or NaN.
    - [scipy]'s [gaussian_filter] and [em_segLib]'s [flip] are not part of
      the sources: the methods take them as parameters. *)

From Stdlib Require Import QArith Reals Lra Lia.
From stdpp Require Import gmap strings list sorting.

(** ** Exceptions, outcomes and the random tape *)

Inductive exn := AssertionError | ValueError | AttributeError | KeyError.

Inductive outcome (R : Type) :=
| Ok (r : R)
| Raise (e : exn)
| NoRun.
Arguments Ok {R} r.
Arguments Raise {R} e.
Arguments NoRun {R}.

(** One answer of [np.random]. *)
Inductive draw :=
| DRand (u : Q)              (* np.random.rand() *)
| DInt (n : Z)               (* np.random.randint(lo, hi) *)
| DChoice (zs : list nat).   (* np.random.choice(n, k, replace=False) *)

(** ** Arrays *)

Section Arrays.
Context {A : Type}.

(** A (Y, X) plane: a list of rows. *)
Local Abbreviation plane := (list (list A)).

(** A numpy array of shape (nchan, zext, yext, xext). *)
Record volume := Volume {
  nchan : nat;
  zext : nat;
  yext : nat;
  xext : nat;
  voxels : list (list plane)
}.

(** [v.shape[-3:]] *)
Definition shape3 (v : volume) : nat * nat * nat := (zext v, yext v, xext v).

(** The data agree with the declared shape. *)
Definition plane_wf (Y X : nat) (p : plane) : Prop :=
  length p = Y ∧ Forall (λ row, length row = X) p.

Definition volume_wf (v : volume) : Prop :=
  length (voxels v) = nchan v ∧
  Forall (λ ch, length ch = zext v ∧ Forall (plane_wf (yext v) (xext v)) ch)
         (voxels v).

(** [v[..., z, :, :]]: one plane per leading index. *)
Definition get_section (z : nat) (v : volume) : list plane :=
  (λ ch : list plane, ch !!! z) <$> voxels v.

(** [v[..., z, :, :] = img] for [img] of the section's shape. *)
Definition set_section (z : nat) (img : list plane) (v : volume) : volume :=
  Volume (nchan v) (zext v) (yext v) (xext v)
         (zip_with (λ (ch : list plane) (p : plane), <[z := p]> ch) (voxels v) img).

(** Elementwise application of a scalar function. *)
Definition plane_map (f : A → A) (p : plane) : plane :=
  fmap (M:=list) (fmap (M:=list) f) p.

Definition volume_map (f : A → A) (v : volume) : volume :=
  Volume (nchan v) (zext v) (yext v) (xext v)
         (fmap (M:=list) (fmap (M:=list) (plane_map f)) (voxels v)).

End Arrays.
Arguments volume A : clear implicits.
Abbreviation plane A := (list (list A)) (only parsing).

(** ** The world: the sample dict and what is left of the tape *)

Record world (A : Type) := World {
  store : gmap string (volume A);
  tape : list draw
}.
Arguments World {A} store tape.
Arguments store {A} w.
Arguments tape {A} w.

Definition M (A R : Type) : Type := world A → outcome R * world A.

Definition ret {A R} (r : R) : M A R := λ w, (Ok r, w).

Definition bind {A R S} (m : M A R) (k : R → M A S) : M A S :=
  λ w, match m w with
       | (Ok r, w') => k r w'
       | (Raise e, w') => (Raise e, w')
       | (NoRun, w') => (NoRun, w')
       end.

Definition raise {A R} (e : exn) : M A R := λ w, (Raise e, w).

Notation "x ←' m ; k" := (bind m (λ x, k))
  (at level 20, m at level 100, k at level 200, right associativity,
   format "x  ←'  m ;  '/' k").
Notation "m ;;' k" := (bind m (λ _, k))
  (at level 100, k at level 200, right associativity).

(** Sequencing of the setters in a constructor. *)
Definition and_then {X Y} (o : outcome X) (k : X → outcome Y) : outcome Y :=
  match o with
  | Ok x => k x
  | Raise e => Raise e
  | NoRun => NoRun
  end.

(** [if b: m] *)
Definition when {A} (b : bool) (m : M A unit) : M A unit :=
  if b then m else ret tt.

(** [assert b] *)
Definition assert {A} (b : bool) : M A unit :=
  if b then ret tt else raise AssertionError.

(** [for x in l: body x] *)
Fixpoint for_ {A X} (l : list X) (body : X → M A unit) : M A unit :=
  match l with
  | [] => ret tt
  | x :: l' => body x ;;' for_ l' body
  end.

(** [sample[key]] *)
Definition getitem {A} (key : string) : M A (volume A) :=
  λ w, match store w !! key with
       | Some v => (Ok v, w)
       | None => (Raise KeyError, w)
       end.

(** [sample[key] = v], also the effect of an in-place write to the array
    bound to [key] when no other key is bound to that array. *)
Definition setitem {A} (key : string) (v : volume A) : M A unit :=
  λ w, (Ok tt, World (<[key := v]> (store w)) (tape w)).

(** *** np.random *)

(** Strict comparison of floats, read as rationals. *)
Definition Qltb (x y : Q) : bool := negb (Qle_bool y x).

(** [np.random.rand()]: a float in [0, 1). *)
Definition rand {A} : M A Q :=
  λ w, match tape w with
       | DRand u :: t =>
           if Qle_bool 0 u && Qltb u 1 then (Ok u, World (store w) t)
           else (NoRun, w)
       | _ => (NoRun, w)
       end.

(** [np.random.randint(lo, hi)]: an integer in [lo, hi); numpy raises
    ValueError when the range is empty. *)
Definition randint {A} (lo hi : Z) : M A Z :=
  λ w, if (lo <? hi)%Z then
         match tape w with
         | DInt n :: t =>
             if (lo <=? n)%Z && (n <? hi)%Z then (Ok n, World (store w) t)
             else (NoRun, w)
         | _ => (NoRun, w)
         end
       else (Raise ValueError, w).

(** [np.random.choice(n, k, replace=False)]: [k] distinct indices below [n];
    numpy raises ValueError for an empty population, a negative size, or a
    size that exceeds the population. *)
Definition choice {A} (n : nat) (k : Z) : M A (list nat) :=
  λ w, if (n =? 0) || (k <? 0)%Z || (Z.of_nat n <? k)%Z then (Raise ValueError, w)
       else match tape w with
            | DChoice zs :: t =>
                if bool_decide (NoDup zs) && (Z.of_nat (length zs) =? k)%Z
                   && forallb (λ z, z <? n) zs
                then (Ok zs, World (store w) t)
                else (NoRun, w)
            | _ => (NoRun, w)
            end.

(** A 4-element boolean vector. *)
Definition rule4 : Type := bool * bool * bool * bool.

(** [np.random.rand(4) > 0.5] *)
Definition rand4_gt_half {A} : M A rule4 :=
  u0 ←' rand; u1 ←' rand; u2 ←' rand; u3 ←' rand;
  ret (Qltb (1#2) u0, Qltb (1#2) u1, Qltb (1#2) u2, Qltb (1#2) u3).

(** The keyword arguments the augmentors look at. *)
Record kwargs := Kwargs {
  kw_imgs : option (list string);
  kw_rule : option rule4
}.

(** [kwargs['imgs']] *)
Definition kwargs_imgs {A} (kw : kwargs) : M A (list string) :=
  match kw_imgs kw with
  | Some imgs => ret imgs
  | None => raise KeyError
  end.

(** [sorted(l)] *)
Definition sorted (l : list nat) : list nat := merge_sort le l.

(** ** Blur: out-of-focus section augmentation (blur.py) *)

Module Blur.

(** The attributes of a [Blur] object.  [skip] is created by [prepare]; an
    object that has not been prepared has no such attribute. *)
Record t := Make {
  MAX_SEC : Z;
  sigma_max : Q;
  mode : string;
  skip_ratio : Q;
  skip : option bool
}.

Definition set_max_sections (self : t) (max_sec : Z) : outcome t :=
  if (0 <=? max_sec)%Z
  then Ok (Make max_sec (sigma_max self) (mode self) (skip_ratio self) (skip self))
  else Raise AssertionError.

Definition set_sigma_max (self : t) (sm : Q) : outcome t :=
  if Qle_bool 0 sm
  then Ok (Make (MAX_SEC self) sm (mode self) (skip_ratio self) (skip self))
  else Raise AssertionError.

Definition set_mode (self : t) (m : string) : outcome t :=
  if bool_decide (m = "full") || bool_decide (m = "partial") || bool_decide (m = "mix")
  then Ok (Make (MAX_SEC self) (sigma_max self) m (skip_ratio self) (skip self))
  else Raise AssertionError.

Definition set_skip_ratio (self : t) (ratio : Q) : outcome t :=
  if Qle_bool 0 ratio && Qle_bool ratio 1
  then Ok (Make (MAX_SEC self) (sigma_max self) (mode self) ratio (skip self))
  else Raise AssertionError.

(** The object before [__init__] has run its setters: the four configuration
    attributes are overwritten by them, [skip] is absent. *)
Definition blank : t := Make 0 0 "" 0 None.

Definition __init__ (max_sec : Z) (sm : Q) (m : string) (ratio : Q) : outcome t :=
  and_then (set_max_sections blank max_sec) (λ self,
  and_then (set_sigma_max self sm) (λ self,
  and_then (set_mode self m) (λ self,
  set_skip_ratio self ratio))).

Section Methods.
Context {A S : Type}.
(** [scipy.ndimage.filters.gaussian_filter(img, sigma=sigma)] on a
    (C, Y, X) section. *)
Variable gaussian_filter : list (plane A) → Q → list (plane A).

Definition prepare (self : t) (spec : S) : M A (t * S) :=
  u ←' rand;
  ret (Make (MAX_SEC self) (sigma_max self) (mode self) (skip_ratio self)
            (Some (Qltb u (skip_ratio self))), spec).

(** [dst[:x] = src[:x]] ([left]) or [dst[x:] = src[x:]] on one row. *)
Definition assign_cols (left : bool) (x : nat) (dst src : list A) : list A :=
  if left then take x src ++ drop x dst else take x dst ++ drop x src.

(** One quadrant of a (Y, X) plane: rows [:y] ([top]) or [y:], columns [:x]
    ([left]) or [x:]. *)
Definition assign_quadrant (top left : bool) (y x : nat) (dst src : plane A) : plane A :=
  if top
  then zip_with (assign_cols left x) (take y dst) (take y src) ++ drop y dst
  else take y dst ++ zip_with (assign_cols left x) (drop y dst) (drop y src).

(** [sample[key][..., z, rows, cols] = img[..., rows, cols]] *)
Definition write_quadrant (key : string) (z : nat) (top left : bool) (y x : Z)
    (img : list (plane A)) : M A unit :=
  v ←' getitem key;
  setitem key
    (set_section z
       (zip_with (assign_quadrant top left (Z.to_nat y) (Z.to_nat x))
                 (get_section z v) img) v).

(** The first loop of [augment]: the shapes of the chosen volumes. *)
Fixpoint collect_dims (num_sec : Z) (imgs : list string)
    (dims : gset (nat * nat * nat)) : M A (gset (nat * nat * nat)) :=
  match imgs with
  | [] => ret dims
  | key :: rest =>
      v ←' getitem key;
      assert (num_sec <? Z.of_nat (zext v))%Z ;;'
      collect_dims num_sec rest ({[ shape3 v ]} ∪ dims)
  end.

(** [dims.pop()] *)
Definition pop (dims : gset (nat * nat * nat)) : M A (nat * nat * nat) :=
  match elements dims with
  | d :: _ => ret d
  | [] => raise KeyError
  end.

Definition blur_full (self : t) (imgs : list string) (zlocs : list nat) : M A unit :=
  for_ zlocs (λ z,
    for_ imgs (λ key,
      u ←' rand;
      let sigma := (u * sigma_max self)%Q in
      v ←' getitem key;
      let img := get_section z v in
      setitem key (set_section z (gaussian_filter img sigma) v))).

(** The body of the inner loop of the partial/mix branch. *)
Definition blur_partial_key (self : t) (xdim ydim : nat) (z : nat) (sigma : Q)
    (key : string) : M A unit :=
  v ←' getitem key;
  let img := gaussian_filter (get_section z v) sigma in
  full ←' (if bool_decide (mode self = "mix")
           then u ←' rand; ret (Qltb (1#2) u)
           else ret false);
  if full then setitem key (set_section z img v)
  else
    x ←' randint 0 (Z.of_nat xdim);
    y ←' randint 0 (Z.of_nat ydim);
    rule ←' rand4_gt_half;
    let '(r0, r1, r2, r3) := rule in
    when r0 (write_quadrant key z true true y x img) ;;'
    when r1 (write_quadrant key z false true y x img) ;;'
    when r2 (write_quadrant key z true false y x img) ;;'
    when r3 (write_quadrant key z false false y x img).

Definition blur_partial (self : t) (imgs : list string) (xdim ydim : nat)
    (zlocs : list nat) : M A unit :=
  for_ zlocs (λ z,
    u ←' rand;
    let sigma := (u * sigma_max self)%Q in
    for_ imgs (blur_partial_key self xdim ydim z sigma)).

Definition augment (self : t) (kw : kwargs) : M A unit :=
  num_sec ←' randint 1 (MAX_SEC self + 1);
  imgs ←' kwargs_imgs kw;
  dims ←' collect_dims num_sec imgs ∅;
  assert (size dims =? 1) ;;'
  dim ←' pop dims;
  let '(zdim, ydim, xdim) := dim in
  zs ←' choice zdim num_sec;
  let zlocs := sorted zs in
  if bool_decide (mode self = "full")
  then blur_full self imgs zlocs
  else blur_partial self imgs xdim ydim zlocs.

Definition __call__ (self : t) (kw : kwargs) : M A unit :=
  match skip self with
  | None => raise AttributeError
  | Some sk => if negb sk then augment self kw else ret tt
  end.

End Methods.
End Blur.

(** ** Python strings

    A string object: its characters, and whether it is the interned object
    of these characters.  CPython interns the string constants of a module
    that are made of letters, digits and underscores, so a literal such as
    ['2D'] denotes one and the same object wherever it is written; a string
    made at run time (read from a file, joined from parts, a unicode string)
    can have the same characters and be another object.  [==] compares the
    characters, [is] the objects. *)

Record pystr := PyStr {
  chars : string;
  interned : bool
}.

(** The object a string literal denotes. *)
Definition lit (s : string) : pystr := PyStr s true.

(** [a == 's'] for a literal ['s']. *)
Definition str_eq (a : pystr) (s : string) : bool := bool_decide (chars a = s).

(** [a is 's'] for a literal ['s']. *)
Definition str_is (a : pystr) (s : string) : bool :=
  interned a && bool_decide (chars a = s).

(** ** Pixel values

    A float of a numpy array: a finite value, read as a real number, one of
    the two infinities, or NaN. *)

Inductive npfloat :=
| Finite (a : R)
| PInf
| NInf
| NaN.

(** ** LongAff: greyscale value augmentation (long_aff.py) *)

Module LongAff.

Record t := Make {
  mode : pystr;
  skip_ratio : Q;
  CONTRAST_FACTOR : R;
  BRIGHTNESS_FACTOR : R;
  skip : option bool
}.

Definition set_mode (self : t) (m : pystr) : outcome t :=
  if str_eq m "2D" || str_eq m "3D" || str_eq m "mix"
  then Ok (Make m (skip_ratio self) (CONTRAST_FACTOR self) (BRIGHTNESS_FACTOR self)
                (skip self))
  else Raise AssertionError.

Definition set_skip_ratio (self : t) (ratio : Q) : outcome t :=
  if Qle_bool 0 ratio && Qle_bool ratio 1
  then Ok (Make (mode self) ratio (CONTRAST_FACTOR self) (BRIGHTNESS_FACTOR self)
                (skip self))
  else Raise AssertionError.

Definition blank : t := Make (lit "") 0 0%R 0%R None.

Definition __init__ (m : pystr) (ratio : Q) : outcome t :=
  and_then (set_mode blank m) (λ self,
  and_then (set_skip_ratio self ratio) (λ self,
  Ok (Make (mode self) (skip_ratio self) (3 / 10)%R (3 / 10)%R (skip self)))).

Definition prepare {S : Type} (self : t) (spec : S) : M npfloat (t * S) :=
  u ←' rand;
  ret (Make (mode self) (skip_ratio self) (CONTRAST_FACTOR self)
            (BRIGHTNESS_FACTOR self) (Some (Qltb u (skip_ratio self))), spec).

(** [1 + (u - 0.5) * CONTRAST_FACTOR] *)
Definition contrast_scale (self : t) (u : Q) : R :=
  (1 + (Q2R u - 1 / 2) * CONTRAST_FACTOR self)%R.

(** [(u - 0.5) * BRIGHTNESS_FACTOR] *)
Definition brightness_shift (self : t) (u : Q) : R :=
  ((Q2R u - 1 / 2) * BRIGHTNESS_FACTOR self)%R.

(** [2.0 ** (u * 2 - 1)] *)
Definition gamma_exponent (u : Q) : R := Rpower 2 (Q2R u * 2 - 1).

(** [np.clip(a, 0, 1)] of a finite value: [minimum(maximum(a, 0), 1)]. *)
Definition clip01 (a : R) : R := Rmin (Rmax a 0) 1.

(** [a ** g] on floats: a positive base gives [exp (g * ln a)], the base 0
    (with the positive exponents drawn here) gives 0.  Bases below 0 never
    reach the power: the clip comes first. *)
Definition np_power (a g : R) : R :=
  if Rlt_dec 0 a then Rpower a g else 0%R.

(** [p * c] for a finite factor [c]: an infinity keeps or changes its sign
    with the sign of [c], and times 0 it is NaN. *)
Definition fmul (p : npfloat) (c : R) : npfloat :=
  match p with
  | Finite a => Finite (a * c)
  | PInf => if Rlt_dec 0 c then PInf else if Rlt_dec c 0 then NInf else NaN
  | NInf => if Rlt_dec 0 c then NInf else if Rlt_dec c 0 then PInf else NaN
  | NaN => NaN
  end.

(** [p + b] for a finite summand [b]. *)
Definition fadd (p : npfloat) (b : R) : npfloat :=
  match p with
  | Finite a => Finite (a + b)
  | PInf => PInf
  | NInf => NInf
  | NaN => NaN
  end.

(** [np.clip(p, 0, 1)]: the infinities are clipped like any other value,
    NaN stays NaN. *)
Definition fclip (p : npfloat) : npfloat :=
  match p with
  | Finite a => Finite (clip01 a)
  | PInf => Finite 1
  | NInf => Finite 0
  | NaN => NaN
  end.

(** [p ** g] for an exponent [g] drawn as [gamma_exponent], which lies in
    [0.5, 2): of a base below 0 the power is NaN unless the exponent is the
    integer 1. *)
Definition fpow (p : npfloat) (g : R) : npfloat :=
  match p with
  | Finite a =>
      if Rle_dec 0 a then Finite (np_power a g)
      else if Req_dec_T g 1 then Finite a else NaN
  | PInf => PInf
  | NInf => if Req_dec_T g 1 then NInf else PInf
  | NaN => NaN
  end.

Definition section_map (f : npfloat → npfloat) (s : list (plane npfloat))
  : list (plane npfloat) :=
  fmap (M:=list) (plane_map f) s.

(** An in-place operator on the view [sample[key][..., z, :, :]]. *)
Definition inplace_section (key : string) (z : nat) (f : npfloat → npfloat)
  : M npfloat unit :=
  v ←' getitem key;
  setitem key (set_section z (section_map f (get_section z v)) v).

(** The body of the inner loop of [augment2D]. *)
Definition augment2D_slice (self : t) (key : string) (z : nat) : M npfloat unit :=
  _ ←' getitem key;
  u1 ←' rand;
  inplace_section key z (λ p, fmul p (contrast_scale self u1)) ;;'
  u2 ←' rand;
  inplace_section key z (λ p, fadd p (brightness_shift self u2)) ;;'
  v ←' getitem key;
  let img := section_map fclip (get_section z v) in
  u3 ←' rand;
  let img := section_map (λ p, fpow p (gamma_exponent u3)) img in
  v ←' getitem key;
  setitem key (set_section z img v).

Definition augment2D (self : t) (kw : kwargs) : M npfloat unit :=
  imgs ←' kwargs_imgs kw;
  for_ imgs (λ key,
    v ←' getitem key;
    for_ (seq 0 (zext v)) (augment2D_slice self key)).

(** The body of the loop of [augment3D]. *)
Definition augment3D_key (self : t) (key : string) : M npfloat unit :=
  v ←' getitem key;
  u1 ←' rand;
  setitem key (volume_map (λ p, fmul p (contrast_scale self u1)) v) ;;'
  v ←' getitem key;
  u2 ←' rand;
  setitem key (volume_map (λ p, fadd p (brightness_shift self u2)) v) ;;'
  v ←' getitem key;
  setitem key (volume_map fclip v) ;;'
  v ←' getitem key;
  u3 ←' rand;
  setitem key (volume_map (λ p, fpow p (gamma_exponent u3)) v).

Definition augment3D (self : t) (kw : kwargs) : M npfloat unit :=
  imgs ←' kwargs_imgs kw;
  for_ imgs (augment3D_key self).

(** [self.mode == 'mix'] compares characters; [mode is '2D'] and
    [mode is '3D'] compare objects, and hold only of the object the literal
    denotes.  The two constants of the conditional expression are these
    objects. *)
Definition __call__ (self : t) (kw : kwargs) : M npfloat unit :=
  match skip self with
  | None => raise AttributeError
  | Some sk =>
      if negb sk then
        m ←' (if str_eq (mode self) "mix"
              then u ←' rand; ret (if Qltb (1#2) u then lit "3D" else lit "2D")
              else ret (mode self));
        when (str_is m "2D") (augment2D self kw) ;;'
        when (str_is m "3D") (augment3D self kw)
      else ret tt
  end.

End LongAff.

(** ** Flip: random flip augmentation (flip.py) *)

Section Transform.
Context {A : Type}.

(** [data[:, ::-1, :, :]] *)
Definition reverse_z (v : volume A) : volume A :=
  Volume (nchan v) (zext v) (yext v) (xext v) (fmap (M:=list) reverse (voxels v)).

(** [data[:, :, ::-1, :]] *)
Definition reverse_y (v : volume A) : volume A :=
  Volume (nchan v) (zext v) (yext v) (xext v)
         (fmap (M:=list) (fmap (M:=list) reverse) (voxels v)).

(** [data[:, :, :, ::-1]] *)
Definition reverse_x (v : volume A) : volume A :=
  Volume (nchan v) (zext v) (yext v) (xext v)
         (fmap (M:=list) (fmap (M:=list) (fmap (M:=list) reverse)) (voxels v)).

(** The transpose of a plane whose rows have [X] entries. *)
Fixpoint transpose (X : nat) (p : plane A) : plane A :=
  match p with
  | [] => replicate X []
  | row :: rest => zip_with cons row (transpose X rest)
  end.

(** [data.transpose(0, 1, 3, 2)] *)
Definition transpose_yx (v : volume A) : volume A :=
  Volume (nchan v) (zext v) (xext v) (yext v)
         (fmap (M:=list) (fmap (M:=list) (transpose (xext v))) (voxels v)).

(** Modelled from the spec: [em_segLib.transform.flip] is imported by flip.py
    and is not among the sources.  The rule vector is read as
    (reverse axis Z, reverse axis Y, reverse axis X, transpose Y/X). *)
Definition flip (v : volume A) (rule : rule4) : volume A :=
  let '(rz, ry, rx, tr) := rule in
  let v := if rz then reverse_z v else v in
  let v := if ry then reverse_y v else v in
  let v := if rx then reverse_x v else v in
  if tr then transpose_yx v else v.

End Transform.

Module Flip.
Section Methods.
Context {A S : Type}.
(** [em_segLib.transform.flip] *)
Variable flip : volume A → rule4 → volume A.

Definition prepare (spec : S) : M A S := ret spec.

(** [sample.iteritems()] *)
Definition iteritems : M A (list (string * volume A)) :=
  λ w, (Ok (map_to_list (store w)), w).

Definition __call__ (kw : kwargs) : M A unit :=
  rule ←' match kw_rule kw with
          | Some r => ret r
          | None => rand4_gt_half
          end;
  items ←' iteritems;
  for_ items (λ kv, setitem kv.1 (flip kv.2 rule)).

End Methods.
End Flip.

(** ** Vec3d: 3D vectors (geometry/vector.py)

    The components are Python integers.  An operand of an operator is a
    [Vec3d], a sequence (anything with [__getitem__]) or a number.  The
    methods that leave the integers (true division, square roots, powers)
    are not modelled; [float(n)] of an integer [n] is the double nearest to
    [n], a rational, or OverflowError ([float_of_int]). *)

Module Vec3d.

Inductive error :=
  IndexError | ZeroDivisionError | ValueError | TypeError | OverflowError.

Inductive res (R : Type) :=
| Val (r : R)
| Err (e : error).
Arguments Val {R} r.
Arguments Err {R} e.

Definition rbind {R S} (m : res R) (k : R → res S) : res S :=
  match m with
  | Val r => k r
  | Err e => Err e
  end.

Notation "x ←r m ; k" := (rbind m (λ x, k))
  (at level 20, m at level 100, k at level 200, right associativity).

Record t := Make { x : Z; y : Z; z : Z }.

Inductive operand :=
| OVec (v : t)
| OSeq (l : list Z)
| ONum (k : Z).

(** [self[key]] *)
Definition __getitem__ (self : t) (key : Z) : res Z :=
  if (key =? 0)%Z then Val (x self)
  else if (key =? 1)%Z then Val (y self)
  else if (key =? 2)%Z then Val (z self)
  else Err IndexError.

(** [self[key] = value]: the vector after the statement, and the exception
    if there is one. *)
Definition __setitem__ (self : t) (key value : Z) : t * option error :=
  if (key =? 0)%Z then (Make value (y self) (z self), None)
  else if (key =? 1)%Z then (Make (x self) value (z self), None)
  else if (key =? 2)%Z then (Make (x self) (y self) value, None)
  else (self, Some IndexError).

(** [hasattr(v, "__getitem__")] *)
Definition has_getitem (v : operand) : bool :=
  match v with
  | OVec _ | OSeq _ => true
  | ONum _ => false
  end.

(** [len(v)] of an operand with [__getitem__]. *)
Definition len (v : operand) : nat :=
  match v with
  | OVec _ => 3
  | OSeq l => length l
  | ONum _ => 0
  end.

(** [v[i]] for [i] in 0, 1, 2. *)
Definition item (v : operand) (i : nat) : res Z :=
  match v with
  | OVec w => __getitem__ w (Z.of_nat i)
  | OSeq l => match l !! i with
              | Some a => Val a
              | None => Err IndexError
              end
  | ONum _ => Err TypeError
  end.

(** [Vec3d(x_or_triple)] *)
Definition init_triple (v : operand) : res t :=
  a ←r item v 0; b ←r item v 1; c ←r item v 2; Val (Make a b c).

Definition __eq__ (self : t) (v : operand) : res bool :=
  if has_getitem v && (len v =? 3) then
    a ←r item v 0;
    if negb (x self =? a)%Z then Val false else
    b ←r item v 1;
    if negb (y self =? b)%Z then Val false else
    c ←r item v 2;
    Val (z self =? c)%Z
  else Val false.

Definition __ne__ (self : t) (v : operand) : res bool :=
  if has_getitem v && (len v =? 3) then
    a ←r item v 0;
    if negb (x self =? a)%Z then Val true else
    b ←r item v 1;
    if negb (y self =? b)%Z then Val true else
    c ←r item v 2;
    Val (negb (z self =? c)%Z)
  else Val true.

(** [self.x or self.y or self.z] *)
Definition __nonzero__ (self : t) : Z :=
  if negb (x self =? 0)%Z then x self
  else if negb (y self =? 0)%Z then y self
  else z self.

(** The truth value Python reads off an integer. *)
Definition truthy (n : Z) : bool := negb (n =? 0)%Z.

Definition _o2 (self : t) (v : operand) (f : Z → Z → res Z) : res t :=
  match v with
  | OVec w =>
      a ←r f (x self) (x w); b ←r f (y self) (y w); c ←r f (z self) (z w);
      Val (Make a b c)
  | OSeq _ =>
      v0 ←r item v 0; a ←r f (x self) v0;
      v1 ←r item v 1; b ←r f (y self) v1;
      v2 ←r item v 2; c ←r f (z self) v2;
      Val (Make a b c)
  | ONum k =>
      a ←r f (x self) k; b ←r f (y self) k; c ←r f (z self) k;
      Val (Make a b c)
  end.

Definition _r_o2 (self : t) (v : operand) (f : Z → Z → res Z) : res t :=
  if has_getitem v then
    v0 ←r item v 0; a ←r f v0 (x self);
    v1 ←r item v 1; b ←r f v1 (y self);
    v2 ←r item v 2; c ←r f v2 (z self);
    Val (Make a b c)
  else match v with
       | ONum k =>
           a ←r f k (x self); b ←r f k (y self); c ←r f k (z self);
           Val (Make a b c)
       | _ => Err TypeError
       end.

(** An in-place operator: the vector as the statement leaves it, and the
    exception if there is one. *)
Definition _io (self : t) (v : operand) (f : Z → Z → res Z) : t * option error :=
  if has_getitem v then
    match (v0 ←r item v 0; f (x self) v0) with
    | Err e => (self, Some e)
    | Val a =>
        let s1 := Make a (y self) (z self) in
        match (v1 ←r item v 1; f (y s1) v1) with
        | Err e => (s1, Some e)
        | Val b =>
            let s2 := Make (x s1) b (z s1) in
            match (v2 ←r item v 2; f (z s2) v2) with
            | Err e => (s2, Some e)
            | Val c => (Make (x s2) (y s2) c, None)
            end
        end
    end
  else match v with
       | ONum k =>
           match f (x self) k with
           | Err e => (self, Some e)
           | Val a =>
               let s1 := Make a (y self) (z self) in
               match f (y s1) k with
               | Err e => (s1, Some e)
               | Val b =>
                   let s2 := Make (x s1) b (z s1) in
                   match f (z s2) k with
                   | Err e => (s2, Some e)
                   | Val c => (Make (x s2) (y s2) c, None)
                   end
               end
           end
       | _ => (self, Some TypeError)
       end.

(** The binary operators written out in the source for the three kinds of
    operand: [op] is [+], [-] or [*]. *)
Definition arith (op : Z → Z → Z) (self : t) (v : operand) : res t :=
  match v with
  | OVec w => Val (Make (op (x self) (x w)) (op (y self) (y w)) (op (z self) (z w)))
  | OSeq _ =>
      v0 ←r item v 0; v1 ←r item v 1; v2 ←r item v 2;
      Val (Make (op (x self) v0) (op (y self) v1) (op (z self) v2))
  | ONum k => Val (Make (op (x self) k) (op (y self) k) (op (z self) k))
  end.

(** The augmented assignments [self.x op= ...; self.y op= ...; self.z op= ...]
    written out in the source. *)
Definition iarith (op : Z → Z → Z) (self : t) (v : operand) : t * option error :=
  match v with
  | OVec w =>
      (Make (op (x self) (x w)) (op (y self) (y w)) (op (z self) (z w)), None)
  | OSeq _ =>
      match item v 0 with
      | Err e => (self, Some e)
      | Val v0 =>
          let s1 := Make (op (x self) v0) (y self) (z self) in
          match item v 1 with
          | Err e => (s1, Some e)
          | Val v1 =>
              let s2 := Make (x s1) (op (y s1) v1) (z s1) in
              match item v 2 with
              | Err e => (s2, Some e)
              | Val v2 => (Make (x s2) (y s2) (op (z s2) v2), None)
              end
          end
      end
  | ONum k =>
      (Make (op (x self) k) (op (y self) k) (op (z self) k), None)
  end.

Definition __add__ := arith Z.add.
Definition __radd__ := __add__.
Definition __iadd__ := iarith Z.add.
Definition __sub__ := arith Z.sub.
Definition __rsub__ := arith (λ a b, b - a)%Z.
Definition __isub__ := iarith Z.sub.
Definition __mul__ := arith Z.mul.
Definition __rmul__ := __mul__.
Definition __imul__ := iarith Z.mul.

(** [operator.floordiv] on integers; [operator.div] is the same on them. *)
Definition floordiv (a b : Z) : res Z :=
  if (b =? 0)%Z then Err ZeroDivisionError else Val (a / b)%Z.

(** [operator.mod] on integers. *)
Definition mod_ (a b : Z) : res Z :=
  if (b =? 0)%Z then Err ZeroDivisionError else Val (a mod b)%Z.

Definition __div__ (self : t) (v : operand) := _o2 self v floordiv.
Definition __rdiv__ (self : t) (v : operand) := _r_o2 self v floordiv.
Definition __idiv__ (self : t) (v : operand) := _io self v floordiv.
Definition __floordiv__ (self : t) (v : operand) := _o2 self v floordiv.
Definition __rfloordiv__ (self : t) (v : operand) := _r_o2 self v floordiv.
Definition __ifloordiv__ (self : t) (v : operand) := _io self v floordiv.
Definition __itruediv__ (self : t) (v : operand) := _io self v floordiv.
Definition __mod__ (self : t) (v : operand) := _o2 self v mod_.
Definition __rmod__ (self : t) (v : operand) := _r_o2 self v mod_.

Definition __and__ (self : t) (v : operand) := _o2 self v (λ a b, Val (Z.land a b)).
Definition __or__ (self : t) (v : operand) := _o2 self v (λ a b, Val (Z.lor a b)).
Definition __xor__ (self : t) (v : operand) := _o2 self v (λ a b, Val (Z.lxor a b)).

Definition __neg__ (self : t) : t := Make (- x self) (- y self) (- z self).
Definition __pos__ (self : t) : t := Make (x self) (y self) (z self).
Definition __abs__ (self : t) : t :=
  Make (Z.abs (x self)) (Z.abs (y self)) (Z.abs (z self)).
Definition __invert__ (self : t) : t := Make (- x self) (- y self) (- z self).

Definition get_length_sqrd (self : t) : Z :=
  (x self ^ 2 + y self ^ 2 + z self ^ 2)%Z.

(** [float(n)] of a Python integer: the double nearest to [n], the tie
    going to the even significand of 53 bits; OverflowError when that is
    2^1024 or more.  [e] is the number of bits of [|n|] beyond 53. *)
Definition float_of_int (n : Z) : res Q :=
  let a := Z.abs n in
  let e := Z.max 0 (Z.log2 a + 1 - 53) in
  let q := (a / 2 ^ e)%Z in
  let r := (a mod 2 ^ e)%Z in
  let half := (2 ^ (e - 1))%Z in
  let q' := if (e =? 0)%Z then q
            else if (r <? half)%Z then q
            else if (half <? r)%Z then (q + 1)%Z
            else if Z.even q then q else (q + 1)%Z in
  let m := (q' * 2 ^ e)%Z in
  if (2 ^ 1024 <=? m)%Z then Err OverflowError
  else Val (inject_Z (Z.sgn n * m)).

(** [float(self.x*v[0] + self.y*v[1] + self.z*v[2])] *)
Definition dot (self : t) (v : operand) : res Q :=
  v0 ←r item v 0; v1 ←r item v 1; v2 ←r item v 2;
  float_of_int (x self * v0 + y self * v1 + z self * v2).

Definition get_dist_sqrd (self : t) (v : operand) : res Z :=
  v0 ←r item v 0; v1 ←r item v 1; v2 ←r item v 2;
  Val ((x self - v0) ^ 2 + (y self - v1) ^ 2 + (z self - v2) ^ 2)%Z.

Definition cross (self : t) (v : operand) : res t :=
  v2 ←r item v 2; v1 ←r item v 1; v0 ←r item v 0;
  Val (Make (y self * v2 - z self * v1)
            (z self * v0 - x self * v2)
            (x self * v1 - y self * v0)).

Definition __getstate__ (self : t) : list Z := [x self; y self; z self].

(** [self.x, self.y, self.z = dict] *)
Definition __setstate__ (self : t) (dict : list Z) : t * option error :=
  match dict with
  | [a; b; c] => (Make a b c, None)
  | _ => (self, Some ValueError)
  end.

(** The helper functions [minimum] and [maximum]. *)
Definition minimum (v1 v2 : operand) : res t :=
  a ←r init_triple v1; b ←r init_triple v2;
  Val (Make (Z.min (x a) (x b)) (Z.min (y a) (y b)) (Z.min (z a) (z b))).

Definition maximum (v1 v2 : operand) : res t :=
  a ←r init_triple v1; b ←r init_triple v2;
  Val (Make (Z.max (x a) (x b)) (Z.max (y a) (y b)) (Z.max (z a) (z b))).

End Vec3d.

(** ** Vocabulary of the statements *)

(** The pixel at leading index [c], row [i], column [j] of a section. *)
Definition pixel {A} (s : list (plane A)) (c i j : nat) : option A :=
  match s !! c with
  | Some p => match p !! i with
              | Some row => row !! j
              | None => None
              end
  | None => None
  end.

(** Two sections have the same shape (C, Y, X). *)
Definition same_shape {A} (s1 s2 : list (plane A)) : Prop :=
  Forall2 (Forall2 (λ r1 r2 : list A, length r1 = length r2)) s1 s2.


(** An answer of [rand()]. *)
Definition unit_draw (u : Q) : Prop := (0 <= u)%Q ∧ (u < 1)%Q.


(** The bit of a quadrant rule that governs the pixel in the top or bottom
    rows ([top]) and left or right columns ([left]). *)
Definition quadrant_bit (rule : rule4) (top left : bool) : bool :=
  let '(r0, r1, r2, r3) := rule in
  match top, left with
  | true, true => r0
  | false, true => r1
  | true, false => r2
  | false, false => r3
  end.

(** The mean of every pixel of a row with its two neighbours, the border
    pixel standing in for a missing neighbour. *)
Definition row_mean (row : list Q) : list Q :=
  match row with
  | [] => []
  | a :: rest =>
      zip_with (λ l cr : Q * Q, (l.1 + l.2 + cr.2) / 3)%Q
        (zip (a :: row) row)
        (zip row (rest ++ [List.last row a]))
  end.

(** A same-shaped smoothing, used to run [Blur] on concrete samples.  Like
    scipy's [gaussian_filter], and as the spec says of a blur of zero
    width, it returns its input for a width of at most 1e-15; wider, it
    smooths every row with [row_mean]. *)
Definition box_filter (img : list (plane Q)) (sigma : Q) : list (plane Q) :=
  if Qle_bool sigma (1 # 1000000000000000) then img
  else fmap (M:=list) (fmap (M:=list) row_mean) img.

(** A volume filled with one value. *)
Definition full {A} (C Z Y X : nat) (a : A) : volume A :=
  Volume C Z Y X (replicate C (replicate Z (replicate Y (replicate X a)))).

(** One step of the loop of [Flip.__call__] with [f] for [flip(., rule)]. *)
Definition insert_image {A} (f : volume A → volume A)
    (acc : gmap string (volume A)) (kv : string * volume A)
  : gmap string (volume A) := <[kv.1 := f kv.2]> acc.


(** A computation that does not write to the store. *)
Definition reads {A R} (m : M A R) : Prop :=
  ∀ w r w', m w = (r, w') → store w' = store w.

(** One of the four conditional quadrant writes, on the section. *)
Definition blend {A} (b top left : bool) (y x : nat) (sec B : list (plane A))
  : list (plane A) :=
  if b then zip_with (Blur.assign_quadrant top left y x) sec B else sec.

(** The four writes in the order of the source. *)
Definition blend4 {A} (rule : rule4) (y x : nat) (sec B : list (plane A))
  : list (plane A) :=
  let '(r0, r1, r2, r3) := rule in
  blend r3 false false y x
    (blend r2 true false y x
       (blend r1 false true y x
          (blend r0 true true y x sec B) B) B) B.

(** The effect of one conditional quadrant write on the volume. *)
Definition write_if {A} (z : nat) (y x : Z) (B : list (plane A))
    (b top left : bool) (v : volume A) : volume A :=
  if b
  then set_section z
         (zip_with (Blur.assign_quadrant top left (Z.to_nat y) (Z.to_nat x))
                   (get_section z v) B) v
  else v.

(** What the quadrant writes keep of the volume [v] they started from. *)
Definition write_inv {A} (z : nat) (B : list (plane A)) (v vk : volume A) : Prop :=
  shape3 vk = shape3 v ∧
  length (voxels vk) = length (voxels v) ∧
  Forall (λ ch, z < length ch) (voxels vk) ∧
  (∀ z', z' ≠ z → get_section z' vk = get_section z' v) ∧
  same_shape (get_section z vk) B.

(** A small volume with distinct sections. *)
Definition demo_volume : volume Q :=
  Volume 1 3 2 2 [[ [[1; 3]; [2; 8]]; [[3; 9]; [6; 0]]; [[5; 5]; [1; 1]] ]]%Q.

(** Multiply by [c], add [b], clip to [0, 1], raise to the power [g]. *)
Definition perturb (c b g a : R) : R :=
  LongAff.np_power (LongAff.clip01 (a * c + b)) g.

(** A pixel value within [0, 1]. *)
Definition in01 (a : R) : Prop := (0 <= a <= 1)%R.

(** What the greyscale augmentation makes of one value, written out: the
    value times [c] plus [b], cut off at 0 and at 1, to the power [g].  An
    infinity ends at the bound on its side; an infinity times 0 is NaN, and
    NaN stays NaN. *)
Definition greyscale (c b g : R) (p : npfloat) : npfloat :=
  match p with
  | Finite a =>
      if Rle_dec (a * c + b) 0 then Finite 0
      else if Rle_dec 1 (a * c + b) then Finite 1
      else Finite (exp (g * ln (a * c + b)))
  | PInf => if Rlt_dec 0 c then Finite 1 else if Rlt_dec c 0 then Finite 0 else NaN
  | NInf => if Rlt_dec 0 c then Finite 0 else if Rlt_dec c 0 then Finite 1 else NaN
  | NaN => NaN
  end.

(** [p'] is what the augmentation may leave of the value [p]: NaN for NaN,
    and a finite value within [0, 1] for every other value. *)
Definition ranged (p p' : npfloat) : Prop :=
  match p with
  | NaN => p' = NaN
  | _ => ∃ a, p' = Finite a ∧ in01 a
  end.

(** [ranged], at a position that both arrays have or both lack. *)
Definition pixel_ranged (o o' : option npfloat) : Prop :=
  match o, o' with
  | Some p, Some p' => ranged p p'
  | None, None => True
  | _, _ => False
  end.

(** A function on values that the range statement holds of. *)
Definition keeps_range (f : npfloat → npfloat) : Prop := ∀ p, ranged p (f p).

(** Every section of [v'] is a section of [v] with such a function applied
    to its values. *)
Definition ranged_volume (v v' : volume npfloat) : Prop :=
  shape3 v' = shape3 v ∧
  ∀ z, z < zext v →
    ∃ f, keeps_range f ∧
         get_section z v' = LongAff.section_map f (get_section z v).

(** In every volume of the store, every leading index holds as many
    sections as the shape says. *)
Definition sections_agree {A} (s : gmap string (volume A)) : Prop :=
  ∀ key v, s !! key = Some v → Forall (λ ch, length ch = zext v) (voxels v).

(** Every volume of [s] is still bound in [s'], with its shape. *)
Definition same_shapes {A} (s s' : gmap string (volume A)) : Prop :=
  ∀ key v, s !! key = Some v →
    ∃ v', s' !! key = Some v' ∧ shape3 v' = shape3 v ∧ nchan v' = nchan v.

(** Every run of [m] takes the store to a store related by [Rel]. *)
Definition respects {A R} (Rel : relation (gmap string (volume A)))
    (m : M A R) : Prop :=
  ∀ w r w', m w = (r, w') → Rel (store w) (store w').


(** The arguments [Blur.__init__] is written for. *)
Definition blur_args_valid (max_sec : Z) (sm : Q) (m : string) (ratio : Q) : Prop :=
  (0 <= max_sec)%Z ∧ (0 <= sm)%Q ∧
  (m = "full" ∨ m = "partial" ∨ m = "mix") ∧
  (0 <= ratio)%Q ∧ (ratio <= 1)%Q.

(** The arguments [LongAff.__init__] is written for: the mode is compared
    by its characters. *)
Definition longaff_args_valid (m : pystr) (ratio : Q) : Prop :=
  (chars m = "2D" ∨ chars m = "3D" ∨ chars m = "mix") ∧
  (0 <= ratio)%Q ∧ (ratio <= 1)%Q.

(** [sample[key].shape[-3]], 0 for a key the sample does not hold. *)
Definition extent {A} (s : gmap string (volume A)) (key : string) : nat :=
  from_option zext 0 (s !! key).





(** ** Running the monad *)

Lemma bind_Ok {A R S} (m : M A R) (k : R → M A S) w r w' :
  bind m k w = (Ok r, w') → ∃ x w1, m w = (Ok x, w1) ∧ k x w1 = (Ok r, w').
Proof.
  unfold bind. destruct (m w) as [[x| |] w1]; intros H; try discriminate.
  eauto.
Qed.

Lemma bind_step {A R S} (m : M A R) (k : R → M A S) w x w1 :
  m w = (Ok x, w1) → bind m k w = k x w1.
Proof. unfold bind. intros ->. reflexivity. Qed.

Lemma bind_raise {A R S} (m : M A R) (k : R → M A S) w e w1 :
  m w = (Raise e, w1) → bind m k w = (Raise e, w1).
Proof. unfold bind. intros ->. reflexivity. Qed.

Lemma Qltb_lt x y : Qltb x y = true ↔ (x < y)%Q.
Proof.
  unfold Qltb. rewrite negb_true_iff. split.
  - intros H. apply Qnot_le_lt. intros Hle. apply Qle_bool_iff in Hle. congruence.
  - intros H. destruct (Qle_bool y x) eqn:E; [|reflexivity].
    apply Qle_bool_iff in E. exfalso. eapply Qlt_not_le; eauto.
Qed.

Lemma rand_Ok {A} (w w' : world A) u :
  rand w = (Ok u, w') →
  (0 <= u)%Q ∧ (u < 1)%Q ∧ tape w = DRand u :: tape w' ∧ store w' = store w.
Proof.
  unfold rand. destruct (tape w) as [|[u'| |] t] eqn:E; try discriminate.
  destruct (Qle_bool 0 u' && Qltb u' 1) eqn:Hu; try discriminate.
  intros [= <- <-]. apply andb_true_iff in Hu as [H0 H1].
  apply Qle_bool_iff in H0. apply Qltb_lt in H1. simpl. auto.
Qed.

Lemma rand_run {A} (s : gmap string (volume A)) u t :
  (0 <= u)%Q → (u < 1)%Q → rand (World s (DRand u :: t)) = (Ok u, World s t).
Proof.
  intros H0 H1. unfold rand. simpl.
  apply Qle_bool_iff in H0. apply Qltb_lt in H1. rewrite H0, H1. reflexivity.
Qed.

Lemma randint_Ok {A} lo hi (w w' : world A) n :
  randint lo hi w = (Ok n, w') →
  (lo <= n < hi)%Z ∧ tape w = DInt n :: tape w' ∧ store w' = store w.
Proof.
  unfold randint. destruct (lo <? hi)%Z; try discriminate.
  destruct (tape w) as [|[|n'|] t] eqn:E; try discriminate.
  destruct ((lo <=? n')%Z && (n' <? hi)%Z) eqn:Hn; try discriminate.
  intros [= <- <-]. apply andb_true_iff in Hn as [H0 H1]. simpl.
  split; [lia | auto].
Qed.

Lemma randint_run {A} lo hi (s : gmap string (volume A)) n t :
  (lo <= n < hi)%Z → randint lo hi (World s (DInt n :: t)) = (Ok n, World s t).
Proof.
  intros H. unfold randint. simpl.
  replace (lo <? hi)%Z with true by (symmetry; apply Z.ltb_lt; lia).
  replace (lo <=? n)%Z with true by (symmetry; apply Z.leb_le; lia).
  replace (n <? hi)%Z with true by (symmetry; apply Z.ltb_lt; lia).
  reflexivity.
Qed.

Lemma randint_empty {A} lo hi (w : world A) :
  (hi <= lo)%Z → randint lo hi w = (Raise ValueError, w).
Proof.
  intros H. unfold randint.
  replace (lo <? hi)%Z with false by (symmetry; apply Z.ltb_ge; lia).
  reflexivity.
Qed.


(** ** The skip flag (C1, C9, C10) *)

Lemma and_then_Ok {X Y} (o : outcome X) (k : X → outcome Y) y :
  and_then o k = Ok y → ∃ x, o = Ok x ∧ k x = Ok y.
Proof. destruct o; simpl; intros H; try discriminate. eauto. Qed.

Lemma Blur_init_no_skip max_sec sm m ratio self :
  Blur.__init__ max_sec sm m ratio = Ok self → Blur.skip self = None.
Proof.
  unfold Blur.__init__. intros H.
  apply and_then_Ok in H as (s1 & H1 & H). apply and_then_Ok in H as (s2 & H2 & H).
  apply and_then_Ok in H as (s3 & H3 & H4).
  unfold Blur.set_max_sections in H1. unfold Blur.set_sigma_max in H2.
  unfold Blur.set_mode in H3. unfold Blur.set_skip_ratio in H4.
  destruct (0 <=? max_sec)%Z; [|discriminate]. injection H1 as <-.
  destruct (Qle_bool 0 sm); [|discriminate]. injection H2 as <-.
  destruct (_ || _ || _); [|discriminate]. injection H3 as <-.
  destruct (_ && _); [|discriminate]. injection H4 as <-.
  reflexivity.
Qed.

Lemma LongAff_init_no_skip m ratio self :
  LongAff.__init__ m ratio = Ok self → LongAff.skip self = None.
Proof.
  unfold LongAff.__init__. intros H.
  apply and_then_Ok in H as (s1 & H1 & H). apply and_then_Ok in H as (s2 & H2 & H).
  unfold LongAff.set_mode in H1. unfold LongAff.set_skip_ratio in H2.
  destruct (_ || _ || _); [|discriminate]. injection H1 as <-.
  destruct (_ && _); [|discriminate]. injection H2 as <-.
  injection H as <-. reflexivity.
Qed.

Lemma Blur_prepare_Ok {A S} (self self' : Blur.t) (spec spec' : S) (w w' : world A) :
  Blur.prepare self spec w = (Ok (self', spec'), w') →
  ∃ u, (0 <= u)%Q ∧ (u < 1)%Q ∧ spec' = spec ∧
       Blur.skip self' = Some (Qltb u (Blur.skip_ratio self)) ∧
       Blur.MAX_SEC self' = Blur.MAX_SEC self ∧
       Blur.sigma_max self' = Blur.sigma_max self ∧
       Blur.mode self' = Blur.mode self ∧
       Blur.skip_ratio self' = Blur.skip_ratio self.
Proof.
  unfold Blur.prepare. intros H.
  apply bind_Ok in H as (u & w1 & Hu & H). apply rand_Ok in Hu as (H0 & H1 & _).
  unfold ret in H. injection H as <- <- <-. exists u. simpl. auto 10.
Qed.

Lemma LongAff_prepare_Ok {S} (self self' : LongAff.t) (spec spec' : S) (w w' : world npfloat) :
  LongAff.prepare self spec w = (Ok (self', spec'), w') →
  ∃ u, (0 <= u)%Q ∧ (u < 1)%Q ∧ spec' = spec ∧
       LongAff.skip self' = Some (Qltb u (LongAff.skip_ratio self)) ∧
       LongAff.mode self' = LongAff.mode self ∧
       LongAff.skip_ratio self' = LongAff.skip_ratio self.
Proof.
  unfold LongAff.prepare. intros H.
  apply bind_Ok in H as (u & w1 & Hu & H). apply rand_Ok in Hu as (H0 & H1 & _).
  unfold ret in H. injection H as <- <- <-. exists u. simpl. auto 10.
Qed.

Lemma Qltb_below_one u r : (u < 1)%Q → (r == 1)%Q → Qltb u r = true.
Proof. intros Hu Hr. apply Qltb_lt. rewrite Hr. exact Hu. Qed.

(** C1.  With [skip_ratio = 1.0], whatever [prepare] draws, the paired
    [__call__] of [Blur] and of [LongAff] returns the sample as it was:
    no volume is written and no random number is consumed. *)
Theorem skip_ratio_one_is_identity :
  (∀ (A S : Type) (gaussian_filter : list (plane A) → Q → list (plane A))
     (self self' : Blur.t) (spec spec' : S) (w0 w1 : world A)
     (kw : kwargs) (w : world A),
      (Blur.skip_ratio self == 1)%Q →
      Blur.prepare self spec w0 = (Ok (self', spec'), w1) →
      spec' = spec ∧ Blur.__call__ gaussian_filter self' kw w = (Ok tt, w))
  ∧
  (∀ (S : Type) (self self' : LongAff.t) (spec spec' : S) (w0 w1 : world npfloat)
     (kw : kwargs) (w : world npfloat),
      (LongAff.skip_ratio self == 1)%Q →
      LongAff.prepare self spec w0 = (Ok (self', spec'), w1) →
      spec' = spec ∧ LongAff.__call__ self' kw w = (Ok tt, w)).
Proof.
  split.
  - intros A S gf self self' spec spec' w0 w1 kw w Hr Hp.
    apply Blur_prepare_Ok in Hp as (u & _ & Hu & -> & Hs & _).
    split; [reflexivity|].
    unfold Blur.__call__. rewrite Hs, (Qltb_below_one _ _ Hu Hr). reflexivity.
  - intros S self self' spec spec' w0 w1 kw w Hr Hp.
    apply LongAff_prepare_Ok in Hp as (u & _ & Hu & -> & Hs & _).
    split; [reflexivity|].
    unfold LongAff.__call__. rewrite Hs, (Qltb_below_one _ _ Hu Hr). reflexivity.
Qed.

(** C9.  An object fresh from [__init__] has no [skip] attribute: calling
    it before [prepare] raises AttributeError, and neither skips nor acts. *)
Theorem call_before_prepare_raises :
  (∀ (A : Type) (gaussian_filter : list (plane A) → Q → list (plane A))
     max_sec sm m ratio (self : Blur.t) (kw : kwargs) (w : world A),
      Blur.__init__ max_sec sm m ratio = Ok self →
      Blur.__call__ gaussian_filter self kw w = (Raise AttributeError, w))
  ∧
  (∀ m ratio (self : LongAff.t) (kw : kwargs) (w : world npfloat),
      LongAff.__init__ m ratio = Ok self →
      LongAff.__call__ self kw w = (Raise AttributeError, w)).
Proof.
  split.
  - intros A gf max_sec sm m ratio self kw w Hi.
    unfold Blur.__call__. rewrite (Blur_init_no_skip _ _ _ _ _ Hi). reflexivity.
  - intros m ratio self kw w Hi.
    unfold LongAff.__call__. rewrite (LongAff_init_no_skip _ _ _ Hi). reflexivity.
Qed.

(** C10.  [__init__] accepts [max_sec = 0]; every call of the resulting
    object that is not skipped raises ValueError at the draw
    [randint(1, 1)], with the sample untouched. *)
Theorem max_sections_zero_never_augments :
  ∀ (A : Type) (gaussian_filter : list (plane A) → Q → list (plane A))
    (sm : Q) (m : string) (ratio : Q),
    (0 <= sm)%Q → m = "full" ∨ m = "partial" ∨ m = "mix" →
    (0 <= ratio)%Q → (ratio <= 1)%Q →
    ∃ self, Blur.__init__ 0 sm m ratio = Ok self ∧ Blur.MAX_SEC self = 0%Z ∧
      ∀ (S : Type) (spec spec' : S) (self' : Blur.t) (w0 w1 : world A)
        (kw : kwargs) (w : world A),
        Blur.prepare self spec w0 = (Ok (self', spec'), w1) →
        Blur.skip self' = Some false →
        Blur.__call__ gaussian_filter self' kw w = (Raise ValueError, w).
Proof.
  intros A gf sm m ratio Hsm Hm Hr0 Hr1.
  apply Qle_bool_iff in Hsm, Hr0, Hr1.
  exists (Blur.Make 0 sm m ratio None). split; [|split; [reflexivity|]].
  - unfold Blur.__init__, Blur.set_max_sections, Blur.set_sigma_max,
      Blur.set_mode, Blur.set_skip_ratio, and_then, Blur.blank. simpl.
    rewrite Hsm. simpl.
    replace (bool_decide (m = "full") || bool_decide (m = "partial")
             || bool_decide (m = "mix")) with true.
    + simpl. rewrite Hr0, Hr1. reflexivity.
    + symmetry. destruct Hm as [-> | [-> | ->]]; reflexivity.
  - intros S spec spec' self' w0 w1 kw w Hp Hs.
    apply Blur_prepare_Ok in Hp as (u & _ & _ & _ & _ & HM & _).
    unfold Blur.__call__. rewrite Hs. simpl.
    unfold Blur.augment. apply bind_raise. apply randint_empty.
    rewrite HM. simpl. lia.
Qed.

Lemma skip_ratio_one_is_identity_witness :
  ((1 == 1)%Q ∧
   Blur.prepare (Blur.Make 1 5 "full" 1 None) tt
     (World (∅ : gmap string (volume Q)) [DRand (9 # 10)])
   = (Ok (Blur.Make 1 5 "full" 1 (Some true), tt), World ∅ []) ∧
   Blur.__call__ box_filter (Blur.Make 1 5 "full" 1 (Some true))
     (Kwargs (Some ["input"]) None)
     (World {[ "input" := full 1 3 2 2 1%Q ]} [DInt 1; DChoice [0]; DRand 0])
   = (Ok tt, World {[ "input" := full 1 3 2 2 1%Q ]} [DInt 1; DChoice [0]; DRand 0]))
  ∧
  ((1 == 1)%Q ∧
   LongAff.prepare (LongAff.Make (lit "3D") 1 (3 / 10) (3 / 10) None) tt
     (World ∅ [DRand (9 # 10)])
   = (Ok (LongAff.Make (lit "3D") 1 (3 / 10) (3 / 10) (Some true), tt), World ∅ []) ∧
   LongAff.__call__ (LongAff.Make (lit "3D") 1 (3 / 10) (3 / 10) (Some true))
     (Kwargs (Some ["input"]) None)
     (World {[ "input" := full 1 3 2 2 (Finite 2) ]} [DRand 0; DRand 0; DRand 0])
   = (Ok tt, World {[ "input" := full 1 3 2 2 (Finite 2) ]} [DRand 0; DRand 0; DRand 0])).
Proof.
  split.
  - assert (H1 : (1 == 1)%Q) by reflexivity.
    split; [exact H1|]. split; [reflexivity|].
    exact (proj2 (proj1 skip_ratio_one_is_identity Q unit box_filter
                    (Blur.Make 1 5 "full" 1 None) _ tt tt
                    (World ∅ [DRand (9 # 10)]) (World ∅ []) _ _ H1 eq_refl)).
  - assert (H1 : (1 == 1)%Q) by reflexivity.
    split; [exact H1|]. split; [reflexivity|].
    exact (proj2 (proj2 skip_ratio_one_is_identity unit
                    (LongAff.Make (lit "3D") 1 (3 / 10) (3 / 10) None) _ tt tt
                    (World ∅ [DRand (9 # 10)]) (World ∅ []) _ _ H1 eq_refl)).
Defined.

Lemma call_before_prepare_raises_witness :
  (Blur.__init__ 1 5 "full" (3 # 10) = Ok (Blur.Make 1 5 "full" (3 # 10) None) ∧
   Blur.__call__ box_filter (Blur.Make 1 5 "full" (3 # 10) None)
     (Kwargs (Some ["input"]) None)
     (World {[ "input" := full 1 3 2 2 1%Q ]} [DInt 1; DChoice [0]; DRand 0])
   = (Raise AttributeError,
      World {[ "input" := full 1 3 2 2 1%Q ]} [DInt 1; DChoice [0]; DRand 0]))
  ∧
  (LongAff.__init__ (lit "mix") (3 # 10)
   = Ok (LongAff.Make (lit "mix") (3 # 10) (3 / 10) (3 / 10) None) ∧
   LongAff.__call__ (LongAff.Make (lit "mix") (3 # 10) (3 / 10) (3 / 10) None)
     (Kwargs (Some ["input"]) None)
     (World {[ "input" := full 1 3 2 2 (Finite 2) ]} [DRand 0; DRand 0; DRand 0])
   = (Raise AttributeError,
      World {[ "input" := full 1 3 2 2 (Finite 2) ]} [DRand 0; DRand 0; DRand 0])).
Proof.
  split.
  - split; [reflexivity|].
    exact (proj1 call_before_prepare_raises Q box_filter 1%Z 5%Q "full" (3 # 10)%Q
             _ _ _ eq_refl).
  - split; [reflexivity|].
    exact (proj2 call_before_prepare_raises (lit "mix") (3 # 10)%Q _ _ _ eq_refl).
Defined.

Lemma max_sections_zero_never_augments_witness :
  ∃ self, Blur.__init__ 0 5 "full" (3 # 10) = Ok self ∧ Blur.MAX_SEC self = 0%Z ∧
    ∀ (S : Type) (spec spec' : S) (self' : Blur.t) (w0 w1 : world Q)
      (kw : kwargs) (w : world Q),
      Blur.prepare self spec w0 = (Ok (self', spec'), w1) →
      Blur.skip self' = Some false →
      Blur.__call__ box_filter self' kw w = (Raise ValueError, w).
Proof.
  apply (max_sections_zero_never_augments Q box_filter 5%Q "full" (3 # 10)%Q).
  - apply Qle_bool_iff. reflexivity.
  - left. reflexivity.
  - apply Qle_bool_iff. reflexivity.
  - apply Qle_bool_iff. reflexivity.
Defined.

(** ** The gamma exponent (C6) *)

Lemma Q2R_unit_interval u :
  (0 <= u)%Q → (u < 1)%Q → (0 <= Q2R u < 1)%R.
Proof.
  intros H0 H1. apply Qreals.Qle_Rle in H0. apply Qreals.Qlt_Rlt in H1.
  replace (Q2R 0) with 0%R in H0 by (unfold Q2R; simpl; lra).
  replace (Q2R 1) with 1%R in H1 by (unfold Q2R; simpl; lra).
  lra.
Qed.

Lemma Rpower_2_m1 : Rpower 2 (- (1)) = (1 / 2)%R.
Proof. rewrite Rpower_Ropp, Rpower_1 by lra. lra. Qed.

Lemma gamma_exponent_zero : LongAff.gamma_exponent 0 = (1 / 2)%R.
Proof.
  unfold LongAff.gamma_exponent.
  replace (Q2R 0 * 2 - 1)%R with (- (1))%R by (unfold Q2R; simpl; lra).
  apply Rpower_2_m1.
Qed.

(** C6, as stated, fails: [rand()] may answer 0, and then the exponent is
    exactly 0.5, not above it. *)
Lemma gamma_exponent_reaches_half :
  rand (World (∅ : gmap string (volume npfloat)) [DRand 0]) = (Ok 0%Q, World ∅ []) ∧
  LongAff.gamma_exponent 0 = (1 / 2)%R ∧
  ¬ (1 / 2 < LongAff.gamma_exponent 0)%R.
Proof.
  split; [reflexivity|]. split; [apply gamma_exponent_zero|].
  rewrite gamma_exponent_zero. lra.
Qed.

(** C6, amended.  For every answer [u] of [rand()], the exponent
    [2 ** (u * 2 - 1)] lies in [0.5, 2): it is below 2, at least 0.5, and
    above 0.5 unless the draw is 0. *)
Theorem gamma_exponent_range :
  ∀ (A : Type) (w w' : world A) (u : Q),
    rand w = (Ok u, w') →
    (1 / 2 <= LongAff.gamma_exponent u < 2)%R ∧
    ((0 < u)%Q → (1 / 2 < LongAff.gamma_exponent u)%R).
Proof.
  intros A w w' u Hu. apply rand_Ok in Hu as (H0 & H1 & _).
  destruct (Q2R_unit_interval u H0 H1) as [Hq0 Hq1].
  unfold LongAff.gamma_exponent.
  assert (Hup : (Rpower 2 (Q2R u * 2 - 1) < 2)%R).
  { apply Rlt_le_trans with (Rpower 2 1).
    - apply Rpower_lt; lra.
    - rewrite Rpower_1 by lra. lra. }
  assert (Hstrict : (0 < Q2R u → 1 / 2 < Rpower 2 (Q2R u * 2 - 1))%R).
  { intros Hpos. rewrite <- Rpower_2_m1. apply Rpower_lt; lra. }
  split; [split; [|exact Hup]|].
  - destruct (Rle_lt_or_eq_dec _ _ Hq0) as [Hpos | Heq].
    + left. apply Hstrict, Hpos.
    + right. rewrite <- Heq. replace (0 * 2 - 1)%R with (- (1))%R by lra.
      symmetry. apply Rpower_2_m1.
  - intros Hpos. apply Hstrict. apply Qreals.Qlt_Rlt in Hpos.
    replace (Q2R 0) with 0%R in Hpos by (unfold Q2R; simpl; lra). exact Hpos.
Qed.

Lemma gamma_exponent_range_witness :
  rand (World (∅ : gmap string (volume npfloat)) [DRand (1 # 2)])
  = (Ok (1 # 2)%Q, World ∅ []) ∧
  (1 / 2 <= LongAff.gamma_exponent (1 # 2) < 2)%R ∧
  ((0 < 1 # 2)%Q → (1 / 2 < LongAff.gamma_exponent (1 # 2))%R).
Proof.
  split; [reflexivity|].
  exact (gamma_exponent_range R (World ∅ [DRand (1 # 2)]) (World ∅ [])
           (1 # 2)%Q eq_refl).
Defined.

(** ** Blur: failing before the first write (C2) *)

Lemma collect_dims_spec {A : Type} (n : Z) (imgs : list string)
    (dims : gset (nat * nat * nat)) (w : world A) :
  match Blur.collect_dims n imgs dims w with
  | (Ok d, w') =>
      w' = w ∧ dims ⊆ d ∧
      ∀ key, key ∈ imgs →
        ∃ v, store w !! key = Some v ∧ (n < Z.of_nat (zext v))%Z ∧ shape3 v ∈ d
  | (Raise e, w') =>
      w' = w ∧ (e = KeyError ∨ e = AssertionError) ∧
      (e = KeyError → ∃ key, key ∈ imgs ∧ store w !! key = None)
  | (NoRun, _) => False
  end.
Proof.
  revert dims. induction imgs as [|key rest IH]; intros dims; simpl.
  - unfold ret. split; [reflexivity|]. split; [set_solver|].
    intros key Hin. inversion Hin.
  - unfold bind at 1. unfold getitem at 1.
    destruct (store w !! key) as [v|] eqn:Hv.
    + unfold bind at 1. unfold assert.
      destruct (n <? Z.of_nat (zext v))%Z eqn:Hlt; unfold ret, raise.
      * specialize (IH ({[shape3 v]} ∪ dims)).
        destruct (Blur.collect_dims n rest ({[shape3 v]} ∪ dims) w)
          as [[d|e|] w'].
        -- destruct IH as (-> & Hsub & IH). split; [reflexivity|].
           split; [set_solver|].
           intros k Hin. apply elem_of_cons in Hin as [-> | Hin].
           ++ exists v. split; [exact Hv|]. split; [lia|set_solver].
           ++ apply IH, Hin.
        -- destruct IH as (-> & He & Hk). split; [reflexivity|].
           split; [exact He|].
           intros HK. destruct (Hk HK) as (k & Hin & Hnone).
           exists k. split; [apply elem_of_cons; right; exact Hin|exact Hnone].
        -- exact IH.
      * split; [reflexivity|]. split; [right; reflexivity|]. discriminate.
    + split; [reflexivity|]. split; [left; reflexivity|].
      intros _. exists key. split; [set_solver|exact Hv].
Qed.

Lemma two_shapes_not_singleton (d : gset (nat * nat * nat)) a b :
  a ∈ d → b ∈ d → a ≠ b → (size d =? 1) = false.
Proof.
  intros Ha Hb Hne. apply Nat.eqb_neq. intros Hsz.
  apply size_1_elem_of in Hsz as (x & Hx). set_solver.
Qed.

(** C2.  A call that is not skipped and whose chosen volumes differ in
    their (Z, Y, X) extents, or whose drawn section count [n] is not below
    the z-extent of one of them, raises with the sample as it was (an
    AssertionError when every chosen key is in the sample).  In particular,
    with [MAX_SEC = 1] and a chosen volume of z-extent 1, every run of the
    call raises, with the sample as it was. *)
Theorem precondition_failure_leaves_sample :
  (∀ (A : Type) (gaussian_filter : list (plane A) → Q → list (plane A))
     (self : Blur.t) (kw : kwargs) (imgs : list string)
     (sample : gmap string (volume A)) (n : Z) (rest : list draw),
      Blur.skip self = Some false →
      kw_imgs kw = Some imgs →
      (1 <= n <= Blur.MAX_SEC self)%Z →
      (∃ k1 k2 v1 v2, k1 ∈ imgs ∧ k2 ∈ imgs ∧
          sample !! k1 = Some v1 ∧ sample !! k2 = Some v2 ∧
          shape3 v1 ≠ shape3 v2)
      ∨ (∃ k v, k ∈ imgs ∧ sample !! k = Some v ∧ (Z.of_nat (zext v) <= n)%Z) →
      ∃ e, Blur.__call__ gaussian_filter self kw (World sample (DInt n :: rest))
           = (Raise e, World sample rest)
           ∧ ((∀ k, k ∈ imgs → is_Some (sample !! k)) → e = AssertionError))
  ∧
  (∀ (A : Type) (gaussian_filter : list (plane A) → Q → list (plane A))
     (self : Blur.t) (kw : kwargs) (imgs : list string)
     (sample : gmap string (volume A)) (tp : list draw) (r : outcome unit)
     (w' : world A),
      Blur.skip self = Some false →
      kw_imgs kw = Some imgs →
      Blur.MAX_SEC self = 1%Z →
      (∃ k v, k ∈ imgs ∧ sample !! k = Some v ∧ zext v = 1) →
      Blur.__call__ gaussian_filter self kw (World sample tp) = (r, w') →
      r ≠ NoRun →
      ∃ e, r = Raise e ∧ store w' = sample).
Proof.
  assert (Hmain : ∀ (A : Type) (gf : list (plane A) → Q → list (plane A))
     (self : Blur.t) (kw : kwargs) (imgs : list string)
     (sample : gmap string (volume A)) (n : Z) (rest : list draw),
      Blur.skip self = Some false →
      kw_imgs kw = Some imgs →
      (1 <= n <= Blur.MAX_SEC self)%Z →
      (∃ k1 k2 v1 v2, k1 ∈ imgs ∧ k2 ∈ imgs ∧
          sample !! k1 = Some v1 ∧ sample !! k2 = Some v2 ∧
          shape3 v1 ≠ shape3 v2)
      ∨ (∃ k v, k ∈ imgs ∧ sample !! k = Some v ∧ (Z.of_nat (zext v) <= n)%Z) →
      ∃ e, Blur.__call__ gf self kw (World sample (DInt n :: rest))
           = (Raise e, World sample rest)
           ∧ ((∀ k, k ∈ imgs → is_Some (sample !! k)) → e = AssertionError)).
  { intros A gf self kw imgs sample n rest Hs Hkw Hn Hbad.
    unfold Blur.__call__. rewrite Hs. simpl. unfold Blur.augment.
    rewrite (bind_step _ _ _ n (World sample rest))
      by (apply randint_run; lia).
    unfold kwargs_imgs. rewrite Hkw.
    rewrite (bind_step _ _ _ imgs (World sample rest)) by reflexivity.
    pose proof (collect_dims_spec n imgs ∅ (World sample rest)) as Hc.
    unfold bind at 1.
    destruct (Blur.collect_dims n imgs ∅ (World sample rest)) as [[d|e|] w1].
    - destruct Hc as (-> & _ & Hall). simpl in Hall.
      destruct Hbad as [(k1 & k2 & v1 & v2 & Hi1 & Hi2 & H1 & H2 & Hne)
                       | (k & v & Hi & Hk & Hz)].
      + destruct (Hall k1 Hi1) as (v1' & H1' & _ & Hd1).
        destruct (Hall k2 Hi2) as (v2' & H2' & _ & Hd2).
        rewrite H1 in H1'. injection H1' as <-.
        rewrite H2 in H2'. injection H2' as <-.
        exists AssertionError. split; [|reflexivity].
        unfold bind at 1. unfold assert.
        rewrite (two_shapes_not_singleton d _ _ Hd1 Hd2 Hne). reflexivity.
      + destruct (Hall k Hi) as (v' & Hk' & Hlt & _).
        rewrite Hk in Hk'. injection Hk' as <-. lia.
    - destruct Hc as (-> & He & Hkey). exists e. split; [reflexivity|].
      intros Hpresent. destruct He as [-> | ->]; [|reflexivity].
      destruct (Hkey eq_refl) as (k & Hi & Hnone). simpl in Hnone.
      destruct (Hpresent k Hi) as [v Hv]. congruence.
    - destruct Hc. }
  split; [exact Hmain|].
  intros A gf self kw imgs sample tp r w' Hs Hkw HM (k & v & Hi & Hk & Hz) Hrun Hr.
  destruct (randint 1 (Blur.MAX_SEC self + 1) (World sample tp))
    as [[n| |] w1] eqn:Hd.
  - apply randint_Ok in Hd as (Hn & Ht & Hst). simpl in Ht, Hst.
    destruct w1 as [s1 t1]. simpl in *. subst s1 tp.
    destruct (Hmain A gf self kw imgs sample n t1 Hs Hkw ltac:(lia)) as (e & He & _).
    { right. exists k, v. split; [exact Hi|]. split; [exact Hk|]. lia. }
    rewrite He in Hrun. injection Hrun as <- <-. exists e. split; reflexivity.
  - unfold randint in Hd. rewrite HM in Hd. simpl in Hd.
    destruct tp as [|[| |] ?]; simpl in Hd; try discriminate.
    destruct (_ && _); discriminate.
  - unfold Blur.__call__ in Hrun. rewrite Hs in Hrun. simpl in Hrun.
    unfold Blur.augment in Hrun. unfold bind at 1 in Hrun. rewrite Hd in Hrun.
    injection Hrun as <- _. congruence.
Qed.

Lemma precondition_failure_leaves_sample_witness :
  Blur.skip (Blur.Make 1 5 "full" (3 # 10) (Some false)) = Some false ∧
  (1 <= 1 <= Blur.MAX_SEC (Blur.Make 1 5 "full" (3 # 10) (Some false)))%Z ∧
  shape3 (full 1 3 2 2 1%Q) ≠ shape3 (full 1 4 2 2 1%Q) ∧
  ∃ e, Blur.__call__ box_filter (Blur.Make 1 5 "full" (3 # 10) (Some false))
         (Kwargs (Some ["a"; "b"]) None)
         (World {[ "a" := full 1 3 2 2 1%Q; "b" := full 1 4 2 2 1%Q ]}
                [DInt 1; DChoice [0]; DRand 0])
       = (Raise e,
          World {[ "a" := full 1 3 2 2 1%Q; "b" := full 1 4 2 2 1%Q ]}
                [DChoice [0]; DRand 0])
       ∧ ((∀ k, k ∈ ["a"; "b"] →
             is_Some (({[ "a" := full 1 3 2 2 1%Q; "b" := full 1 4 2 2 1%Q ]}
                       : gmap string (volume Q)) !! k)) →
          e = AssertionError).
Proof.
  assert (Hne : shape3 (full 1 3 2 2 1%Q) ≠ shape3 (full 1 4 2 2 1%Q))
    by discriminate.
  assert (Hn : (1 <= 1 <= Blur.MAX_SEC (Blur.Make 1 5 "full" (3 # 10) (Some false)))%Z)
    by (simpl; lia).
  split; [reflexivity|]. split; [exact Hn|]. split; [exact Hne|].
  apply (proj1 precondition_failure_leaves_sample Q box_filter
           (Blur.Make 1 5 "full" (3 # 10) (Some false))
           (Kwargs (Some ["a"; "b"]) None) ["a"; "b"]
           {[ "a" := full 1 3 2 2 1%Q; "b" := full 1 4 2 2 1%Q ]}
           1%Z [DChoice [0]; DRand 0] eq_refl eq_refl Hn).
  left. exists "a", "b", (full 1 3 2 2 1%Q), (full 1 4 2 2 1%Q).
  split; [apply elem_of_cons; left; reflexivity|].
  split; [apply elem_of_cons; right; apply elem_of_cons; left; reflexivity|].
  split; [reflexivity|]. split; [reflexivity|]. exact Hne.
Defined.

(** ** Flip (C7, C8) *)

Section TransposeFacts.
Context {A : Type}.
Implicit Types (p : plane A) (row : list A).

Lemma length_transpose X p :
  Forall (λ row, length row = X) p → length (transpose X p) = X.
Proof.
  induction 1 as [|row rest Hrow _ IH]; simpl.
  - apply length_replicate.
  - rewrite length_zip_with, IH, Hrow. lia.
Qed.

Lemma transpose_zip_cons n row (M : plane A) :
  length row = length M →
  transpose (S n) (zip_with cons row M) = row :: transpose n M.
Proof.
  revert M. induction row as [|a row IH]; intros [|m M] Hlen;
    simpl in *; try discriminate.
  - reflexivity.
  - rewrite IH by lia. reflexivity.
Qed.

Lemma transpose_involutive Y X p :
  plane_wf Y X p → transpose Y (transpose X p) = p.
Proof.
  intros [<- Hrows]. induction Hrows as [|row rest Hrow Hrest IH]; simpl.
  - induction X as [|X IHX]; simpl; [reflexivity|]. reflexivity.
  - rewrite transpose_zip_cons.
    + rewrite IH. reflexivity.
    + rewrite length_transpose by exact Hrest. exact Hrow.
Qed.

Lemma fmap_reverse_zip_cons row (T : plane A) :
  reverse <$> zip_with cons row T
  = zip_with (λ col a, col ++ [a]) (reverse <$> T) row.
Proof.
  revert T. induction row as [|a row IH]; intros [|col T]; simpl; try reflexivity.
  rewrite IH, reverse_cons. reflexivity.
Qed.

Lemma zip_cons_snoc row row' (T : plane A) :
  zip_with cons row (zip_with (λ col a, col ++ [a]) T row')
  = zip_with (λ col a, col ++ [a]) (zip_with cons row T) row'.
Proof.
  revert row' T. induction row as [|a row IH]; intros [|b row'] [|col T];
    simpl; try reflexivity.
  rewrite IH. reflexivity.
Qed.

Lemma transpose_snoc X p row :
  length row = X →
  transpose X (p ++ [row])
  = zip_with (λ col a, col ++ [a]) (transpose X p) row.
Proof.
  intros Hrow. induction p as [|r p IH]; simpl.
  - subst X. induction row as [|a row IHr]; simpl; [reflexivity|].
    rewrite IHr. reflexivity.
  - rewrite IH. apply zip_cons_snoc.
Qed.

Lemma transpose_reverse X p :
  Forall (λ row, length row = X) p →
  transpose X (reverse p) = reverse <$> transpose X p.
Proof.
  induction 1 as [|row rest Hrow _ IH]; simpl.
  - rewrite fmap_replicate. reflexivity.
  - rewrite reverse_cons, transpose_snoc by exact Hrow.
    rewrite IH. symmetry. apply fmap_reverse_zip_cons.
Qed.

Lemma zip_with_reverse {B C} (f : A → B → C) (l : list A) (k : list B) :
  length l = length k →
  zip_with f (reverse l) (reverse k) = reverse (zip_with f l k).
Proof.
  revert k. induction l as [|a l IH]; intros [|b k] Hlen; simpl in *;
    try discriminate; [reflexivity|].
  rewrite !reverse_cons, zip_with_app by (rewrite !length_reverse; lia).
  rewrite IH by lia. reflexivity.
Qed.

Lemma transpose_fmap_reverse X p :
  Forall (λ row, length row = X) p →
  transpose X (reverse <$> p) = reverse (transpose X p).
Proof.
  induction 1 as [|row rest Hrow Hrest IH].
  - simpl. rewrite reverse_replicate. reflexivity.
  - rewrite fmap_cons. cbn [transpose]. rewrite IH. apply zip_with_reverse.
    rewrite length_transpose by exact Hrest. exact Hrow.
Qed.

(** Reversing rows and columns and transposing, twice, is the identity. *)
Lemma flip_plane_twice Y X p :
  plane_wf Y X p →
  transpose Y (reverse <$> reverse (transpose X (reverse <$> reverse p))) = p.
Proof.
  intros Hwf. assert (Hrows := proj2 Hwf).
  rewrite (transpose_fmap_reverse X (reverse p))
    by (apply Forall_reverse; exact Hrows).
  rewrite (transpose_reverse X p) by exact Hrows.
  rewrite reverse_involutive, <- list_fmap_compose.
  rewrite (list_fmap_ext (reverse ∘ reverse) Datatypes.id (transpose X p)).
  - rewrite list_fmap_id. apply transpose_involutive, Hwf.
  - intros i x _. simpl. apply reverse_involutive.
Qed.

End TransposeFacts.

(** C8.  On an array whose data agree with its shape, [flip] with the
    all-true rule, applied twice, gives the array back. *)
Theorem flip_all_true_involutive :
  ∀ (A : Type) (v : volume A),
    volume_wf v →
    flip (flip v (true, true, true, true)) (true, true, true, true) = v.
Proof.
  intros A [C Z Y X vox] [_ Hwf]. simpl in Hwf.
  unfold flip, transpose_yx, reverse_x, reverse_y, reverse_z. simpl. f_equal.
  rewrite <- !list_fmap_compose.
  rewrite <- (list_fmap_id vox) at 2.
  apply Forall_fmap_ext. eapply Forall_impl; [exact Hwf|].
  intros ch [_ Hch]. simpl. unfold Datatypes.id.
  rewrite <- !fmap_reverse, <- !list_fmap_compose.
  rewrite reverse_involutive.
  rewrite <- (list_fmap_id ch) at 2.
  apply Forall_fmap_ext. eapply Forall_impl; [exact Hch|].
  intros p Hp. simpl. unfold Datatypes.id. apply (flip_plane_twice Y X p Hp).
Qed.

Lemma flip_all_true_involutive_witness :
  volume_wf (Volume 1 1 2 3 [[ [[1; 2; 3]; [4; 5; 6]] ]]) ∧
  flip (Volume 1 1 2 3 [[ [[1; 2; 3]; [4; 5; 6]] ]]) (true, true, true, true)
  = Volume 1 1 3 2 [[ [[6; 3]; [5; 2]; [4; 1]] ]] ∧
  flip (flip (Volume 1 1 2 3 [[ [[1; 2; 3]; [4; 5; 6]] ]]) (true, true, true, true))
       (true, true, true, true)
  = Volume 1 1 2 3 [[ [[1; 2; 3]; [4; 5; 6]] ]].
Proof.
  assert (Hwf : volume_wf (Volume 1 1 2 3 [[ [[1; 2; 3]; [4; 5; 6]] ]])).
  { split; [reflexivity|]. repeat constructor. }
  split; [exact Hwf|]. split; [reflexivity|].
  exact (flip_all_true_involutive nat _ Hwf).
Defined.

Section FlipCall.
Context {A : Type}.
Variable f : volume A → volume A.

Lemma for_setitem (l : list (string * volume A)) s tp :
  for_ l (λ kv, setitem kv.1 (f kv.2)) (World s tp)
  = (Ok tt, World (foldl (insert_image f) s l) tp).
Proof.
  revert s. induction l as [|kv l IH]; intros s; simpl; [reflexivity|].
  unfold bind, setitem at 1. simpl. apply IH.
Qed.

Lemma lookup_foldl_insert_image (l : list (string * volume A)) acc k :
  NoDup l.*1 →
  foldl (insert_image f) acc l !! k
  = match (list_to_map l : gmap string (volume A)) !! k with
    | Some v => Some (f v)
    | None => acc !! k
    end.
Proof.
  revert acc. induction l as [|[k0 v0] l IH]; intros acc Hnd.
  - simpl. rewrite lookup_empty. reflexivity.
  - rewrite fmap_cons in Hnd. apply NoDup_cons in Hnd as [Hk0 Hnd].
    cbn [foldl]. rewrite IH by exact Hnd.
    change (list_to_map ((k0, v0) :: l) : gmap string (volume A))
      with (<[k0 := v0]> (list_to_map l : gmap string (volume A))).
    unfold insert_image. cbn [fst snd] in *.
    destruct (decide (k = k0)) as [-> | Hne].
    + rewrite (lookup_insert_eq (list_to_map l)).
      rewrite (proj1 (not_elem_of_list_to_map l k0) Hk0).
      apply lookup_insert_eq.
    + rewrite (lookup_insert_ne (list_to_map l) k0 k) by congruence.
      destruct (list_to_map l !! k); [reflexivity|].
      apply lookup_insert_ne. congruence.
Qed.

Lemma foldl_insert_image_fmap (s : gmap string (volume A)) :
  foldl (insert_image f) s (map_to_list s) = f <$> s.
Proof.
  apply map_eq. intros k.
  rewrite lookup_foldl_insert_image by apply NoDup_fst_map_to_list.
  rewrite list_to_map_to_list, lookup_fmap.
  destruct (s !! k); reflexivity.
Qed.

End FlipCall.

(** C7.  [Flip.__call__] replaces every volume of the sample, whatever its
    key, by its image under [flip] with one and the same rule: the rule of
    the keyword arguments when there is one, and otherwise the four bits
    [u > 0.5] of four successive draws. *)
Theorem flip_call_maps_every_volume :
  (∀ (A : Type) (flip : volume A → rule4 → volume A) (kw : kwargs)
     (sample : gmap string (volume A)) (tp : list draw) (rule : rule4),
      kw_rule kw = Some rule →
      Flip.__call__ flip kw (World sample tp)
      = (Ok tt, World ((λ v, flip v rule) <$> sample) tp))
  ∧
  (∀ (A : Type) (flip : volume A → rule4 → volume A) (kw : kwargs)
     (sample : gmap string (volume A)) (u0 u1 u2 u3 : Q) (rest : list draw),
      kw_rule kw = None →
      (0 <= u0)%Q ∧ (u0 < 1)%Q → (0 <= u1)%Q ∧ (u1 < 1)%Q →
      (0 <= u2)%Q ∧ (u2 < 1)%Q → (0 <= u3)%Q ∧ (u3 < 1)%Q →
      Flip.__call__ flip kw
        (World sample (DRand u0 :: DRand u1 :: DRand u2 :: DRand u3 :: rest))
      = (Ok tt,
         World ((λ v, flip v (Qltb (1 # 2) u0, Qltb (1 # 2) u1,
                               Qltb (1 # 2) u2, Qltb (1 # 2) u3)) <$> sample)
               rest)).
Proof.
  split.
  - intros A flip kw sample tp rule Hr.
    unfold Flip.__call__. rewrite Hr.
    rewrite (bind_step _ _ _ rule (World sample tp)) by reflexivity.
    rewrite (bind_step _ _ _ (map_to_list sample) (World sample tp))
      by reflexivity.
    rewrite (for_setitem (λ v, flip v rule)), foldl_insert_image_fmap.
    reflexivity.
  - intros A flip kw sample u0 u1 u2 u3 rest Hr [? ?] [? ?] [? ?] [? ?].
    unfold Flip.__call__. rewrite Hr.
    rewrite (bind_step _ _ _
               (Qltb (1 # 2) u0, Qltb (1 # 2) u1, Qltb (1 # 2) u2, Qltb (1 # 2) u3)
               (World sample rest)).
    + rewrite (bind_step _ _ _ (map_to_list sample) (World sample rest))
        by reflexivity.
      rewrite (for_setitem (λ v, flip v _)), foldl_insert_image_fmap.
      reflexivity.
    + unfold rand4_gt_half.
      rewrite (bind_step _ _ _ u0 (World sample (DRand u1 :: DRand u2 :: DRand u3 :: rest)))
        by (apply rand_run; assumption).
      rewrite (bind_step _ _ _ u1 (World sample (DRand u2 :: DRand u3 :: rest)))
        by (apply rand_run; assumption).
      rewrite (bind_step _ _ _ u2 (World sample (DRand u3 :: rest)))
        by (apply rand_run; assumption).
      rewrite (bind_step _ _ _ u3 (World sample rest))
        by (apply rand_run; assumption).
      reflexivity.
Qed.

Lemma flip_call_maps_every_volume_witness :
  Flip.__call__ flip (Kwargs (Some ["a"]) (Some (false, true, false, false)))
    (World {[ "a" := Volume 1 1 2 2 [[ [[1; 2]; [3; 4]] ]];
              "b" := Volume 1 1 2 1 [[ [[5]; [6]] ]] ]} [DRand 0])
  = (Ok tt,
     World {[ "a" := Volume 1 1 2 2 [[ [[3; 4]; [1; 2]] ]];
              "b" := Volume 1 1 2 1 [[ [[6]; [5]] ]] ]} [DRand 0])
  ∧
  Flip.__call__ flip (Kwargs None None)
    (World {[ "a" := Volume 1 1 2 2 [[ [[1; 2]; [3; 4]] ]] ]}
           [DRand 0; DRand (3 # 4); DRand (1 # 2); DRand (1 # 4); DInt 7])
  = (Ok tt, World {[ "a" := Volume 1 1 2 2 [[ [[3; 4]; [1; 2]] ]] ]} [DInt 7]).
Proof.
  split.
  - rewrite (proj1 flip_call_maps_every_volume nat flip
               (Kwargs (Some ["a"]) (Some (false, true, false, false))) _ _
               (false, true, false, false) eq_refl).
    reflexivity.
  - rewrite (proj2 flip_call_maps_every_volume nat flip (Kwargs None None) _
               0%Q (3 # 4)%Q (1 # 2)%Q (1 # 4)%Q [DInt 7] eq_refl)
      by (split; [apply Qle_bool_iff|apply Qltb_lt]; reflexivity).
    reflexivity.
Defined.

(** ** Reading and writing sections *)

Section SectionFacts.
Context {A : Type}.
Implicit Types (v : volume A) (img : list (plane A)).

Lemma length_get_section z v : length (get_section z v) = length (voxels v).
Proof. unfold get_section. apply length_fmap. Qed.

Lemma shape3_set_section z img v : shape3 (set_section z img v) = shape3 v.
Proof. reflexivity. Qed.

Lemma length_set_section z img v :
  length img = length (voxels v) →
  length (voxels (set_section z img v)) = length (voxels v).
Proof. intros H. simpl. rewrite length_zip_with, H. lia. Qed.

Lemma get_set_section_ne z z' img v :
  z ≠ z' → length img = length (voxels v) →
  get_section z' (set_section z img v) = get_section z' v.
Proof.
  intros Hne. unfold get_section, set_section. simpl.
  generalize (voxels v). intros vox. revert img.
  induction vox as [|ch vox IH]; intros [|p img] Hlen; simpl in *;
    try discriminate; [reflexivity|].
  rewrite list_lookup_total_insert_ne by exact Hne.
  f_equal. apply IH. lia.
Qed.

Lemma get_set_section_eq z img v :
  Forall (λ ch, z < length ch) (voxels v) →
  length img = length (voxels v) →
  get_section z (set_section z img v) = img.
Proof.
  unfold get_section, set_section. simpl.
  generalize (voxels v). intros vox Hz. revert img.
  induction Hz as [|ch vox Hch _ IH]; intros [|p img] Hlen; simpl in *;
    try discriminate; [reflexivity|].
  rewrite list_lookup_total_insert_eq by exact Hch.
  f_equal. apply IH. lia.
Qed.

Lemma set_section_chan_lengths z img v (P : nat → Prop) :
  Forall (λ ch, P (length ch)) (voxels v) →
  Forall (λ ch, P (length ch)) (voxels (set_section z img v)).
Proof.
  simpl. generalize (voxels v). intros vox Hz. revert img.
  induction Hz as [|ch vox Hch _ IH]; intros [|p img]; simpl; constructor.
  - rewrite length_insert. exact Hch.
  - apply IH.
Qed.

Lemma set_set_section z img img' v :
  length img = length (voxels v) →
  set_section z img' (set_section z img v) = set_section z img' v.
Proof.
  unfold set_section. simpl. intros Hlen. f_equal.
  revert img img' Hlen. generalize (voxels v).
  induction l as [|ch vox IH]; intros [|p img] [|p' img'] Hlen; simpl in *;
    try discriminate; try reflexivity.
  rewrite list_insert_insert_eq. f_equal. apply IH. lia.
Qed.

Lemma set_get_section z v : set_section z (get_section z v) v = v.
Proof.
  destruct v as [C Z Y X vox]. unfold set_section, get_section. simpl. f_equal.
  induction vox as [|ch vox IH]; [reflexivity|].
  rewrite fmap_cons. cbn [zip_with]. rewrite IH. f_equal.
  destruct (decide (z < length ch)) as [Hlt | Hge].
  - apply list_insert_id, list_lookup_lookup_total_lt, Hlt.
  - apply list_insert_ge. lia.
Qed.

End SectionFacts.

(** ** Stores that differ in few sections *)

Section Untouched.
Context {A : Type}.
Implicit Types (s : gmap string (volume A)).








Lemma reads_rand : reads (@rand A).
Proof.
  intros w r w'. unfold rand.
  destruct (tape w) as [|[u| |] t]; try (intros [= <- <-]; reflexivity).
  destruct (_ && _); intros [= <- <-]; reflexivity.
Qed.

Lemma reads_getitem key : reads (@getitem A key).
Proof.
  intros w r w'. unfold getitem.
  destruct (store w !! key); intros [= <- <-]; reflexivity.
Qed.

Lemma reads_bind {R S} (m : M A R) (k : R → M A S) :
  reads m → (∀ x, reads (k x)) → reads (bind m k).
Proof.
  intros Hm Hk w r w'. unfold bind.
  destruct (m w) as [[x|e|] w1] eqn:E; intros H.
  - rewrite (Hk x w1 r w' H). eapply Hm, E.
  - injection H as <- <-. eapply Hm, E.
  - injection H as <- <-. eapply Hm, E.
Qed.

Lemma reads_for {X} (l : list X) (body : X → M A unit) :
  (∀ x, reads (body x)) → reads (for_ l body).
Proof.
  intros H. induction l as [|x l IH]; simpl.
  - intros w r w' [= <- <-]. reflexivity.
  - apply reads_bind; [apply H|]. intros _. exact IH.
Qed.

Lemma reads_ret {R} (x : R) : reads (@ret A R x).
Proof. intros w r w' [= <- <-]. reflexivity. Qed.

Lemma reads_raise {R} e : reads (@raise A R e).
Proof. intros w r w' [= <- <-]. reflexivity. Qed.

Lemma reads_randint lo hi : reads (@randint A lo hi).
Proof.
  intros w r w'. unfold randint.
  destruct (lo <? hi)%Z; [|intros [= <- <-]; reflexivity].
  destruct (tape w) as [|[|n|] t]; try (intros [= <- <-]; reflexivity).
  destruct (_ && _); intros [= <- <-]; reflexivity.
Qed.

Lemma reads_choice n k : reads (@choice A n k).
Proof.
  intros w r w'. unfold choice.
  destruct (_ || _); [intros [= <- <-]; reflexivity|].
  destruct (tape w) as [|[| |zs] t]; try (intros [= <- <-]; reflexivity).
  destruct (_ && _); intros [= <- <-]; reflexivity.
Qed.


End Untouched.

(** ** Blur in full mode (C3) *)

Lemma length_row_mean (row : list Q) : length (row_mean row) = length row.
Proof.
  destruct row as [|a rest]; [reflexivity|].
  unfold row_mean. rewrite length_zip_with, !length_zip_with.
  rewrite length_app. cbn [length]. lia.
Qed.

Lemma box_filter_same_shape img sigma : same_shape (box_filter img sigma) img.
Proof.
  unfold box_filter, same_shape. destruct (Qle_bool _ _).
  - apply Forall_Forall2_diag, Forall_forall. intros p _.
    apply Forall_Forall2_diag, Forall_forall. intros r _. reflexivity.
  - apply Forall2_fmap_l, Forall_Forall2_diag, Forall_forall. intros p _.
    apply Forall2_fmap_l, Forall_Forall2_diag, Forall_forall. intros r _.
    apply length_row_mean.
Qed.



Lemma reads_collect_dims {A : Type} n imgs dims :
  reads (@Blur.collect_dims A n imgs dims).
Proof.
  intros w r w' H. pose proof (collect_dims_spec n imgs dims w) as Hc.
  rewrite H in Hc. destruct r; [apply f_equal, Hc|apply f_equal, Hc|destruct Hc].
Qed.

(** A blur of width 0 that gives its input back writes nothing new: in
    full mode with [sigma_max = 0] the call leaves the whole store as it
    was, whatever it draws. *)
Lemma full_mode_zero_width_reads {A : Type}
    (gf : list (plane A) → Q → list (plane A)) (self : Blur.t) (kw : kwargs) :
  (∀ img sigma, (sigma == 0)%Q → gf img sigma = img) →
  Blur.mode self = "full" → (Blur.sigma_max self == 0)%Q →
  reads (Blur.__call__ gf self kw).
Proof.
  intros Hgf Hm Hsm. unfold Blur.__call__.
  destruct (Blur.skip self) as [[|]|]; simpl;
    [apply reads_ret| |apply reads_raise].
  unfold Blur.augment.
  apply reads_bind; [apply reads_randint|]. intros n.
  apply reads_bind.
  { unfold kwargs_imgs. destruct (kw_imgs kw); [apply reads_ret|apply reads_raise]. }
  intros imgs. apply reads_bind; [apply reads_collect_dims|]. intros d.
  apply reads_bind.
  { unfold assert. destruct (_ =? _); [apply reads_ret|apply reads_raise]. }
  intros _. apply reads_bind.
  { unfold Blur.pop. destruct (elements d); [apply reads_raise|apply reads_ret]. }
  intros [[zdim ydim] xdim]. apply reads_bind; [apply reads_choice|]. intros zs.
  rewrite Hm. simpl. unfold Blur.blur_full.
  apply reads_for. intros z. apply reads_for. intros key.
  apply reads_bind; [apply reads_rand|]. intros u.
  intros w r w'. unfold bind, getitem, setitem.
  destruct (store w !! key) as [v|] eqn:Hv; intros [= <- <-]; [|reflexivity].
  simpl. rewrite Hgf by (rewrite Hsm; apply Qmult_0_r).
  rewrite set_get_section. apply insert_id, Hv.
Qed.

Lemma box_filter_zero_width img sigma :
  (sigma == 0)%Q → box_filter img sigma = img.
Proof.
  intros H. unfold box_filter.
  replace (Qle_bool sigma (1 # 1000000000000000)) with true; [reflexivity|].
  symmetry. apply Qle_bool_iff. rewrite H. discriminate.
Qed.






(** ** Blur: the quadrants of a partially blurred section (C5) *)

Section Quadrants.
Context {A : Type}.
Implicit Types (d s : plane A) (sec B : list (plane A)).

Lemma assign_cols_cons_S left x a b (rd rs : list A) :
  Blur.assign_cols left (S x) (a :: rd) (b :: rs)
  = (if left then b else a) :: Blur.assign_cols left x rd rs.
Proof. destruct left; reflexivity. Qed.

Lemma assign_cols_0 left (rd rs : list A) :
  Blur.assign_cols left 0 rd rs = if left then rd else rs.
Proof. destruct left; reflexivity. Qed.

Lemma lookup_assign_cols left x (rd rs : list A) j :
  length rd = length rs →
  Blur.assign_cols left x rd rs !! j
  = if Bool.eqb (j <? x) left then rs !! j else rd !! j.
Proof.
  revert x rs j. induction rd as [|a rd IH]; intros x [|b rs] j Hlen;
    simpl in Hlen; try discriminate.
  - unfold Blur.assign_cols. rewrite !take_nil, !drop_nil.
    destruct left, (Bool.eqb _ _); reflexivity.
  - destruct x as [|x].
    + rewrite assign_cols_0. destruct left; reflexivity.
    + rewrite assign_cols_cons_S. destruct j as [|j].
      * destruct left; reflexivity.
      * simpl. rewrite IH by lia. reflexivity.
Qed.

Lemma length_assign_cols left x (rd rs : list A) :
  length rd = length rs → length (Blur.assign_cols left x rd rs) = length rs.
Proof.
  intros H. unfold Blur.assign_cols.
  destruct left; rewrite length_app, length_take, length_drop; lia.
Qed.

Lemma assign_quadrant_cons_S top left y x rd rs d s :
  Blur.assign_quadrant top left (S y) x (rd :: d) (rs :: s)
  = (if top then Blur.assign_cols left x rd rs else rd)
      :: Blur.assign_quadrant top left y x d s.
Proof. destruct top; reflexivity. Qed.

Lemma assign_quadrant_cons_0 top left x rd rs d s :
  Blur.assign_quadrant top left 0 x (rd :: d) (rs :: s)
  = (if top then rd else Blur.assign_cols left x rd rs)
      :: Blur.assign_quadrant top left 0 x d s.
Proof. destruct top; reflexivity. Qed.

Lemma assign_quadrant_nil top left y x :
  Blur.assign_quadrant top left y x [] [] = ([] : plane A).
Proof.
  unfold Blur.assign_quadrant. rewrite !take_nil, !drop_nil.
  destruct top; reflexivity.
Qed.

Lemma lookup_assign_quadrant top left y x d s i :
  Forall2 (λ r1 r2 : list A, length r1 = length r2) d s →
  Blur.assign_quadrant top left y x d s !! i
  = match d !! i, s !! i with
    | Some rd, Some rs =>
        Some (if Bool.eqb (i <? y) top then Blur.assign_cols left x rd rs else rd)
    | _, _ => None
    end.
Proof.
  intros H. revert y i. induction H as [|rd rs d s Hr _ IH]; intros y i.
  - rewrite assign_quadrant_nil. reflexivity.
  - destruct y as [|y].
    + rewrite assign_quadrant_cons_0. destruct i as [|i].
      * destruct top; reflexivity.
      * simpl. rewrite IH. reflexivity.
    + rewrite assign_quadrant_cons_S. destruct i as [|i].
      * destruct top; reflexivity.
      * simpl. rewrite IH. reflexivity.
Qed.

Lemma assign_quadrant_rows top left y x d s :
  Forall2 (λ r1 r2 : list A, length r1 = length r2) d s →
  Forall2 (λ r1 r2 : list A, length r1 = length r2)
          (Blur.assign_quadrant top left y x d s) s.
Proof.
  intros H. revert y. induction H as [|rd rs d s Hr _ IH]; intros y.
  - rewrite assign_quadrant_nil. constructor.
  - destruct y as [|y].
    + rewrite assign_quadrant_cons_0. constructor; [|apply IH].
      destruct top; [exact Hr|apply length_assign_cols, Hr].
    + rewrite assign_quadrant_cons_S. constructor; [|apply IH].
      destruct top; [apply length_assign_cols, Hr|exact Hr].
Qed.

Lemma same_shape_blend b top left y x sec B :
  same_shape sec B → same_shape (blend b top left y x sec B) B.
Proof.
  intros H. unfold blend. destruct b; [|exact H].
  unfold same_shape in *. induction H as [|p q sec B Hpq _ IH]; simpl.
  - constructor.
  - constructor; [apply assign_quadrant_rows, Hpq|exact IH].
Qed.

Lemma pixel_blend b top left y x sec B c i j :
  same_shape sec B →
  pixel (blend b top left y x sec B) c i j
  = if b && Bool.eqb (i <? y) top && Bool.eqb (j <? x) left
    then pixel B c i j else pixel sec c i j.
Proof.
  intros H. unfold blend. destruct b; [|reflexivity]. simpl.
  unfold pixel. rewrite lookup_zip_with.
  destruct (sec !! c) as [p|] eqn:Hp; simpl.
  - destruct (Forall2_lookup_l _ _ _ _ _ H Hp) as (q & Hq & Hpq).
    rewrite Hq. simpl. rewrite lookup_assign_quadrant by exact Hpq.
    destruct (p !! i) as [rd|] eqn:Hrd.
    + destruct (Forall2_lookup_l _ _ _ _ _ Hpq Hrd) as (rs & Hrs & Hlen).
      rewrite Hrs. destruct (Bool.eqb (i <? y) top); simpl; [|reflexivity].
      apply lookup_assign_cols, Hlen.
    + destruct (q !! i) as [rs|] eqn:Hrs; [|destruct (_ && _); reflexivity].
      destruct (Forall2_lookup_r _ _ _ _ _ Hpq Hrs) as (rd & Hrd' & _).
      congruence.
  - destruct (B !! c) as [q|] eqn:Hq; [|destruct (_ && _); reflexivity].
    destruct (Forall2_lookup_r _ _ _ _ _ H Hq) as (p & Hp' & _). congruence.
Qed.

Lemma same_shape_pixel_ext sec B :
  same_shape sec B → (∀ c i j, pixel sec c i j = pixel B c i j) → sec = B.
Proof.
  intros H Hpix. apply list_eq. intros c. specialize (λ i j, Hpix c i j).
  unfold pixel in Hpix.
  destruct (sec !! c) as [p|] eqn:Hp.
  - destruct (Forall2_lookup_l _ _ _ _ _ H Hp) as (q & Hq & Hpq).
    rewrite Hq in *. f_equal. apply list_eq. intros i.
    specialize (Hpix i).
    destruct (p !! i) as [rd|] eqn:Hrd.
    + destruct (Forall2_lookup_l _ _ _ _ _ Hpq Hrd) as (rs & Hrs & _).
      rewrite Hrs in *. f_equal. apply list_eq. exact Hpix.
    + destruct (q !! i) as [rs|] eqn:Hrs; [|reflexivity].
      destruct (Forall2_lookup_r _ _ _ _ _ Hpq Hrs) as (rd & Hrd' & _).
      congruence.
  - destruct (B !! c) as [q|] eqn:Hq; [|reflexivity].
    destruct (Forall2_lookup_r _ _ _ _ _ H Hq) as (p & Hp' & _). congruence.
Qed.

Lemma same_shape_blend4 rule y x sec B :
  same_shape sec B → same_shape (blend4 rule y x sec B) B.
Proof.
  destruct rule as [[[r0 r1] r2] r3]. intros H. unfold blend4.
  repeat apply same_shape_blend. exact H.
Qed.

Lemma pixel_blend4 rule y x sec B c i j :
  same_shape sec B →
  pixel (blend4 rule y x sec B) c i j
  = if quadrant_bit rule (i <? y) (j <? x)
    then pixel B c i j else pixel sec c i j.
Proof.
  destruct rule as [[[r0 r1] r2] r3]. intros H. unfold blend4.
  rewrite !pixel_blend by (repeat apply same_shape_blend; exact H).
  unfold quadrant_bit.
  destruct r0, r1, r2, r3, (i <? y), (j <? x); reflexivity.
Qed.

End Quadrants.

Lemma rand4_run {A} (s : gmap string (volume A)) u0 u1 u2 u3 rest :
  unit_draw u0 → unit_draw u1 → unit_draw u2 → unit_draw u3 →
  rand4_gt_half (World s (DRand u0 :: DRand u1 :: DRand u2 :: DRand u3 :: rest))
  = (Ok (Qltb (1 # 2) u0, Qltb (1 # 2) u1, Qltb (1 # 2) u2, Qltb (1 # 2) u3),
     World s rest).
Proof.
  intros [? ?] [? ?] [? ?] [? ?]. unfold rand4_gt_half.
  rewrite (bind_step _ _ _ u0 (World s (DRand u1 :: DRand u2 :: DRand u3 :: rest)))
    by (apply rand_run; assumption).
  rewrite (bind_step _ _ _ u1 (World s (DRand u2 :: DRand u3 :: rest)))
    by (apply rand_run; assumption).
  rewrite (bind_step _ _ _ u2 (World s (DRand u3 :: rest)))
    by (apply rand_run; assumption).
  rewrite (bind_step _ _ _ u3 (World s rest)) by (apply rand_run; assumption).
  reflexivity.
Qed.

Section PartialRun.
Context {A : Type}.
Variables (key : string) (z : nat) (y x : Z) (B : list (plane A)).

Lemma when_write_run b top left (s : gmap string (volume A)) vk t :
  when b (Blur.write_quadrant key z top left y x B)
    (World (<[key := vk]> s) t)
  = (Ok tt, World (<[key := write_if z y x B b top left vk]> s) t).
Proof.
  destruct b; simpl; [|reflexivity].
  unfold Blur.write_quadrant, bind, getitem, setitem. simpl.
  rewrite lookup_insert_eq. simpl. rewrite insert_insert_eq. reflexivity.
Qed.

Lemma write_if_inv b top left v vk :
  write_inv z B v vk →
  write_inv z B v (write_if z y x B b top left vk) ∧
  get_section z (write_if z y x B b top left vk)
  = blend b top left (Z.to_nat y) (Z.to_nat x) (get_section z vk) B.
Proof.
  intros (Hsh & Hlen & Hz & Hother & Hsame).
  destruct b; simpl; [|repeat split; assumption].
  assert (Hnew : length (zip_with
                   (Blur.assign_quadrant top left (Z.to_nat y) (Z.to_nat x))
                   (get_section z vk) B) = length (voxels vk)).
  { rewrite length_zip_with, <- (Forall2_length _ _ _ Hsame), length_get_section.
    lia. }
  assert (Hget := get_set_section_eq z _ vk Hz Hnew).
  split; [|exact Hget].
  split; [exact Hsh|]. split; [rewrite length_set_section; assumption|].
  split; [apply (set_section_chan_lengths z _ vk (λ n, z < n)), Hz|].
  split.
  - intros z' Hne. rewrite get_set_section_ne by (auto || assumption).
    apply Hother, Hne.
  - rewrite Hget. apply (same_shape_blend true), Hsame.
Qed.

End PartialRun.

Lemma wf_section_in_range {A} (v : volume A) z :
  volume_wf v → z < zext v → Forall (λ ch, z < length ch) (voxels v).
Proof.
  intros [_ Hwf] Hz. eapply Forall_impl; [exact Hwf|].
  intros ch [Hlen _]. simpl. lia.
Qed.

(** C5.  In partial mode, and in mix mode when the coin does not ask for
    the whole section, the body of the loop draws a split point
    [0 <= x < xdim], [0 <= y < ydim] and four coins, and returns: the volume
    keeps its shape and its other sections, and in section [z] each pixel
    is taken from the blurred section when the coin of its quadrant
    ([:y,:x], [y:,:x], [:y,x:], [y:,x:]) is true and is left as it was
    otherwise.  With no coin true the volume is unchanged; with all four
    the section is the blurred one. *)
Theorem partial_blur_blends_quadrants :
  ∀ (A : Type) (gaussian_filter : list (plane A) → Q → list (plane A))
    (self : Blur.t) (xdim ydim z : nat) (sigma : Q) (key : string)
    (s : gmap string (volume A)) (v : volume A) (pre : list draw)
    (x y : Z) (u0 u1 u2 u3 : Q) (rest : list draw),
    (∀ img sg, same_shape (gaussian_filter img sg) img) →
    s !! key = Some v → volume_wf v → z < zext v →
    (Blur.mode self ≠ "mix" ∧ pre = [])
    ∨ (Blur.mode self = "mix" ∧
       ∃ c, pre = [DRand c] ∧ (0 <= c)%Q ∧ (c <= 1 # 2)%Q) →
    (0 <= x < Z.of_nat xdim)%Z → (0 <= y < Z.of_nat ydim)%Z →
    unit_draw u0 → unit_draw u1 → unit_draw u2 → unit_draw u3 →
    ∃ v',
      Blur.blur_partial_key gaussian_filter self xdim ydim z sigma key
        (World s (pre ++ DInt x :: DInt y :: DRand u0 :: DRand u1
                      :: DRand u2 :: DRand u3 :: rest))
      = (Ok tt, World (<[key := v']> s) rest) ∧
      shape3 v' = shape3 v ∧
      (∀ z', z' ≠ z → get_section z' v' = get_section z' v) ∧
      (∀ c i j,
         pixel (get_section z v') c i j
         = if quadrant_bit (Qltb (1 # 2) u0, Qltb (1 # 2) u1,
                            Qltb (1 # 2) u2, Qltb (1 # 2) u3)
                           (i <? Z.to_nat y) (j <? Z.to_nat x)
           then pixel (gaussian_filter (get_section z v) sigma) c i j
           else pixel (get_section z v) c i j) ∧
      ((Qltb (1 # 2) u0, Qltb (1 # 2) u1, Qltb (1 # 2) u2, Qltb (1 # 2) u3)
       = (false, false, false, false) → v' = v) ∧
      ((Qltb (1 # 2) u0, Qltb (1 # 2) u1, Qltb (1 # 2) u2, Qltb (1 # 2) u3)
       = (true, true, true, true) →
       get_section z v' = gaussian_filter (get_section z v) sigma).
Proof.
  intros A gf self xdim ydim z sigma key s v pre x y u0 u1 u2 u3 rest
    Hgf Hv Hwf Hz Hmode Hx Hy Hu0 Hu1 Hu2 Hu3.
  set (B := gf (get_section z v) sigma).
  set (r0 := Qltb (1 # 2) u0). set (r1 := Qltb (1 # 2) u1).
  set (r2 := Qltb (1 # 2) u2). set (r3 := Qltb (1 # 2) u3).
  set (v1 := write_if z y x B r0 true true v).
  set (v2 := write_if z y x B r1 false true v1).
  set (v3 := write_if z y x B r2 true false v2).
  set (v4 := write_if z y x B r3 false false v3).
  assert (H0 : write_inv z B v v).
  { split; [reflexivity|]. split; [reflexivity|].
    split; [apply wf_section_in_range; assumption|].
    split; [reflexivity|]. apply Forall2_flip.
    eapply Forall2_impl; [apply (Hgf (get_section z v) sigma)|].
    intros p q Hpq. apply Forall2_flip.
    eapply Forall2_impl; [exact Hpq|]. intros; congruence. }
  destruct (write_if_inv z y x B r0 true true v v H0) as [H1 E1].
  destruct (write_if_inv z y x B r1 false true v _ H1) as [H2 E2].
  destruct (write_if_inv z y x B r2 true false v _ H2) as [H3 E3].
  destruct (write_if_inv z y x B r3 false false v _ H3) as [H4 E4].
  assert (Eblend : get_section z v4
            = blend4 (r0, r1, r2, r3) (Z.to_nat y) (Z.to_nat x) (get_section z v) B).
  { unfold blend4, v4, v3, v2, v1. rewrite E4, E3, E2, E1. reflexivity. }
  assert (Hsame : same_shape (get_section z v) B) by apply H0.
  exists v4. split; [|split; [apply H4|split; [apply H4|split; [|split]]]].
  - unfold Blur.blur_partial_key.
    rewrite (bind_step _ _ _ v
               (World s (pre ++ DInt x :: DInt y :: DRand u0 :: DRand u1
                             :: DRand u2 :: DRand u3 :: rest)))
      by (unfold getitem; simpl; rewrite Hv; reflexivity).
    fold B.
    rewrite (bind_step _ _ _ false
               (World s (DInt x :: DInt y :: DRand u0 :: DRand u1
                         :: DRand u2 :: DRand u3 :: rest))).
    2:{ destruct Hmode as [[Hm ->] | (Hm & c & -> & Hc0 & Hc1)].
        - rewrite bool_decide_eq_false_2 by exact Hm. reflexivity.
        - rewrite bool_decide_eq_true_2 by exact Hm. simpl.
          unfold bind, rand. simpl.
          apply Qle_bool_iff in Hc0. rewrite Hc0.
          assert (Hc : Qltb c 1 = true).
          { apply Qltb_lt. eapply Qle_lt_trans; [exact Hc1|]. reflexivity. }
          rewrite Hc. simpl. unfold ret, Qltb.
          apply Qle_bool_iff in Hc1. rewrite Hc1. reflexivity. }
    rewrite (bind_step _ _ _ x
               (World s (DInt y :: DRand u0 :: DRand u1 :: DRand u2
                         :: DRand u3 :: rest)))
      by (apply randint_run; lia).
    rewrite (bind_step _ _ _ y
               (World s (DRand u0 :: DRand u1 :: DRand u2 :: DRand u3 :: rest)))
      by (apply randint_run; lia).
    rewrite (bind_step _ _ _ (r0, r1, r2, r3) (World s rest))
      by (apply rand4_run; assumption).
    replace (World s rest) with (World (<[key := v]> s) rest)
      by (rewrite (insert_id s key v Hv); reflexivity).
    rewrite (bind_step _ _ _ tt (World (<[key := v1]> s) rest))
      by apply when_write_run.
    rewrite (bind_step _ _ _ tt (World (<[key := v2]> s) rest))
      by apply when_write_run.
    rewrite (bind_step _ _ _ tt (World (<[key := v3]> s) rest))
      by apply when_write_run.
    apply when_write_run.
  - intros c i j. rewrite Eblend. apply pixel_blend4, Hsame.
  - intros [= E0' E1' E2' E3']. unfold v4, v3, v2, v1.
    rewrite E0', E1', E2', E3'. reflexivity.
  - intros [= E0' E1' E2' E3']. rewrite Eblend.
    apply same_shape_pixel_ext; [apply same_shape_blend4, Hsame|].
    intros c i j. rewrite pixel_blend4 by exact Hsame.
    rewrite E0', E1', E2', E3'. unfold quadrant_bit.
    destruct (i <? Z.to_nat y), (j <? Z.to_nat x); reflexivity.
Qed.

Lemma demo_volume_wf : volume_wf demo_volume.
Proof. split; [reflexivity|]. repeat constructor. Qed.

Lemma unit_draw_decide u :
  Qle_bool 0 u && Qltb u 1 = true → unit_draw u.
Proof.
  intros H. apply andb_true_iff in H as [H0 H1].
  split; [apply Qle_bool_iff, H0|apply Qltb_lt, H1].
Qed.

Lemma partial_blur_blends_quadrants_witness :
  volume_wf demo_volume ∧
  ∃ v',
    Blur.blur_partial_key box_filter (Blur.Make 1 5 "partial" (3 # 10) (Some false))
      2 2 1 (5 # 2) "input"
      (World {[ "input" := demo_volume ]}
             ([] ++ DInt 1 :: DInt 1 :: DRand (3 # 4) :: DRand 0 :: DRand 0
                 :: DRand (3 # 4) :: [DRand (1 # 3)]))
    = (Ok tt, World (<["input" := v']> {[ "input" := demo_volume ]}) [DRand (1 # 3)]) ∧
    shape3 v' = shape3 demo_volume ∧
    pixel (get_section 1 v') 0 0 0
    = pixel (box_filter (get_section 1 demo_volume) (5 # 2)) 0 0 0 ∧
    pixel (get_section 1 v') 0 0 1 = pixel (get_section 1 demo_volume) 0 0 1.
Proof.
  split; [exact demo_volume_wf|].
  assert (Hz : 1 < zext demo_volume) by (simpl; lia).
  assert (Hmode : (Blur.mode (Blur.Make 1 5 "partial" (3 # 10) (Some false)) ≠ "mix"
                   ∧ @nil draw = [])
                  ∨ (Blur.mode (Blur.Make 1 5 "partial" (3 # 10) (Some false)) = "mix"
                     ∧ ∃ c, @nil draw = [DRand c] ∧ (0 <= c)%Q ∧ (c <= 1 # 2)%Q)).
  { left. split; [discriminate|reflexivity]. }
  assert (Hx : (0 <= 1 < Z.of_nat 2)%Z) by lia.
  destruct (partial_blur_blends_quadrants Q box_filter
              (Blur.Make 1 5 "partial" (3 # 10) (Some false)) 2 2 1 (5 # 2)%Q
              "input" {[ "input" := demo_volume ]} demo_volume
              [] 1%Z 1%Z (3 # 4)%Q 0%Q 0%Q (3 # 4)%Q [DRand (1 # 3)]
              box_filter_same_shape (lookup_singleton_eq "input" demo_volume)
              demo_volume_wf Hz Hmode Hx Hx
              (unit_draw_decide (3 # 4) eq_refl) (unit_draw_decide 0 eq_refl)
              (unit_draw_decide 0 eq_refl) (unit_draw_decide (3 # 4) eq_refl))
    as (v' & Hrun & Hshape & _ & Hpix & _ & _).
  exists v'. split; [exact Hrun|]. split; [exact Hshape|].
  split; [exact (Hpix 0 0 0)|exact (Hpix 0 0 1)].
Defined.

(** ** LongAff: contrast, brightness, clip, gamma (C4) *)

Lemma clip01_range a : in01 (LongAff.clip01 a).
Proof.
  unfold in01, LongAff.clip01, Rmin, Rmax.
  repeat destruct (Rle_dec _ _); lra.
Qed.

Lemma np_power_range a g : in01 a → (0 < g)%R → in01 (LongAff.np_power a g).
Proof.
  intros [Ha0 Ha1] Hg. unfold in01, LongAff.np_power.
  destruct (Rlt_dec 0 a) as [Hpos|_]; [|lra].
  unfold Rpower. split; [left; apply exp_pos|].
  assert (Hln : (ln a <= 0)%R).
  { destruct (Rle_lt_or_eq_dec _ _ Ha1) as [Hlt | ->].
    - left. rewrite <- ln_1. apply ln_increasing; assumption.
    - rewrite ln_1. lra. }
  assert (Hprod : (g * ln a <= 0)%R) by nra.
  destruct (Rle_lt_or_eq_dec _ _ Hprod) as [Hlt | Heq].
  - left. rewrite <- exp_0. apply exp_increasing, Hlt.
  - rewrite Heq, exp_0. lra.
Qed.

Lemma gamma_exponent_pos u : (0 < LongAff.gamma_exponent u)%R.
Proof. unfold LongAff.gamma_exponent, Rpower. apply exp_pos. Qed.

Lemma np_power_0 g : LongAff.np_power 0 g = 0%R.
Proof.
  unfold LongAff.np_power. destruct (Rlt_dec 0 0) as [H|_]; [lra|reflexivity].
Qed.

Lemma np_power_1 g : LongAff.np_power 1 g = 1%R.
Proof.
  unfold LongAff.np_power. destruct (Rlt_dec 0 1) as [_|H]; [|lra].
  unfold Rpower. rewrite ln_1, Rmult_0_r. apply exp_0.
Qed.

Lemma clip01_low a : (a <= 0)%R → LongAff.clip01 a = 0%R.
Proof.
  intros H. unfold LongAff.clip01, Rmin, Rmax.
  repeat destruct (Rle_dec _ _); lra.
Qed.

Lemma clip01_high a : (1 <= a)%R → LongAff.clip01 a = 1%R.
Proof.
  intros H. unfold LongAff.clip01, Rmin, Rmax.
  repeat destruct (Rle_dec _ _); lra.
Qed.

Lemma clip01_mid a : (0 <= a <= 1)%R → LongAff.clip01 a = a.
Proof.
  intros H. unfold LongAff.clip01, Rmin, Rmax.
  repeat destruct (Rle_dec _ _); lra.
Qed.

Lemma fpow_finite a g :
  (0 <= a)%R → LongAff.fpow (Finite a) g = Finite (LongAff.np_power a g).
Proof.
  intros H. unfold LongAff.fpow. destruct (Rle_dec 0 a); [reflexivity|lra].
Qed.

(** The four operations of the source, one after the other, are
    [greyscale]. *)
Lemma steps_greyscale c b g p :
  LongAff.fpow (LongAff.fclip (LongAff.fadd (LongAff.fmul p c) b)) g
  = greyscale c b g p.
Proof.
  destruct p as [a| | |]; cbn [LongAff.fmul greyscale].
  - cbn [LongAff.fadd LongAff.fclip].
    rewrite fpow_finite by apply clip01_range.
    destruct (Rle_dec (a * c + b) 0) as [Hlow|Hlow].
    { rewrite clip01_low by exact Hlow. rewrite np_power_0. reflexivity. }
    destruct (Rle_dec 1 (a * c + b)) as [Hhigh|Hhigh].
    { rewrite clip01_high by exact Hhigh. rewrite np_power_1. reflexivity. }
    rewrite clip01_mid by lra. unfold LongAff.np_power.
    destruct (Rlt_dec 0 (a * c + b)); [reflexivity|lra].
  - destruct (Rlt_dec 0 c); [|destruct (Rlt_dec c 0)];
      cbn [LongAff.fadd LongAff.fclip];
      rewrite ?fpow_finite by lra; rewrite ?np_power_0, ?np_power_1;
      reflexivity.
  - destruct (Rlt_dec 0 c); [|destruct (Rlt_dec c 0)];
      cbn [LongAff.fadd LongAff.fclip];
      rewrite ?fpow_finite by lra; rewrite ?np_power_0, ?np_power_1;
      reflexivity.
  - reflexivity.
Qed.

(** On a finite value [greyscale] is [perturb]. *)
Lemma greyscale_finite c b g a :
  greyscale c b g (Finite a) = Finite (perturb c b g a).
Proof.
  rewrite <- steps_greyscale. cbn [LongAff.fmul LongAff.fadd LongAff.fclip].
  rewrite fpow_finite by apply clip01_range. reflexivity.
Qed.

Lemma greyscale_keeps_range c b g :
  (0 < c)%R → (0 < g)%R → keeps_range (greyscale c b g).
Proof.
  intros Hc Hg [a| | |]; cbn [ranged greyscale].
  - destruct (Rle_dec (a * c + b) 0) as [Hlow|Hlow].
    { exists 0%R. split; [reflexivity|]. unfold in01. lra. }
    destruct (Rle_dec 1 (a * c + b)) as [Hhigh|Hhigh].
    { exists 1%R. split; [reflexivity|]. unfold in01. lra. }
    eexists. split; [reflexivity|].
    assert (Hr : in01 (LongAff.np_power (a * c + b) g)).
    { apply np_power_range; [unfold in01; lra|exact Hg]. }
    unfold LongAff.np_power in Hr.
    destruct (Rlt_dec 0 (a * c + b)); [exact Hr|lra].
  - destruct (Rlt_dec 0 c); [|lra].
    exists 1%R. split; [reflexivity|]. unfold in01. lra.
  - destruct (Rlt_dec 0 c); [|lra].
    exists 0%R. split; [reflexivity|]. unfold in01. lra.
  - reflexivity.
Qed.

Lemma keeps_range_compose f g :
  keeps_range f → keeps_range g → keeps_range (λ p, g (f p)).
Proof.
  intros Hf Hg p. specialize (Hf p).
  destruct p as [a| | |]; cbn [ranged] in *.
  - destruct Hf as (a' & -> & Ha). exact (Hg (Finite a')).
  - destruct Hf as (a' & -> & Ha). exact (Hg (Finite a')).
  - destruct Hf as (a' & -> & Ha). exact (Hg (Finite a')).
  - rewrite Hf. exact (Hg NaN).
Qed.

Lemma contrast_scale_pos self u :
  LongAff.CONTRAST_FACTOR self = (3 / 10)%R → unit_draw u →
  (0 < LongAff.contrast_scale self u)%R.
Proof.
  intros Hc [H0 H1]. pose proof (Q2R_unit_interval u H0 H1) as Hq.
  unfold LongAff.contrast_scale. rewrite Hc. lra.
Qed.

Lemma plane_map_compose {A} (f g : A → A) (p : plane A) :
  plane_map f (plane_map g p) = plane_map (λ a, f (g a)) p.
Proof.
  unfold plane_map. rewrite <- list_fmap_compose.
  apply list_fmap_ext. intros i row _. simpl.
  rewrite <- list_fmap_compose. reflexivity.
Qed.

Lemma section_map_compose (f g : npfloat → npfloat) (s : list (plane npfloat)) :
  LongAff.section_map f (LongAff.section_map g s)
  = LongAff.section_map (λ a, f (g a)) s.
Proof.
  unfold LongAff.section_map. rewrite <- list_fmap_compose.
  apply list_fmap_ext. intros i p _. simpl. apply plane_map_compose.
Qed.

Lemma volume_map_compose {A} (f g : A → A) (v : volume A) :
  volume_map f (volume_map g v) = volume_map (λ a, f (g a)) v.
Proof.
  unfold volume_map. simpl. f_equal.
  rewrite <- list_fmap_compose.
  apply list_fmap_ext. intros c ch _. simpl.
  rewrite <- list_fmap_compose.
  apply list_fmap_ext. intros z p _. simpl. apply plane_map_compose.
Qed.

Lemma plane_map_ext {A} (f g : A → A) (p : plane A) :
  (∀ a, f a = g a) → plane_map f p = plane_map g p.
Proof.
  intros H. unfold plane_map. apply list_fmap_ext. intros i row _.
  apply list_fmap_ext. intros j a _. apply H.
Qed.

Lemma section_map_ext (f g : npfloat → npfloat) (s : list (plane npfloat)) :
  (∀ a, f a = g a) → LongAff.section_map f s = LongAff.section_map g s.
Proof.
  intros H. unfold LongAff.section_map. apply list_fmap_ext. intros i p _.
  apply plane_map_ext, H.
Qed.

Lemma volume_map_ext {A} (f g : A → A) (v : volume A) :
  (∀ a, f a = g a) → volume_map f v = volume_map g v.
Proof.
  intros H. unfold volume_map. f_equal.
  apply list_fmap_ext. intros c ch _.
  apply list_fmap_ext. intros z p _. apply plane_map_ext, H.
Qed.

Lemma length_section_map f (s : list (plane npfloat)) :
  length (LongAff.section_map f s) = length s.
Proof. unfold LongAff.section_map. apply length_fmap. Qed.

Lemma get_section_volume_map (f : npfloat → npfloat) z (v : volume npfloat) :
  get_section z (volume_map f v) = LongAff.section_map f (get_section z v).
Proof.
  unfold get_section, volume_map, LongAff.section_map. cbn [voxels].
  rewrite <- !list_fmap_compose. apply list_fmap_ext. intros c ch _.
  cbn [compose]. rewrite !list_lookup_total_alt, list_lookup_fmap.
  destruct (ch !! z); reflexivity.
Qed.

Lemma pixel_section_map f (s : list (plane npfloat)) c i j :
  pixel (LongAff.section_map f s) c i j = f <$> pixel s c i j.
Proof.
  unfold pixel, LongAff.section_map, plane_map.
  rewrite list_lookup_fmap. destruct (s !! c) as [p|]; [|reflexivity].
  cbn [fmap option_fmap option_map]. rewrite list_lookup_fmap.
  destruct (p !! i) as [row|]; [|reflexivity].
  cbn [fmap option_fmap option_map]. apply list_lookup_fmap.
Qed.

Lemma ranged_volume_pixels v v' :
  ranged_volume v v' →
  ∀ z c i j, z < zext v →
    pixel_ranged (pixel (get_section z v) c i j) (pixel (get_section z v') c i j).
Proof.
  intros [_ H] z c i j Hz. destruct (H z Hz) as (f & Hf & ->).
  rewrite pixel_section_map. destruct (pixel (get_section z v) c i j) as [p|].
  - exact (Hf p).
  - exact I.
Qed.

Lemma ranged_volume_trans v1 v2 v3 :
  ranged_volume v1 v2 → ranged_volume v2 v3 → ranged_volume v1 v3.
Proof.
  intros [Hs12 H12] [Hs23 H23]. split; [congruence|].
  intros z Hz. destruct (H12 z Hz) as (f & Hf & E12).
  assert (Hz2 : z < zext v2).
  { unfold shape3 in Hs12. injection Hs12 as -> _ _. exact Hz. }
  destruct (H23 z Hz2) as (g & Hg & E23).
  exists (λ p, g (f p)). split; [apply keeps_range_compose; assumption|].
  rewrite E23, E12. apply section_map_compose.
Qed.

Lemma getitem_Ok {A} key (w w' : world A) v :
  getitem key w = (Ok v, w') → store w !! key = Some v ∧ w' = w.
Proof.
  unfold getitem. destruct (store w !! key); intros [= <- <-]; auto.
Qed.

Lemma inplace_section_Ok key z f (w w' : world npfloat) :
  LongAff.inplace_section key z f w = (Ok tt, w') →
  ∃ v, store w !! key = Some v ∧
       w' = World (<[key := set_section z (LongAff.section_map f (get_section z v)) v]>
                     (store w)) (tape w).
Proof.
  unfold LongAff.inplace_section. intros H.
  apply bind_Ok in H as (v & w1 & Hg & H). apply getitem_Ok in Hg as [Hv ->].
  unfold setitem in H. injection H as <-. eauto.
Qed.

Lemma slice_compose z (v : volume npfloat) f1 f2 f3 f4 :
  Forall (λ ch, z < length ch) (voxels v) →
  set_section z
    (LongAff.section_map f4 (LongAff.section_map f3
       (get_section z
          (set_section z
             (LongAff.section_map f2
                (get_section z
                   (set_section z (LongAff.section_map f1 (get_section z v)) v)))
             (set_section z (LongAff.section_map f1 (get_section z v)) v)))))
    (set_section z
       (LongAff.section_map f2
          (get_section z
             (set_section z (LongAff.section_map f1 (get_section z v)) v)))
       (set_section z (LongAff.section_map f1 (get_section z v)) v))
  = set_section z
      (LongAff.section_map (λ a, f4 (f3 (f2 (f1 a)))) (get_section z v)) v.
Proof.
  intros Hz.
  assert (Hlen : ∀ f, length (LongAff.section_map f (get_section z v))
                      = length (voxels v)).
  { intros f. rewrite length_section_map. apply length_get_section. }
  rewrite (get_set_section_eq z _ v Hz (Hlen f1)).
  rewrite (set_set_section z _ _ v (Hlen f1)).
  assert (Hlen2 : length (LongAff.section_map f2
                            (LongAff.section_map f1 (get_section z v)))
                  = length (voxels v)).
  { rewrite length_section_map. apply Hlen. }
  rewrite (get_set_section_eq z _ v Hz Hlen2).
  rewrite (set_set_section z _ _ v Hlen2).
  rewrite !section_map_compose. reflexivity.
Qed.

Lemma augment2D_slice_Ok self key z (w w' : world npfloat) v :
  LongAff.augment2D_slice self key z w = (Ok tt, w') →
  store w !! key = Some v →
  Forall (λ ch, z < length ch) (voxels v) →
  ∃ u1 u2 u3,
    unit_draw u1 ∧
    store w'
    = <[key := set_section z
                 (LongAff.section_map
                    (greyscale (LongAff.contrast_scale self u1)
                               (LongAff.brightness_shift self u2)
                               (LongAff.gamma_exponent u3))
                    (get_section z v)) v]> (store w).
Proof.
  unfold LongAff.augment2D_slice. intros H Hv Hz.
  apply bind_Ok in H as (v00 & w0 & Hg & H). apply getitem_Ok in Hg as [_ ->].
  apply bind_Ok in H as (u1 & w1 & Hr & H).
  apply rand_Ok in Hr as (Hu0 & Hu1 & _ & Hs1).
  apply bind_Ok in H as ([] & w2 & Hi & H).
  apply inplace_section_Ok in Hi as (v0 & Hv0 & ->).
  rewrite Hs1, Hv in Hv0. injection Hv0 as <-.
  apply bind_Ok in H as (u2 & w3 & Hr & H).
  apply rand_Ok in Hr as (_ & _ & _ & Hs3). simpl in Hs3.
  apply bind_Ok in H as ([] & w4 & Hi & H).
  apply inplace_section_Ok in Hi as (v1 & Hv1 & ->).
  rewrite Hs3, lookup_insert_eq in Hv1. injection Hv1 as <-.
  apply bind_Ok in H as (v2 & w5 & Hg & H).
  apply getitem_Ok in Hg as [Hv2 ->]. simpl in Hv2.
  rewrite lookup_insert_eq in Hv2. injection Hv2 as <-.
  apply bind_Ok in H as (u3 & w6 & Hr & H).
  apply rand_Ok in Hr as (_ & _ & _ & Hs6). simpl in Hs6.
  apply bind_Ok in H as (v3 & w7 & Hg & H).
  apply getitem_Ok in Hg as [Hv3 ->].
  rewrite Hs6, lookup_insert_eq in Hv3. injection Hv3 as <-.
  unfold setitem in H. injection H as <-. simpl.
  exists u1, u2, u3. split; [split; assumption|].
  rewrite Hs6, Hs3, Hs1, !insert_insert_eq.
  rewrite (slice_compose z v _ _ _ _ Hz). f_equal. f_equal.
  apply section_map_ext. intros p. apply steps_greyscale.
Qed.

Lemma augment3D_key_Ok self key (w w' : world npfloat) :
  LongAff.augment3D_key self key w = (Ok tt, w') →
  ∃ v u1 u2 u3,
    unit_draw u1 ∧
    store w !! key = Some v ∧
    store w'
    = <[key := volume_map
                 (greyscale (LongAff.contrast_scale self u1)
                            (LongAff.brightness_shift self u2)
                            (LongAff.gamma_exponent u3)) v]> (store w).
Proof.
  unfold LongAff.augment3D_key. intros H.
  apply bind_Ok in H as (v & w1 & Hg & H). apply getitem_Ok in Hg as [Hv ->].
  apply bind_Ok in H as (u1 & w2 & Hr & H).
  apply rand_Ok in Hr as (Hu0 & Hu1 & _ & Hs2).
  apply bind_Ok in H as ([] & w3 & Hset & H).
  unfold setitem in Hset. injection Hset as <-.
  apply bind_Ok in H as (v1 & w4 & Hg & H).
  apply getitem_Ok in Hg as [Hv1 ->]. simpl in Hv1.
  rewrite lookup_insert_eq in Hv1. injection Hv1 as <-.
  apply bind_Ok in H as (u2 & w5 & Hr & H).
  apply rand_Ok in Hr as (_ & _ & _ & Hs5). simpl in Hs5.
  apply bind_Ok in H as ([] & w6 & Hset & H).
  unfold setitem in Hset. injection Hset as <-.
  apply bind_Ok in H as (v2 & w7 & Hg & H).
  apply getitem_Ok in Hg as [Hv2 ->]. simpl in Hv2.
  rewrite lookup_insert_eq in Hv2. injection Hv2 as <-.
  apply bind_Ok in H as ([] & w8 & Hset & H).
  unfold setitem in Hset. injection Hset as <-.
  apply bind_Ok in H as (v3 & w9 & Hg & H).
  apply getitem_Ok in Hg as [Hv3 ->]. simpl in Hv3.
  rewrite lookup_insert_eq in Hv3. injection Hv3 as <-.
  apply bind_Ok in H as (u3 & w10 & Hr & H).
  apply rand_Ok in Hr as (_ & _ & _ & Hs10). simpl in Hs10.
  unfold setitem in H. injection H as <-. simpl.
  exists v, u1, u2, u3. split; [split; assumption|]. split; [exact Hv|].
  rewrite Hs10, Hs5, Hs2, !insert_insert_eq, !volume_map_compose.
  f_equal. apply volume_map_ext. intros p. apply steps_greyscale.
Qed.

Lemma rand_draw {A} (s : gmap string (volume A)) u t :
  unit_draw u → rand (World s (DRand u :: t)) = (Ok u, World s t).
Proof. intros [H0 H1]. apply rand_run; assumption. Qed.

Lemma getitem_run {A} key (s : gmap string (volume A)) v t :
  s !! key = Some v → getitem key (World s t) = (Ok v, World s t).
Proof. intros H. unfold getitem. simpl. rewrite H. reflexivity. Qed.

Lemma inplace_section_run key z f (s : gmap string (volume npfloat)) v t :
  s !! key = Some v →
  LongAff.inplace_section key z f (World s t)
  = (Ok tt,
     World (<[key := set_section z (LongAff.section_map f (get_section z v)) v]> s) t).
Proof.
  intros H. unfold LongAff.inplace_section.
  rewrite (bind_step _ _ _ v (World s t)) by (apply getitem_run, H).
  reflexivity.
Qed.

Ltac run_getitem H :=
  erewrite bind_step
    by (apply getitem_run; first [exact H | apply lookup_insert_eq]).
Ltac run_rand := erewrite bind_step by (apply rand_draw; assumption).
Ltac run_setitem := erewrite bind_step by reflexivity.
Ltac run_inplace H :=
  erewrite bind_step
    by (apply inplace_section_run; first [exact H | apply lookup_insert_eq]).

Lemma augment3D_key_run self key (s : gmap string (volume npfloat)) v u1 u2 u3 rest :
  s !! key = Some v → unit_draw u1 → unit_draw u2 → unit_draw u3 →
  LongAff.augment3D_key self key
    (World s (DRand u1 :: DRand u2 :: DRand u3 :: rest))
  = (Ok tt,
     World (<[key := volume_map
                       (greyscale (LongAff.contrast_scale self u1)
                                  (LongAff.brightness_shift self u2)
                                  (LongAff.gamma_exponent u3)) v]> s) rest).
Proof.
  intros Hv H1 H2 H3. unfold LongAff.augment3D_key.
  run_getitem Hv. run_rand. run_setitem. cbn [store tape].
  run_getitem Hv. run_rand. run_setitem. cbn [store tape].
  run_getitem Hv. run_setitem. cbn [store tape].
  run_getitem Hv. run_rand.
  unfold setitem. cbn [store tape].
  rewrite !insert_insert_eq, !volume_map_compose.
  f_equal. f_equal. f_equal. apply volume_map_ext. intros p. apply steps_greyscale.
Qed.

Lemma augment2D_slice_run self key z (s : gmap string (volume npfloat)) v u1 u2 u3 rest :
  s !! key = Some v → Forall (λ ch, z < length ch) (voxels v) →
  unit_draw u1 → unit_draw u2 → unit_draw u3 →
  LongAff.augment2D_slice self key z
    (World s (DRand u1 :: DRand u2 :: DRand u3 :: rest))
  = (Ok tt,
     World (<[key := set_section z
                       (LongAff.section_map
                          (greyscale (LongAff.contrast_scale self u1)
                                     (LongAff.brightness_shift self u2)
                                     (LongAff.gamma_exponent u3))
                          (get_section z v)) v]> s) rest).
Proof.
  intros Hv Hz H1 H2 H3. unfold LongAff.augment2D_slice.
  run_getitem Hv. run_rand. run_inplace Hv. run_rand. run_inplace Hv.
  run_getitem Hv. run_rand. run_getitem Hv.
  unfold setitem. cbn [store tape].
  rewrite !insert_insert_eq. rewrite (slice_compose z v _ _ _ _ Hz).
  f_equal. f_equal. f_equal. f_equal.
  apply section_map_ext. intros p. apply steps_greyscale.
Qed.

(** A loop over keys whose body leaves the volume of its key ranged, and
    the other keys alone. *)
Lemma for_keys_ranged (body : string → M npfloat unit)
    (Inv : gmap string (volume npfloat) → Prop) :
  (∀ key w w', Inv (store w) → body key w = (Ok tt, w') →
     Inv (store w') ∧
     (∃ v v', store w !! key = Some v ∧ store w' !! key = Some v'
              ∧ ranged_volume v v') ∧
     ∀ k, k ≠ key → store w' !! k = store w !! k) →
  ∀ imgs w w', Inv (store w) → for_ imgs body w = (Ok tt, w') →
    Inv (store w') ∧
    (∀ key, key ∉ imgs → store w' !! key = store w !! key) ∧
    ∀ key, key ∈ imgs →
      ∃ v v', store w !! key = Some v ∧ store w' !! key = Some v'
              ∧ ranged_volume v v'.
Proof.
  intros Hbody. induction imgs as [|k imgs IH]; intros w w' Hinv H; simpl in H.
  - injection H as <-. split; [exact Hinv|]. split; [reflexivity|].
    intros key Hin. inversion Hin.
  - apply bind_Ok in H as ([] & w1 & Hk & H).
    destruct (Hbody k w w1 Hinv Hk) as (Hinv1 & (vk & vk1 & Hvk & Hvk1 & Hr1) & Hother).
    destruct (IH w1 w' Hinv1 H) as (Hinv' & Hout & Hall).
    split; [exact Hinv'|]. split.
    + intros key Hkey. rewrite Hout, Hother.
      * reflexivity.
      * intros ->. apply Hkey, elem_of_cons. left. reflexivity.
      * intros Hin. apply Hkey, elem_of_cons. right. exact Hin.
    + intros key Hkey. destruct (decide (key = k)) as [-> | Hne].
      * destruct (decide (k ∈ imgs)) as [Hin | Hnin].
        -- destruct (Hall k Hin) as (v1 & v' & Hv1 & Hv' & Hr).
           rewrite Hvk1 in Hv1. injection Hv1 as <-.
           exists vk, v'. split; [exact Hvk|]. split; [exact Hv'|].
           eapply ranged_volume_trans; eassumption.
        -- exists vk, vk1. split; [exact Hvk|].
           split; [rewrite (Hout k Hnin); exact Hvk1|exact Hr1].
      * apply elem_of_cons in Hkey as [-> | Hin]; [congruence|].
        destruct (Hall key Hin) as (v1 & v' & Hv1 & Hv' & Hr).
        exists v1, v'. rewrite <- (Hother key Hne). auto.
Qed.

Lemma augment3D_key_ranged self key (w w' : world npfloat) :
  LongAff.CONTRAST_FACTOR self = (3 / 10)%R →
  LongAff.augment3D_key self key w = (Ok tt, w') →
  (∃ v v', store w !! key = Some v ∧ store w' !! key = Some v'
           ∧ ranged_volume v v') ∧
  ∀ k, k ≠ key → store w' !! k = store w !! k.
Proof.
  intros Hc H. apply augment3D_key_Ok in H as (v & u1 & u2 & u3 & Hu1 & Hv & ->).
  split.
  - eexists v, _. split; [exact Hv|]. split; [apply lookup_insert_eq|].
    split; [reflexivity|]. intros z _. eexists. split; [|apply get_section_volume_map].
    apply greyscale_keeps_range;
      [apply contrast_scale_pos; assumption|apply gamma_exponent_pos].
  - intros k Hne. apply lookup_insert_ne. congruence.
Qed.

Lemma slices_loop_ranged self key Z zl :
  LongAff.CONTRAST_FACTOR self = (3 / 10)%R →
  ∀ (w w' : world npfloat) v0,
    for_ zl (LongAff.augment2D_slice self key) w = (Ok tt, w') →
    store w !! key = Some v0 → zext v0 = Z →
    Forall (λ ch, length ch = Z) (voxels v0) →
    (∀ z, z ∈ zl → z < Z) →
    ∃ v', store w' !! key = Some v' ∧ shape3 v' = shape3 v0 ∧
          Forall (λ ch, length ch = Z) (voxels v') ∧
          (∀ k, k ≠ key → store w' !! k = store w !! k) ∧
          (∀ z, z ∉ zl → get_section z v' = get_section z v0) ∧
          (∀ z, z ∈ zl →
             ∃ f, keeps_range f ∧
                  get_section z v' = LongAff.section_map f (get_section z v0)).
Proof.
  intros Hc.
  induction zl as [|z zl IH]; intros w w' v0 H Hv HZ Hlen Hzl; simpl in H.
  - injection H as <-. exists v0. repeat split; try assumption.
    intros z Hin. inversion Hin.
  - apply bind_Ok in H as ([] & w1 & Hs & H).
    assert (Hz : z < Z) by (apply Hzl, elem_of_cons; left; reflexivity).
    assert (Hzch : Forall (λ ch, z < length ch) (voxels v0)).
    { eapply Forall_impl; [exact Hlen|]. intros ch Hch. simpl in Hch. lia. }
    destruct (augment2D_slice_Ok self key z w w1 v0 Hs Hv Hzch)
      as (u1 & u2 & u3 & Hu1 & Hs1).
    set (F := greyscale (LongAff.contrast_scale self u1)
                (LongAff.brightness_shift self u2)
                (LongAff.gamma_exponent u3)) in *.
    assert (HF : keeps_range F).
    { apply greyscale_keeps_range;
        [apply contrast_scale_pos; assumption|apply gamma_exponent_pos]. }
    set (v1 := set_section z (LongAff.section_map F (get_section z v0)) v0) in *.
    assert (Hlen1 : length (LongAff.section_map F (get_section z v0))
                    = length (voxels v0)).
    { rewrite length_section_map. apply length_get_section. }
    assert (Hz1 : get_section z v1 = LongAff.section_map F (get_section z v0)).
    { apply (get_set_section_eq z _ v0 Hzch Hlen1). }
    assert (Hne1 : ∀ z0, z0 ≠ z → get_section z0 v1 = get_section z0 v0).
    { intros z0 Hne. unfold v1.
      apply get_set_section_ne; [congruence|exact Hlen1]. }
    destruct (IH w1 w' v1 H) as (v' & Hv' & Hsh' & Hlen' & Hother & Hout & Hin).
    + rewrite Hs1. apply lookup_insert_eq.
    + exact HZ.
    + apply (set_section_chan_lengths z _ v0 (λ n, n = Z)), Hlen.
    + intros z0 Hz0. apply Hzl, elem_of_cons. right. exact Hz0.
    + exists v'. split; [exact Hv'|]. split; [exact Hsh'|].
      split; [exact Hlen'|]. split; [|split].
      * intros k Hne. rewrite (Hother k Hne), Hs1.
        apply lookup_insert_ne. congruence.
      * intros z0 Hz0. rewrite Hout.
        -- apply Hne1. intros ->. apply Hz0, elem_of_cons. left. reflexivity.
        -- intros Hi. apply Hz0, elem_of_cons. right. exact Hi.
      * intros z0 Hz0. destruct (decide (z0 = z)) as [-> | Hne].
        -- destruct (decide (z ∈ zl)) as [Hi | Hni].
           ++ destruct (Hin z Hi) as (f & Hf & E).
              exists (λ p, f (F p)). split; [apply keeps_range_compose; assumption|].
              rewrite E, Hz1. apply section_map_compose.
           ++ exists F. split; [exact HF|]. rewrite (Hout z Hni). exact Hz1.
        -- apply elem_of_cons in Hz0 as [-> | Hi]; [congruence|].
           destruct (Hin z0 Hi) as (f & Hf & E).
           exists f. split; [exact Hf|]. rewrite E, (Hne1 z0 Hne). reflexivity.
Qed.

Lemma augment2D_key_ranged self key (w w' : world npfloat) :
  LongAff.CONTRAST_FACTOR self = (3 / 10)%R →
  sections_agree (store w) →
  bind (getitem key)
       (λ v, for_ (seq 0 (zext v)) (LongAff.augment2D_slice self key)) w
  = (Ok tt, w') →
  sections_agree (store w') ∧
  (∃ v v', store w !! key = Some v ∧ store w' !! key = Some v'
           ∧ ranged_volume v v') ∧
  ∀ k, k ≠ key → store w' !! k = store w !! k.
Proof.
  intros Hc Hagree H.
  apply bind_Ok in H as (v & w1 & Hg & H). apply getitem_Ok in Hg as [Hv ->].
  destruct (slices_loop_ranged self key (zext v) (seq 0 (zext v)) Hc w w' v H Hv
              eq_refl (Hagree key v Hv))
    as (v' & Hv' & Hsh' & Hlen' & Hother & _ & Hsec).
  { intros z Hz. apply elem_of_seq in Hz. lia. }
  split; [|split; [|exact Hother]].
  - intros k vk Hk. destruct (decide (k = key)) as [-> | Hne].
    + rewrite Hv' in Hk. injection Hk as <-.
      unfold shape3 in Hsh'. injection Hsh' as -> _ _. exact Hlen'.
    + rewrite (Hother k Hne) in Hk. apply (Hagree k vk Hk).
  - exists v, v'. split; [exact Hv|]. split; [exact Hv'|].
    split; [exact Hsh'|]. intros z Hz. apply Hsec, elem_of_seq. lia.
Qed.

(** The mode that [__call__] works with is the object of one of the two
    literals whenever [self.mode] is one of them or has the characters of
    ['mix']. *)
Lemma call_mode_Ok (self : LongAff.t) (w w1 : world npfloat) m :
  LongAff.mode self = lit "2D" ∨ LongAff.mode self = lit "3D"
  ∨ chars (LongAff.mode self) = "mix" →
  (if str_eq (LongAff.mode self) "mix"
   then u ←' rand; ret (if Qltb (1 # 2) u then lit "3D" else lit "2D")
   else ret (LongAff.mode self)) w = (Ok m, w1) →
  store w1 = store w ∧ (m = lit "2D" ∨ m = lit "3D").
Proof.
  intros Hmode H. unfold str_eq in H.
  destruct (bool_decide (chars (LongAff.mode self) = "mix")) eqn:E.
  - apply bind_Ok in H as (u & w2 & Hr & H).
    apply rand_Ok in Hr as (_ & _ & _ & Hs). injection H as <- <-.
    split; [exact Hs|]. destruct (Qltb (1 # 2) u); auto.
  - injection H as <- <-. split; [reflexivity|].
    apply bool_decide_eq_false in E. destruct Hmode as [? | [? | ?]]; tauto.
Qed.

(** C4, as stated, fails twice.  A value that is NaN stays NaN through the
    four operations, so it is not within [0, 1] after the call.  And a mode
    string with the characters of ['2D'] that is not the object of the
    literal passes [__init__], which compares with [==], and then meets
    neither [mode is '2D'] nor [mode is '3D']: the call, although not
    skipped, draws nothing and returns the sample as it was, here with the
    value 2. *)
Lemma greyscale_range_fails :
  LongAff.__call__ (LongAff.Make (lit "3D") (3 # 10) (3 / 10) (3 / 10) (Some false))
    (Kwargs (Some ["input"]) None)
    (World {[ "input" := full 1 1 1 1 NaN ]}
           [DRand (1 # 2); DRand (1 # 2); DRand (1 # 2)])
  = (Ok tt, World {[ "input" := full 1 1 1 1 NaN ]} [])
  ∧
  LongAff.__init__ (PyStr "2D" false) (3 # 10)
  = Ok (LongAff.Make (PyStr "2D" false) (3 # 10) (3 / 10) (3 / 10) None)
  ∧
  LongAff.__call__
    (LongAff.Make (PyStr "2D" false) (3 # 10) (3 / 10) (3 / 10) (Some false))
    (Kwargs (Some ["input"]) None)
    (World {[ "input" := full 1 1 1 1 (Finite 2) ]}
           [DRand (1 # 2); DRand (1 # 2); DRand (1 # 2)])
  = (Ok tt,
     World {[ "input" := full 1 1 1 1 (Finite 2) ]}
           [DRand (1 # 2); DRand (1 # 2); DRand (1 # 2)]).
Proof.
  split; [|split; reflexivity].
  assert (Hu : unit_draw (1 # 2)) by (apply unit_draw_decide; reflexivity).
  unfold LongAff.__call__. cbn [LongAff.skip negb LongAff.mode].
  unfold str_eq, str_is. cbn [lit interned chars andb].
  rewrite (bool_decide_eq_false_2 ("3D" = "mix")) by discriminate.
  erewrite bind_step by reflexivity.
  rewrite (bool_decide_eq_false_2 ("3D" = "2D")) by discriminate.
  rewrite (bool_decide_eq_true_2 ("3D" = "3D") eq_refl).
  cbn [lit interned andb]. unfold when, LongAff.augment3D, kwargs_imgs.
  cbn [kw_imgs].
  do 2 (erewrite bind_step by reflexivity). simpl for_.
  erewrite bind_step
    by (apply augment3D_key_run;
        [apply (lookup_singleton_eq "input" (full 1 1 1 1 NaN))|exact Hu..]).
  rewrite insert_singleton_eq. reflexivity.
Qed.

(** C4, amended.  In the 3D path (one key) and in the 2D path (one section
    of one key) every value is replaced by [greyscale c b g] of it: times
    the contrast scale, plus the brightness shift, cut off at 0 and 1, to
    the power of the gamma exponent, with the three scalars drawn in this
    order.  For an object with the contrast factor that [__init__] sets,
    whose mode is the object of the literal ['2D'] or ['3D'] or has the
    characters of ['mix'], after a call that is not skipped and returns
    every chosen volume has its shape, every value of it that was NaN is
    NaN, and every other value lies within [0, 1]. *)
Theorem greyscale_order_and_range :
  (∀ (self : LongAff.t) (key : string) (s : gmap string (volume npfloat))
     (v : volume npfloat) (u1 u2 u3 : Q) (rest : list draw),
      s !! key = Some v → unit_draw u1 → unit_draw u2 → unit_draw u3 →
      LongAff.augment3D_key self key
        (World s (DRand u1 :: DRand u2 :: DRand u3 :: rest))
      = (Ok tt,
         World (<[key := volume_map
                           (greyscale (LongAff.contrast_scale self u1)
                                      (LongAff.brightness_shift self u2)
                                      (LongAff.gamma_exponent u3)) v]> s) rest))
  ∧
  (∀ (self : LongAff.t) (key : string) (z : nat)
     (s : gmap string (volume npfloat))
     (v : volume npfloat) (u1 u2 u3 : Q) (rest : list draw),
      s !! key = Some v → volume_wf v → z < zext v →
      unit_draw u1 → unit_draw u2 → unit_draw u3 →
      LongAff.augment2D_slice self key z
        (World s (DRand u1 :: DRand u2 :: DRand u3 :: rest))
      = (Ok tt,
         World (<[key := set_section z
                           (LongAff.section_map
                              (greyscale (LongAff.contrast_scale self u1)
                                         (LongAff.brightness_shift self u2)
                                         (LongAff.gamma_exponent u3))
                              (get_section z v)) v]> s) rest))
  ∧
  (∀ (self : LongAff.t) (kw : kwargs) (imgs : list string)
     (sample : gmap string (volume npfloat)) (tp : list draw)
     (w' : world npfloat),
      LongAff.skip self = Some false →
      LongAff.mode self = lit "2D" ∨ LongAff.mode self = lit "3D"
      ∨ chars (LongAff.mode self) = "mix" →
      LongAff.CONTRAST_FACTOR self = (3 / 10)%R →
      kw_imgs kw = Some imgs →
      (∀ key v, sample !! key = Some v → volume_wf v) →
      LongAff.__call__ self kw (World sample tp) = (Ok tt, w') →
      ∀ key, key ∈ imgs →
        ∃ v v', sample !! key = Some v ∧ store w' !! key = Some v' ∧
                shape3 v' = shape3 v ∧
                ∀ z c i j, z < zext v →
                  pixel_ranged (pixel (get_section z v) c i j)
                               (pixel (get_section z v') c i j)).
Proof.
  split; [exact augment3D_key_run|]. split.
  - intros self key z s v u1 u2 u3 rest Hv Hwf Hz.
    apply augment2D_slice_run; [exact Hv|].
    apply wf_section_in_range; assumption.
  - intros self kw imgs sample tp w' Hs Hmode Hc Hkw Hwf H key Hkey.
    assert (Hgoal : ∃ v v', sample !! key = Some v ∧ store w' !! key = Some v'
                            ∧ ranged_volume v v').
    2:{ destruct Hgoal as (v & v' & Hv & Hv' & Hr). exists v, v'.
        split; [exact Hv|]. split; [exact Hv'|]. split; [apply Hr|].
        apply ranged_volume_pixels, Hr. }
    unfold LongAff.__call__ in H. rewrite Hs in H. simpl in H.
    apply bind_Ok in H as (m & w1 & Hm & H).
    apply (call_mode_Ok self _ _ _ Hmode) in Hm as [Hs1 Hm]. simpl in Hs1.
    assert (Hagree : sections_agree (store w1)).
    { rewrite Hs1. intros k v Hk. destruct (Hwf k v Hk) as [_ Hv].
      eapply Forall_impl; [exact Hv|]. intros ch [Hch _]. exact Hch. }
    rewrite <- Hs1.
    destruct Hm as [-> | ->]; unfold str_is in H; cbn [lit interned chars andb] in H.
    + rewrite (bool_decide_eq_true_2 ("2D" = "2D") eq_refl) in H.
      rewrite (bool_decide_eq_false_2 ("2D" = "3D")) in H by discriminate.
      apply bind_Ok in H as ([] & w2 & H2 & H). injection H as <-.
      unfold when, LongAff.augment2D, kwargs_imgs in H2. rewrite Hkw in H2.
      apply bind_Ok in H2 as (imgs' & w3 & Hi & H2). injection Hi as <- <-.
      destruct (for_keys_ranged _ sections_agree
                  (λ k w w', augment2D_key_ranged self k w w' Hc)
                  imgs w1 w2 Hagree H2) as (_ & _ & Hall).
      apply Hall, Hkey.
    + rewrite (bool_decide_eq_false_2 ("3D" = "2D")) in H by discriminate.
      rewrite (bool_decide_eq_true_2 ("3D" = "3D") eq_refl) in H.
      apply bind_Ok in H as ([] & w2 & H2 & H). injection H2 as <-.
      unfold when, LongAff.augment3D, kwargs_imgs in H. rewrite Hkw in H.
      apply bind_Ok in H as (imgs' & w3 & Hi & H). injection Hi as <- <-.
      destruct (for_keys_ranged _ (λ _, True)
                  (λ k w w' _ Hk, conj I (augment3D_key_ranged self k w w' Hc Hk))
                  imgs w1 w' I H) as (_ & _ & Hall).
      apply Hall, Hkey.
Qed.

(** A call in 3D mode on one key returns. *)
Lemma call_3D_one_key self kw key (s : gmap string (volume npfloat)) v u1 u2 u3 rest :
  LongAff.skip self = Some false → LongAff.mode self = lit "3D" →
  kw_imgs kw = Some [key] → s !! key = Some v →
  unit_draw u1 → unit_draw u2 → unit_draw u3 →
  LongAff.__call__ self kw (World s (DRand u1 :: DRand u2 :: DRand u3 :: rest))
  = (Ok tt,
     World (<[key := volume_map
                       (greyscale (LongAff.contrast_scale self u1)
                                  (LongAff.brightness_shift self u2)
                                  (LongAff.gamma_exponent u3)) v]> s) rest).
Proof.
  intros Hs Hm Hkw Hv H1 H2 H3.
  unfold LongAff.__call__. rewrite Hs, Hm. cbn [negb].
  unfold str_eq, str_is. cbn [lit interned chars andb].
  rewrite (bool_decide_eq_false_2 ("3D" = "mix")) by discriminate.
  erewrite bind_step by reflexivity.
  rewrite (bool_decide_eq_false_2 ("3D" = "2D")) by discriminate.
  rewrite (bool_decide_eq_true_2 ("3D" = "3D") eq_refl).
  cbn [lit interned andb]. unfold when, LongAff.augment3D, kwargs_imgs.
  rewrite Hkw.
  do 2 (erewrite bind_step by reflexivity). simpl for_.
  erewrite bind_step by (apply augment3D_key_run; eassumption).
  reflexivity.
Qed.

Lemma greyscale_order_and_range_witness :
  LongAff.__call__ (LongAff.Make (lit "3D") (3 # 10) (3 / 10) (3 / 10) (Some false))
    (Kwargs (Some ["input"]) None)
    (World {[ "input" := Volume 1 1 1 2 [[ [[Finite 2; NaN]] ]] ]}
           [DRand (1 # 2); DRand (1 # 4); DRand 0; DInt 7])
  = (Ok tt,
     World (<["input" :=
               volume_map
                 (greyscale
                    (LongAff.contrast_scale
                       (LongAff.Make (lit "3D") (3 # 10) (3 / 10) (3 / 10) (Some false))
                       (1 # 2))
                    (LongAff.brightness_shift
                       (LongAff.Make (lit "3D") (3 # 10) (3 / 10) (3 / 10) (Some false))
                       (1 # 4))
                    (LongAff.gamma_exponent 0))
                 (Volume 1 1 1 2 [[ [[Finite 2; NaN]] ]])]>
              {[ "input" := Volume 1 1 1 2 [[ [[Finite 2; NaN]] ]] ]})
           [DInt 7])
  ∧
  ∀ key, key ∈ ["input"] →
    ∃ v v',
      ({[ "input" := Volume 1 1 1 2 [[ [[Finite 2; NaN]] ]] ]}
       : gmap string (volume npfloat)) !! key = Some v ∧
      store
        (World (<["input" :=
                  volume_map
                    (greyscale
                       (LongAff.contrast_scale
                          (LongAff.Make (lit "3D") (3 # 10) (3 / 10) (3 / 10) (Some false))
                          (1 # 2))
                       (LongAff.brightness_shift
                          (LongAff.Make (lit "3D") (3 # 10) (3 / 10) (3 / 10) (Some false))
                          (1 # 4))
                       (LongAff.gamma_exponent 0))
                    (Volume 1 1 1 2 [[ [[Finite 2; NaN]] ]])]>
                 {[ "input" := Volume 1 1 1 2 [[ [[Finite 2; NaN]] ]] ]})
               [DInt 7]) !! key = Some v' ∧
      shape3 v' = shape3 v ∧
      ∀ z c i j, z < zext v →
        pixel_ranged (pixel (get_section z v) c i j)
                     (pixel (get_section z v') c i j).
Proof.
  assert (Hcall := call_3D_one_key
            (LongAff.Make (lit "3D") (3 # 10) (3 / 10) (3 / 10) (Some false))
            (Kwargs (Some ["input"]) None) "input"
            {[ "input" := Volume 1 1 1 2 [[ [[Finite 2; NaN]] ]] ]}
            (Volume 1 1 1 2 [[ [[Finite 2; NaN]] ]])
            (1 # 2)%Q (1 # 4)%Q 0%Q [DInt 7] eq_refl eq_refl eq_refl
            (lookup_singleton_eq "input" (Volume 1 1 1 2 [[ [[Finite 2; NaN]] ]]))
            (unit_draw_decide (1 # 2) eq_refl) (unit_draw_decide (1 # 4) eq_refl)
            (unit_draw_decide 0 eq_refl)).
  split; [exact Hcall|].
  assert (Hwf : ∀ key v,
             ({[ "input" := Volume 1 1 1 2 [[ [[Finite 2; NaN]] ]] ]}
              : gmap string (volume npfloat)) !! key
             = Some v → volume_wf v).
  { intros key v Hk. apply lookup_singleton_Some in Hk as [_ <-].
    split; [reflexivity|]. repeat constructor. }
  exact (proj2 (proj2 greyscale_order_and_range)
           (LongAff.Make (lit "3D") (3 # 10) (3 / 10) (3 / 10) (Some false))
           (Kwargs (Some ["input"]) None) ["input"]
           {[ "input" := Volume 1 1 1 2 [[ [[Finite 2; NaN]] ]] ]}
           [DRand (1 # 2); DRand (1 # 4); DRand 0; DInt 7] _
           eq_refl (or_intror (or_introl eq_refl)) eq_refl eq_refl Hwf Hcall).
Defined.

(** ** Vec3d *)

Module Vec3dFacts.
Import Vec3d.
Local Open Scope Z_scope.

Lemma item_seq (l : list Z) (i : nat) :
  item (OSeq l) i = match l !! i with Some a => Val a | None => Err IndexError end.
Proof. reflexivity. Qed.

(** Writing a component and reading it back: the keys 0, 1 and 2 are the
    only ones; a write to one of them is read back and leaves the other
    two, while any other key, negative ones too, raises IndexError on
    reading and on writing and leaves the vector as it was. *)
Theorem setitem_getitem :
  ∀ (self : t) (key value : Z),
    if (0 <=? key) && (key <=? 2)
    then (__setitem__ self key value).2 = None ∧
         __getitem__ (__setitem__ self key value).1 key = Val value ∧
         ∀ k, k ≠ key →
           __getitem__ (__setitem__ self key value).1 k = __getitem__ self k
    else __setitem__ self key value = (self, Some IndexError) ∧
         __getitem__ self key = Err IndexError.
Proof.
  intros [a b c] key value.
  assert (Hcases : ∀ k, (k = 0 ∨ k = 1 ∨ k = 2) ∨ (k ≠ 0 ∧ k ≠ 1 ∧ k ≠ 2)) by lia.
  assert (Hget : ∀ (v : t) k, k ≠ 0 → k ≠ 1 → k ≠ 2 →
                   __getitem__ v k = Err IndexError).
  { intros v k H0 H1 H2. unfold __getitem__.
    apply Z.eqb_neq in H0, H1, H2. rewrite H0, H1, H2. reflexivity. }
  destruct ((0 <=? key) && (key <=? 2)) eqn:E.
  - apply andb_true_iff in E as [E0 E2].
    apply Z.leb_le in E0, E2.
    assert (Hk : key = 0 ∨ key = 1 ∨ key = 2) by lia.
    destruct Hk as [-> | [-> | ->]]; (split; [reflexivity|]);
      (split; [reflexivity|]); intros k Hk;
      (destruct (Hcases k) as [[-> | [-> | ->]] | (H0 & H1 & H2)];
       [try reflexivity; congruence ..| rewrite !Hget by assumption; reflexivity]).
  - apply andb_false_iff in E.
    assert (Hk : key ≠ 0 ∧ key ≠ 1 ∧ key ≠ 2).
    { destruct E as [E | E]; apply Z.leb_gt in E; lia. }
    destruct Hk as (H0 & H1 & H2). split; [|apply Hget; assumption].
    unfold __setitem__. apply Z.eqb_neq in H0, H1, H2. rewrite H0, H1, H2.
    reflexivity.
Qed.

(** [Vec3d(seq)] takes the first three entries of a sequence and ignores
    the rest, and raises IndexError on a shorter one; the vector it builds
    compares equal to the sequence only when the sequence has exactly
    three entries. *)
Theorem init_triple_of_sequence :
  ∀ (l : list Z),
    match init_triple (OSeq l) with
    | Val v =>
        (3 <= length l)%nat ∧ [x v; y v; z v] = take 3 l ∧
        __eq__ v (OSeq l) = Val (length l =? 3)%nat
    | Err e => e = IndexError ∧ (length l < 3)%nat
    end.
Proof.
  intros [|a [|b [|c l]]]; simpl; try (split; [reflexivity|lia]).
  split; [lia|]. split; [reflexivity|].
  unfold __eq__. simpl. destruct l as [|d l]; simpl; [|reflexivity].
  rewrite !Z.eqb_refl. reflexivity.
Qed.

Lemma items_len3 (v : operand) :
  has_getitem v && (len v =? 3)%nat = true →
  ∃ a b c, item v 0 = Val a ∧ item v 1 = Val b ∧ item v 2 = Val c.
Proof.
  destruct v as [[a b c] | l | k]; simpl; intros H; try discriminate.
  - exists a, b, c. repeat split.
  - apply Nat.eqb_eq in H. destruct l as [|a [|b [|c [|d l]]]]; try discriminate.
    exists a, b, c. repeat split.
Qed.

(** [!=] is the negation of [==] for every operand, and [==] holds exactly
    for the operands with [__getitem__] and length 3 whose entries are the
    components of the vector. *)
Theorem ne_is_not_eq :
  ∀ (self : t) (v : operand),
    ∃ b, __eq__ self v = Val b ∧ __ne__ self v = Val (negb b) ∧
         (b = true ↔
          has_getitem v && (len v =? 3)%nat = true ∧ init_triple v = Val self).
Proof.
  intros [a b c] v. unfold __eq__, __ne__, init_triple.
  destruct (has_getitem v && (len v =? 3)%nat) eqn:E.
  - destruct (items_len3 v E) as (a' & b' & c' & -> & -> & ->). simpl.
    destruct (a =? a') eqn:Ea; simpl.
    + destruct (b =? b') eqn:Eb; simpl.
      * exists (c =? c'). split; [reflexivity|]. split; [reflexivity|].
        apply Z.eqb_eq in Ea, Eb. subst. split.
        -- intros Hc. apply Z.eqb_eq in Hc. subst. auto.
        -- intros [_ [= ->]]. apply Z.eqb_refl.
      * exists false. split; [reflexivity|]. split; [reflexivity|].
        apply Z.eqb_neq in Eb. split; [discriminate|]. intros [_ [= ? ? ?]]. lia.
    + exists false. split; [reflexivity|]. split; [reflexivity|].
      apply Z.eqb_neq in Ea. split; [discriminate|]. intros [_ [= ? ? ?]]. lia.
  - exists false. split; [reflexivity|]. split; [reflexivity|].
    split; [discriminate|]. intros [? _]. discriminate.
Qed.

(** The truth value of a vector is false exactly for the zero vector,
    which is exactly when the squared length is 0. *)
Theorem nonzero_iff_length :
  ∀ (self : t),
    (truthy (__nonzero__ self) = false ↔ self = Make 0 0 0) ∧
    (self = Make 0 0 0 ↔ get_length_sqrd self = 0).
Proof.
  intros [a b c]. unfold truthy, __nonzero__, get_length_sqrd. simpl. split.
  - destruct (a =? 0) eqn:Ea; simpl.
    + destruct (b =? 0) eqn:Eb; simpl.
      * apply Z.eqb_eq in Ea, Eb. subst. rewrite negb_false_iff, Z.eqb_eq.
        split; [intros ->; reflexivity|intros [= ->]; reflexivity].
      * rewrite Eb. simpl. apply Z.eqb_neq in Eb.
        split; [discriminate|intros [= ? ? ?]; lia].
    + rewrite Ea. simpl. apply Z.eqb_neq in Ea.
      split; [discriminate|intros [= ? ? ?]; lia].
  - split; [intros [= -> -> ->]; reflexivity|].
    intros H. assert (a = 0 ∧ b = 0 ∧ c = 0) as (-> & -> & ->) by nia.
    reflexivity.
Qed.

(** Floor division and modulo by a number: division by 0 raises
    ZeroDivisionError; otherwise [(v // k) * k + (v % k)] is [v], and for a
    positive [k] the components of [v % k] lie in [0, k). *)
Theorem floordiv_mod :
  ∀ (self : t) (k : Z),
    if k =? 0
    then __floordiv__ self (ONum k) = Err ZeroDivisionError ∧
         __div__ self (ONum k) = Err ZeroDivisionError ∧
         __mod__ self (ONum k) = Err ZeroDivisionError
    else ∃ q r, __floordiv__ self (ONum k) = Val q ∧
                __div__ self (ONum k) = Val q ∧
                __mod__ self (ONum k) = Val r ∧
                rbind (__mul__ q (ONum k)) (λ qk, __add__ qk (OVec r)) = Val self ∧
                (0 < k → 0 <= x r < k ∧ 0 <= y r < k ∧ 0 <= z r < k).
Proof.
  intros [a b c] k. unfold __floordiv__, __div__, __mod__, _o2, floordiv, mod_.
  simpl. destruct (k =? 0) eqn:E; [repeat split|].
  apply Z.eqb_neq in E. simpl.
  eexists. eexists. split; [reflexivity|]. split; [reflexivity|].
  split; [reflexivity|]. split.
  - simpl. f_equal.
    rewrite (Z.div_mod a k E) at 3. rewrite (Z.div_mod b k E) at 3.
    rewrite (Z.div_mod c k E) at 3. f_equal; ring.
  - intros Hk. simpl. repeat split; apply Z.mod_pos_bound; assumption.
Qed.

(** Whenever a binary operator returns, the in-place operator of the same
    name returns too and leaves the vector equal to that result: [+=],
    [-=], [*=], [//=] and [/=] of integers.  The in-place true division
    [__itruediv__] leaves the floor quotient as well. *)
Theorem inplace_agrees_with_binary :
  ∀ (self : t) (v : operand) (r : t),
    (__add__ self v = Val r → __iadd__ self v = (r, None)) ∧
    (__sub__ self v = Val r → __isub__ self v = (r, None)) ∧
    (__mul__ self v = Val r → __imul__ self v = (r, None)) ∧
    (__floordiv__ self v = Val r →
       __ifloordiv__ self v = (r, None) ∧ __idiv__ self v = (r, None) ∧
       __itruediv__ self v = (r, None)).
Proof.
  intros [a b c] v r.
  assert (Harith : ∀ op, arith op (Make a b c) v = Val r →
                         iarith op (Make a b c) v = (r, None)).
  { intros op. destruct v as [[a' b' c'] | l | k]; simpl.
    - intros [= <-]. reflexivity.
    - unfold arith, iarith. simpl.
      destruct (l !! 0%nat); simpl; [|discriminate].
      destruct (l !! 1%nat); simpl; [|discriminate].
      destruct (l !! 2%nat); simpl; [|discriminate].
      intros [= <-]. reflexivity.
    - intros [= <-]. reflexivity. }
  split; [apply Harith|]. split; [apply Harith|]. split; [apply Harith|].
  unfold __floordiv__, __ifloordiv__, __idiv__, __itruediv__.
  assert (Hio : _o2 (Make a b c) v floordiv = Val r →
                _io (Make a b c) v floordiv = (r, None)).
  { destruct v as [[a' b' c'] | l | k]; unfold _o2, _io; simpl.
    - destruct (floordiv a a'); simpl; [|discriminate].
      destruct (floordiv b b'); simpl; [|discriminate].
      destruct (floordiv c c'); simpl; [|discriminate].
      intros [= <-]. reflexivity.
    - destruct (l !! 0%nat); simpl; [|discriminate].
      destruct (floordiv a _); simpl; [|discriminate].
      destruct (l !! 1%nat); simpl; [|discriminate].
      destruct (floordiv b _); simpl; [|discriminate].
      destruct (l !! 2%nat); simpl; [|discriminate].
      destruct (floordiv c _); simpl; [|discriminate].
      intros [= <-]. reflexivity.
    - destruct (floordiv a k); simpl; [|discriminate].
      destruct (floordiv b k); simpl; [|discriminate].
      destruct (floordiv c k); simpl; [|discriminate].
      intros [= <-]. reflexivity. }
  intros H. repeat split; apply Hio, H.
Qed.

Lemma inplace_agrees_with_binary_witness :
  __floordiv__ (Make 7 (-7) 9) (OSeq [2; 2; 3; 100]) = Val (Make 3 (-4) 3) ∧
  __ifloordiv__ (Make 7 (-7) 9) (OSeq [2; 2; 3; 100]) = (Make 3 (-4) 3, None) ∧
  __idiv__ (Make 7 (-7) 9) (OSeq [2; 2; 3; 100]) = (Make 3 (-4) 3, None) ∧
  __itruediv__ (Make 7 (-7) 9) (OSeq [2; 2; 3; 100]) = (Make 3 (-4) 3, None).
Proof.
  split; [reflexivity|].
  exact (proj2 (proj2 (proj2 (inplace_agrees_with_binary
           (Make 7 (-7) 9) (OSeq [2; 2; 3; 100]) (Make 3 (-4) 3)))) eq_refl).
Defined.

(** On a sequence with fewer than three entries the binary operators raise
    IndexError, and so do the in-place ones, but only after they have
    updated the components for which the sequence has an entry. *)
Theorem inplace_short_sequence :
  ∀ (self : t) (l : list Z),
    (length l < 3)%nat →
    __add__ self (OSeq l) = Err IndexError ∧
    __sub__ self (OSeq l) = Err IndexError ∧
    __mul__ self (OSeq l) = Err IndexError ∧
    __iadd__ self (OSeq l)
    = (Make (x self + default 0 (l !! 0%nat)) (y self + default 0 (l !! 1%nat))
            (z self), Some IndexError) ∧
    __isub__ self (OSeq l)
    = (Make (x self - default 0 (l !! 0%nat)) (y self - default 0 (l !! 1%nat))
            (z self), Some IndexError) ∧
    __imul__ self (OSeq l)
    = (Make (x self * default 1 (l !! 0%nat)) (y self * default 1 (l !! 1%nat))
            (z self), Some IndexError).
Proof.
  intros [a b c] [|a' [|b' [|c' l]]] Hlen; simpl in Hlen; try lia;
    unfold __add__, __sub__, __mul__, __iadd__, __isub__, __imul__, arith, iarith;
    simpl; repeat split; f_equal; f_equal; lia.
Qed.

Lemma inplace_short_sequence_witness :
  (length [5] < 3)%nat ∧
  __add__ (Make 1 2 3) (OSeq [5]) = Err IndexError ∧
  __iadd__ (Make 1 2 3) (OSeq [5]) = (Make 6 2 3, Some IndexError).
Proof.
  assert (H : (length [5] < 3)%nat) by (simpl; lia).
  split; [exact H|].
  destruct (inplace_short_sequence (Make 1 2 3) [5] H) as (Ha & _ & _ & Hi & _).
  split; [exact Ha|exact Hi].
Defined.

(** Reflected subtraction and the unary minus: [w - v] computed by
    [v.__rsub__(w)] is the negation of [v - w] for every operand, with the
    same exception on the same operands.  [~v] is [-v], so [v + ~v] is the
    zero vector. *)
Theorem rsub_neg_invert :
  ∀ (self : t) (v : operand),
    __rsub__ self v = rbind (__sub__ self v) (λ d, Val (__neg__ d)) ∧
    __invert__ self = __neg__ self ∧
    __add__ self (OVec (__invert__ self)) = Val (Make 0 0 0) ∧
    __neg__ (__neg__ self) = self.
Proof.
  intros [a b c] v. split; [|split; [reflexivity|split]].
  - destruct v as [[a' b' c'] | l | k]; unfold __rsub__, __sub__, arith, __neg__;
      simpl.
    + f_equal. f_equal; lia.
    + destruct (l !! 0%nat); simpl; [|reflexivity].
      destruct (l !! 1%nat); simpl; [|reflexivity].
      destruct (l !! 2%nat); simpl; [|reflexivity].
      f_equal. f_equal; lia.
    + f_equal. f_equal; lia.
  - unfold __add__, arith, __invert__. simpl. f_equal. f_equal; lia.
  - unfold __neg__. simpl. f_equal; lia.
Qed.

(** [float] of an integer of at most 53 bits is the integer. *)
Lemma float_of_int_exact (n : Z) :
  Z.abs n <= 2 ^ 53 → float_of_int n = Val (inject_Z n).
Proof.
  intros Hn. unfold float_of_int.
  assert (Hcases : Z.abs n = 2 ^ 53 ∨ Z.abs n < 2 ^ 53) by lia.
  destruct Hcases as [Heq | Hlt].
  - assert (Hn' : n = 2 ^ 53 ∨ n = - 2 ^ 53) by lia.
    destruct Hn' as [-> | ->]; vm_compute; reflexivity.
  - assert (He : Z.max 0 (Z.log2 (Z.abs n) + 1 - 53) = 0).
    { destruct (Z.eq_dec (Z.abs n) 0) as [E0 | E0].
      - rewrite E0. reflexivity.
      - assert (Z.log2 (Z.abs n) < 53) by (apply Z.log2_lt_pow2; lia). lia. }
    rewrite He. cbn [Z.eqb]. rewrite Z.pow_0_r, Z.div_1_r, Z.mul_1_r.
    assert (Hbig : 2 ^ 53 < 2 ^ 1024) by (apply Z.pow_lt_mono_r; lia).
    destruct (Z.leb_spec (2 ^ 1024) (Z.abs n)) as [Hle | _]; [lia|].
    f_equal. f_equal. rewrite Z.mul_comm. apply Z.abs_sgn.
Qed.

(** The cross product of two vectors is antisymmetric and orthogonal to
    both factors, and its squared length is |v|^2 |w|^2 - d^2 for the
    integer d = v.w; hence d^2 <= |v|^2 |w|^2.  [dot] returns [float(d)],
    which is d when d has at most 53 bits. *)
Theorem cross_product :
  ∀ (v w : t),
    ∃ (c : t) (d : Z),
      cross v (OVec w) = Val c ∧
      cross w (OVec v) = Val (__neg__ c) ∧
      dot v (OVec c) = Val (inject_Z 0) ∧
      dot w (OVec c) = Val (inject_Z 0) ∧
      d = x v * x w + y v * y w + z v * z w ∧
      dot v (OVec w) = float_of_int d ∧
      (Z.abs d <= 2 ^ 53 → dot v (OVec w) = Val (inject_Z d)) ∧
      get_length_sqrd c = get_length_sqrd v * get_length_sqrd w - d ^ 2 ∧
      d ^ 2 <= get_length_sqrd v * get_length_sqrd w.
Proof.
  intros [a b c] [a' b' c'].
  exists (Make (b * c' - c * b') (c * a' - a * c') (a * b' - b * a')),
         (a * a' + b * b' + c * c').
  assert (HL : get_length_sqrd
                 (Make (b * c' - c * b') (c * a' - a * c') (a * b' - b * a'))
               = get_length_sqrd (Make a b c) * get_length_sqrd (Make a' b' c')
                 - (a * a' + b * b' + c * c') ^ 2).
  { unfold get_length_sqrd. simpl. ring. }
  assert (H0 : float_of_int 0 = Val (inject_Z 0))
    by (apply float_of_int_exact; vm_compute; discriminate).
  split; [reflexivity|]. split.
  { unfold cross, __neg__. simpl. f_equal. f_equal; ring. }
  split.
  { change (float_of_int (a * (b * c' - c * b') + b * (c * a' - a * c')
                          + c * (a * b' - b * a')) = Val (inject_Z 0)).
    rewrite <- H0. f_equal. ring. }
  split.
  { change (float_of_int (a' * (b * c' - c * b') + b' * (c * a' - a * c')
                          + c' * (a * b' - b * a')) = Val (inject_Z 0)).
    rewrite <- H0. f_equal. ring. }
  split; [reflexivity|]. split; [reflexivity|]. split.
  { intros Hd. apply (float_of_int_exact _ Hd). }
  split; [exact HL|].
  assert (0 <= get_length_sqrd
                 (Make (b * c' - c * b') (c * a' - a * c') (a * b' - b * a'))).
  { unfold get_length_sqrd. simpl. nia. }
  lia.
Qed.

Lemma cross_product_witness :
  ∃ (c : t) (d : Z),
    cross (Make 1 2 3) (OVec (Make 4 5 6)) = Val c ∧
    cross (Make 4 5 6) (OVec (Make 1 2 3)) = Val (__neg__ c) ∧
    dot (Make 1 2 3) (OVec c) = Val (inject_Z 0) ∧
    dot (Make 4 5 6) (OVec c) = Val (inject_Z 0) ∧
    d = x (Make 1 2 3) * x (Make 4 5 6) + y (Make 1 2 3) * y (Make 4 5 6)
        + z (Make 1 2 3) * z (Make 4 5 6) ∧
    dot (Make 1 2 3) (OVec (Make 4 5 6)) = float_of_int d ∧
    (Z.abs d <= 2 ^ 53 →
     dot (Make 1 2 3) (OVec (Make 4 5 6)) = Val (inject_Z d)) ∧
    get_length_sqrd c
    = get_length_sqrd (Make 1 2 3) * get_length_sqrd (Make 4 5 6) - d ^ 2 ∧
    d ^ 2 <= get_length_sqrd (Make 1 2 3) * get_length_sqrd (Make 4 5 6).
Proof. exact (cross_product (Make 1 2 3) (Make 4 5 6)). Defined.

(** [minimum] and [maximum] of two operands that [Vec3d(.)] accepts: the
    result bounds both componentwise, the two results add up to the sum of
    the operands, and the order of the operands does not matter; an
    operand that [Vec3d(.)] rejects makes both raise its exception. *)
Theorem minimum_maximum :
  ∀ (v1 v2 : operand),
    match init_triple v1, init_triple v2 with
    | Val a, Val b =>
        ∃ lo hi,
          minimum v1 v2 = Val lo ∧ maximum v1 v2 = Val hi ∧
          minimum v2 v1 = Val lo ∧ maximum v2 v1 = Val hi ∧
          (x lo <= x a <= x hi ∧ y lo <= y a <= y hi ∧ z lo <= z a <= z hi) ∧
          (x lo <= x b <= x hi ∧ y lo <= y b <= y hi ∧ z lo <= z b <= z hi) ∧
          __add__ lo (OVec hi) = __add__ a (OVec b)
    | Err e, _ => minimum v1 v2 = Err e ∧ maximum v1 v2 = Err e
    | Val _, Err e => minimum v1 v2 = Err e ∧ maximum v1 v2 = Err e
    end.
Proof.
  intros v1 v2. unfold minimum, maximum.
  destruct (init_triple v1) as [[a b c]|e]; [|split; reflexivity].
  destruct (init_triple v2) as [[a' b' c']|e]; [|split; reflexivity].
  simpl. eexists. eexists. split; [reflexivity|]. split; [reflexivity|].
  split; [f_equal; f_equal; lia|]. split; [f_equal; f_equal; lia|].
  simpl. split; [lia|]. split; [lia|].
  unfold __add__, arith. simpl. f_equal. f_equal; lia.
Qed.

(** The squared distance to an indexable operand is the squared length of
    the difference, with the same exception on the same operands; between
    two vectors it is symmetric and 0 only for equal vectors.  A number is
    no operand of [get_dist_sqrd]. *)
Theorem dist_sqrd :
  ∀ (self : t) (v : operand),
    (match v with
     | ONum _ => get_dist_sqrd self v = Err TypeError
     | _ => get_dist_sqrd self v
            = rbind (__sub__ self v) (λ d, Val (get_length_sqrd d))
     end) ∧
    ∀ (w : t),
      get_dist_sqrd self (OVec w) = get_dist_sqrd w (OVec self) ∧
      (get_dist_sqrd self (OVec w) = Val 0 ↔ self = w).
Proof.
  intros [a b c] v. split.
  - destruct v as [[a' b' c'] | l | k]; [reflexivity| |reflexivity].
    unfold get_dist_sqrd, __sub__, arith. simpl.
    destruct (l !! 0%nat); simpl; [|reflexivity].
    destruct (l !! 1%nat); simpl; [|reflexivity].
    destruct (l !! 2%nat); simpl; reflexivity.
  - intros [a' b' c']. unfold get_dist_sqrd. simpl. split.
    + f_equal. ring.
    + split.
      * intros [= H]. assert (a = a' ∧ b = b' ∧ c = c') as (-> & -> & ->) by nia.
        reflexivity.
      * intros [= -> -> ->]. f_equal. ring.
Qed.

(** Pickling: [__setstate__] of the state that [__getstate__] gives
    restores the vector; a state of three entries is accepted and read back by
    [__getstate__], and any other length raises ValueError and leaves the
    vector as it was. *)
Theorem getstate_setstate :
  ∀ (self v : t) (l : list Z),
    __setstate__ self (__getstate__ v) = (v, None) ∧
    if (length l =? 3)%nat
    then (__setstate__ self l).2 = None ∧
         __getstate__ (__setstate__ self l).1 = l
    else __setstate__ self l = (self, Some ValueError).
Proof.
  intros self [a b c] l. split; [reflexivity|].
  destruct l as [|a' [|b' [|c' [|d' l]]]]; simpl; try reflexivity.
  split; reflexivity.
Qed.

(** The bitwise operators on two vectors: [(v | w) + (v & w)] is [v + w],
    [(v | w) - (v & w)] is [v ^ w], and [v ^ v] is the zero vector. *)
Theorem bitwise_operators :
  ∀ (v w : t),
    ∃ (a o e : t),
      __and__ v (OVec w) = Val a ∧ __or__ v (OVec w) = Val o ∧
      __xor__ v (OVec w) = Val e ∧
      __add__ o (OVec a) = __add__ v (OVec w) ∧
      __sub__ o (OVec a) = Val e ∧
      __xor__ v (OVec v) = Val (Make 0 0 0).
Proof.
  intros [a b c] [a' b' c'].
  unfold __and__, __or__, __xor__, _o2. simpl.
  eexists. eexists. eexists.
  split; [reflexivity|]. split; [reflexivity|]. split; [reflexivity|].
  unfold __add__, __sub__, arith. simpl.
  rewrite !Z.add_lor_land, !Z.sub_lor_land, !Z.lxor_nilpotent.
  repeat split.
Qed.

(** The reflected operators: [w.__rdiv__(v)], [w.__rfloordiv__(v)] and
    [w.__rmod__(v)] compute [v / w], [v // w] and [v % w]: on a vector [v]
    they agree with the operator of [v] applied to [w], on a number [k]
    with that of the vector (k, k, k), with the same ZeroDivisionError.
    Addition and multiplication are their own reflections and commute on
    vectors. *)
Theorem reflected_operators :
  ∀ (self w : t) (k : Z),
    __rdiv__ self (OVec w) = __div__ w (OVec self) ∧
    __rfloordiv__ self (OVec w) = __floordiv__ w (OVec self) ∧
    __rmod__ self (OVec w) = __mod__ w (OVec self) ∧
    __rdiv__ self (ONum k) = __div__ (Make k k k) (OVec self) ∧
    __rmod__ self (ONum k) = __mod__ (Make k k k) (OVec self) ∧
    __radd__ self (OVec w) = __add__ w (OVec self) ∧
    __rmul__ self (OVec w) = __mul__ w (OVec self).
Proof.
  intros [a b c] [a' b' c'] k.
  unfold __rdiv__, __rfloordiv__, __rmod__, __div__, __floordiv__, __mod__,
    __radd__, __rmul__, __add__, __mul__, _r_o2, _o2, arith.
  cbn [has_getitem item __getitem__ x y z Z.of_nat rbind].
  split; [reflexivity|]. split; [reflexivity|]. split; [reflexivity|].
  split; [reflexivity|]. split; [reflexivity|].
  split; f_equal; f_equal; lia.
Qed.

(** The unary operators and the lengths: [+v] is [v], [abs] is idempotent
    and does not see the sign, and no unary operator changes the squared
    length.  The dot product of a vector with itself is [float] of its
    squared length, which is the squared length when that has at most 53
    bits and may differ above: for (94906267, 0, 0) the squared length is
    9007199515875289 and the dot product 9007199515875288.  The dot product
    of two vectors is symmetric. *)
Theorem unary_operators_and_length :
  ∀ (v w : t),
    __pos__ v = v ∧
    __abs__ (__abs__ v) = __abs__ v ∧
    __abs__ (__neg__ v) = __abs__ v ∧
    get_length_sqrd (__abs__ v) = get_length_sqrd v ∧
    get_length_sqrd (__neg__ v) = get_length_sqrd v ∧
    get_length_sqrd (__invert__ v) = get_length_sqrd v ∧
    dot v (OVec v) = float_of_int (get_length_sqrd v) ∧
    (get_length_sqrd v <= 2 ^ 53 →
     dot v (OVec v) = Val (inject_Z (get_length_sqrd v))) ∧
    dot v (OVec w) = dot w (OVec v) ∧
    get_length_sqrd (Make 94906267 0 0) = 9007199515875289 ∧
    dot (Make 94906267 0 0) (OVec (Make 94906267 0 0))
    = Val (inject_Z 9007199515875288).
Proof.
  intros [a b c] [a' b' c'].
  assert (Hsq : ∀ n : Z, Z.abs n ^ 2 = n ^ 2)
    by (intros n; rewrite !Z.pow_2_r; apply Z.abs_square).
  assert (Hself : dot (Make a b c) (OVec (Make a b c))
                  = float_of_int (get_length_sqrd (Make a b c))).
  { change (float_of_int (a * a + b * b + c * c)
            = float_of_int (a ^ 2 + b ^ 2 + c ^ 2)).
    f_equal. lia. }
  unfold __pos__, __abs__, __neg__, __invert__.
  split; [reflexivity|].
  split; [cbn [x y z]; f_equal; lia|]. split; [cbn [x y z]; f_equal; lia|].
  split; [unfold get_length_sqrd; cbn [x y z]; rewrite !Hsq; reflexivity|].
  split; [unfold get_length_sqrd; cbn [x y z]; lia|].
  split; [unfold get_length_sqrd; cbn [x y z]; lia|].
  split; [exact Hself|]. split.
  - intros Hl. rewrite Hself. apply float_of_int_exact.
    assert (0 <= get_length_sqrd (Make a b c))
      by (unfold get_length_sqrd; cbn [x y z]; nia).
    lia.
  - split; [|split; vm_compute; reflexivity].
    change (float_of_int (a * a' + b * b' + c * c')
            = float_of_int (a' * a + b' * b + c' * c)).
    f_equal. lia.
Qed.

Lemma unary_operators_and_length_witness :
  get_length_sqrd (Make 3 (-4) 12) <= 2 ^ 53 ∧
  dot (Make 3 (-4) 12) (OVec (Make 3 (-4) 12)) = Val (inject_Z 169).
Proof.
  split; [vm_compute; discriminate|].
  exact (proj1 (proj2 (proj2 (proj2 (proj2 (proj2 (proj2 (proj2
           (unary_operators_and_length (Make 3 (-4) 12) (Make 0 0 0)))))))))
           ltac:(vm_compute; discriminate)).
Defined.

End Vec3dFacts.

(** ** What the augmentors leave alone *)

Section Frames.
Context {A : Type}.
Implicit Types (s : gmap string (volume A)) (Rel : relation (gmap string (volume A))).

Lemma respects_reads {R} Rel (m : M A R) :
  (∀ s, Rel s s) → reads m → respects Rel m.
Proof. intros Hrefl H w r w' Hm. rewrite (H w r w' Hm). apply Hrefl. Qed.

Lemma respects_bind {R S} Rel (m : M A R) (k : R → M A S) :
  (∀ s1 s2 s3, Rel s1 s2 → Rel s2 s3 → Rel s1 s3) →
  respects Rel m → (∀ x, respects Rel (k x)) → respects Rel (bind m k).
Proof.
  intros Htrans Hm Hk w r w'. unfold bind.
  destruct (m w) as [[x|e|] w1] eqn:E; intros H.
  - eapply Htrans; [eapply Hm, E|eapply Hk, H].
  - injection H as <- <-. eapply Hm, E.
  - injection H as <- <-. eapply Hm, E.
Qed.

Lemma respects_for {X} Rel (l : list X) (body : X → M A unit) :
  (∀ s, Rel s s) → (∀ s1 s2 s3, Rel s1 s2 → Rel s2 s3 → Rel s1 s3) →
  (∀ x, x ∈ l → respects Rel (body x)) → respects Rel (for_ l body).
Proof.
  intros Hrefl Htrans. induction l as [|x l IH]; intros H; simpl.
  - intros w r w' [= <- <-]. apply Hrefl.
  - apply respects_bind; [exact Htrans| |].
    + apply H. apply elem_of_cons. left. reflexivity.
    + intros _. apply IH. intros y Hy. apply H. apply elem_of_cons. right. exact Hy.
Qed.

Lemma bind_reads_inv {R S} (m : M A R) (k : R → M A S) w r w' :
  reads m → bind m k w = (r, w') →
  (∃ x w1, m w = (Ok x, w1) ∧ store w1 = store w ∧ k x w1 = (r, w'))
  ∨ (store w' = store w ∧ ∀ y, r ≠ Ok y).
Proof.
  intros Hm. unfold bind. destruct (m w) as [[x|e|] w1] eqn:E; intros H.
  - left. exists x, w1. split; [reflexivity|]. split; [eapply Hm, E|exact H].
  - right. injection H as <- <-. split; [eapply Hm, E|discriminate].
  - right. injection H as <- <-. split; [eapply Hm, E|discriminate].
Qed.

Lemma same_shapes_refl s : same_shapes s s.
Proof. intros key v Hv. exists v. auto. Qed.

Lemma same_shapes_trans s1 s2 s3 :
  same_shapes s1 s2 → same_shapes s2 s3 → same_shapes s1 s3.
Proof.
  intros H12 H23 key v Hv.
  destruct (H12 key v Hv) as (v2 & Hv2 & Hs2 & Hn2).
  destruct (H23 key v2 Hv2) as (v3 & Hv3 & Hs3 & Hn3).
  exists v3. split; [exact Hv3|]. split; congruence.
Qed.







Section BlurFrames.
Variable gf : list (plane A) → Q → list (plane A).
Hypothesis gf_length : ∀ img sigma, length (gf img sigma) = length img.




End BlurFrames.


End Frames.


Section ValueFrames.
Implicit Types (s : gmap string (volume npfloat)).

Lemma same_shapes_insert key v v' s :
  s !! key = Some v → shape3 v' = shape3 v → nchan v' = nchan v →
  same_shapes s (<[key := v']> s).
Proof.
  intros Hv Hs Hn k u Hu. destruct (decide (k = key)) as [-> | Hne].
  - rewrite lookup_insert_eq. exists v'.
    rewrite Hv in Hu. injection Hu as <-. auto.
  - rewrite lookup_insert_ne by congruence. exists u. auto.
Qed.

Lemma bind_assoc {A R S T} (m : M A R) (k : R → M A S) (h : S → M A T) w :
  bind m (λ x, bind (k x) h) w = bind (bind m k) h w.
Proof. unfold bind. destruct (m w) as [[x|e|] w1]; reflexivity. Qed.

Lemma bind_assoc2 {A R S T U} (m : M A R) (k : R → M A S)
    (j : R → S → M A T) (h : T → M A U) w :
  bind m (λ x, bind (k x) (λ y, bind (j x y) h)) w
  = bind (bind m (λ x, bind (k x) (j x))) h w.
Proof.
  unfold bind. destruct (m w) as [[x|e|] w1]; try reflexivity.
  destruct (k x w1) as [[y|e|] w2]; reflexivity.
Qed.

Lemma respects_ext {A R} Rel (m m' : M A R) :
  (∀ w, m w = m' w) → respects Rel m' → respects Rel m.
Proof. intros He H w r w' Hm. rewrite He in Hm. eapply H, Hm. Qed.

(** [sample[key] = g(sample[key])] *)
Lemma respects_update key (g : volume npfloat → volume npfloat) :
  (∀ v, shape3 (g v) = shape3 v ∧ nchan (g v) = nchan v) →
  respects same_shapes (v ←' getitem key; setitem key (g v)).
Proof.
  intros Hg w r w'. unfold bind, getitem, setitem.
  destruct (store w !! key) as [v|] eqn:Hv; intros [= <- <-]; simpl.
  - apply (same_shapes_insert key v); [exact Hv|apply Hg..].
  - apply same_shapes_refl.
Qed.

(** [sample[key] = g(sample[key], rand())] *)
Lemma respects_update_rand key (g : Q → volume npfloat → volume npfloat) :
  (∀ u v, shape3 (g u v) = shape3 v ∧ nchan (g u v) = nchan v) →
  respects same_shapes (v ←' getitem key; u ←' rand; setitem key (g u v)).
Proof.
  intros Hg w r w' H.
  apply bind_reads_inv in H
    as [(v & w1 & Hv & _ & H) | [Hsame _]];
    [|rewrite Hsame; apply same_shapes_refl|apply reads_getitem].
  apply getitem_Ok in Hv as [Hv ->].
  apply bind_reads_inv in H
    as [(u & w2 & _ & Hs2 & H) | [Hsame _]];
    [|rewrite Hsame; apply same_shapes_refl|apply reads_rand].
  unfold setitem in H. injection H as <- <-. simpl. rewrite Hs2.
  apply (same_shapes_insert key v); [exact Hv|apply Hg..].
Qed.

Lemma respects_augment3D_key (self : LongAff.t) key :
  respects same_shapes (LongAff.augment3D_key self key).
Proof.
  unfold LongAff.augment3D_key.
  eapply respects_ext.
  { intros w.
    apply (bind_assoc2 (getitem key) (λ _, rand)
             (λ v u, setitem key
                (volume_map (λ p, LongAff.fmul p (LongAff.contrast_scale self u)) v))). }
  apply respects_bind; [intros ? ? ?; apply same_shapes_trans| |intros _].
  { apply (respects_update_rand key
             (λ u v, volume_map (λ p, LongAff.fmul p (LongAff.contrast_scale self u)) v)).
    intros u v. split; reflexivity. }
  eapply respects_ext.
  { intros w.
    apply (bind_assoc2 (getitem key) (λ _, rand)
             (λ v u, setitem key
                (volume_map (λ p, LongAff.fadd p (LongAff.brightness_shift self u)) v))). }
  apply respects_bind; [intros ? ? ?; apply same_shapes_trans| |intros _].
  { apply (respects_update_rand key
             (λ u v, volume_map (λ p, LongAff.fadd p (LongAff.brightness_shift self u)) v)).
    intros u v. split; reflexivity. }
  eapply respects_ext.
  { intros w.
    apply (bind_assoc (getitem key)
             (λ v, setitem key (volume_map LongAff.fclip v))). }
  apply respects_bind; [intros ? ? ?; apply same_shapes_trans| |intros _].
  { apply (respects_update key (volume_map LongAff.fclip)).
    intros v. split; reflexivity. }
  apply (respects_update_rand key
           (λ u v, volume_map (λ p, LongAff.fpow p (LongAff.gamma_exponent u)) v)).
  intros u v. split; reflexivity.
Qed.

Lemma respects_augment2D_slice (self : LongAff.t) key z :
  respects same_shapes (LongAff.augment2D_slice self key z).
Proof.
  unfold LongAff.augment2D_slice, LongAff.inplace_section.
  pose proof (@same_shapes_trans npfloat) as Htr.
  pose proof (@same_shapes_refl npfloat) as Hrf.
  apply respects_bind; [exact Htr|apply respects_reads; [exact Hrf|apply reads_getitem]|].
  intros _.
  apply respects_bind; [exact Htr|apply respects_reads; [exact Hrf|apply reads_rand]|].
  intros u1.
  apply respects_bind; [exact Htr| |intros _].
  { apply (respects_update key
             (λ v, set_section z (LongAff.section_map _ (get_section z v)) v)).
    intros v. split; reflexivity. }
  apply respects_bind; [exact Htr|apply respects_reads; [exact Hrf|apply reads_rand]|].
  intros u2.
  apply respects_bind; [exact Htr| |intros _].
  { apply (respects_update key
             (λ v, set_section z (LongAff.section_map _ (get_section z v)) v)).
    intros v. split; reflexivity. }
  apply respects_bind; [exact Htr|apply respects_reads; [exact Hrf|apply reads_getitem]|].
  intros v.
  apply respects_bind; [exact Htr|apply respects_reads; [exact Hrf|apply reads_rand]|].
  intros u3.
  apply (respects_update key (set_section z _)).
  intros v'. split; reflexivity.
Qed.

Lemma respects_kwargs_imgs {Y} Rel (kw : kwargs) (k : list string → M npfloat Y) :
  (∀ s, Rel s s) →
  (∀ imgs, kw_imgs kw = Some imgs → respects Rel (k imgs)) →
  respects Rel (bind (kwargs_imgs kw) k).
Proof.
  intros Hrf Hk. unfold kwargs_imgs. destruct (kw_imgs kw) as [imgs|].
  - intros w r w'. unfold bind, ret. intros H.
    eapply Hk; [reflexivity|exact H].
  - intros w r w'. unfold bind, raise. intros [= <- <-]. apply Hrf.
Qed.

Lemma respects_augment2D (self : LongAff.t) kw :
  respects same_shapes (LongAff.augment2D self kw).
Proof.
  unfold LongAff.augment2D.
  pose proof (@same_shapes_trans npfloat) as Htr.
  pose proof (@same_shapes_refl npfloat) as Hrf.
  apply respects_kwargs_imgs; [exact Hrf|]. intros imgs _.
  apply respects_for; [exact Hrf|exact Htr|]. intros key _.
  apply respects_bind; [exact Htr|apply respects_reads; [exact Hrf|apply reads_getitem]|].
  intros v. apply respects_for; [exact Hrf|exact Htr|]. intros z _.
  apply respects_augment2D_slice.
Qed.

Lemma respects_augment3D (self : LongAff.t) kw :
  respects same_shapes (LongAff.augment3D self kw).
Proof.
  unfold LongAff.augment3D.
  apply respects_kwargs_imgs; [apply same_shapes_refl|]. intros imgs _.
  apply respects_for;
    [apply same_shapes_refl|intros ? ? ?; apply same_shapes_trans|].
  intros key _. apply respects_augment3D_key.
Qed.

End ValueFrames.

(** In every mode, with any mode string and whatever the outcome (skipped,
    returned, raised, tape run out), after a call of [LongAff] every volume
    of the sample is still bound, with the shape it had. *)
Theorem longaff_keeps_shapes :
  ∀ (self : LongAff.t) (kw : kwargs)
    (sample : gmap string (volume npfloat)) (tp : list draw)
    (r : outcome unit) (w' : world npfloat),
    LongAff.__call__ self kw (World sample tp) = (r, w') →
    same_shapes sample (store w').
Proof.
  intros self kw sample tp r w' Hrun.
  change sample with (store (World sample tp)).
  revert Hrun. generalize (World sample tp). intros w Hrun.
  assert (H : respects same_shapes (LongAff.__call__ self kw));
    [|exact (H w r w' Hrun)].
  pose proof (@same_shapes_trans npfloat) as Htr.
  pose proof (@same_shapes_refl npfloat) as Hrf.
  unfold LongAff.__call__.
  destruct (LongAff.skip self) as [[|]|]; cbn [negb];
    [apply respects_reads; [exact Hrf|apply reads_ret]|
     |apply respects_reads; [exact Hrf|apply reads_raise]].
  apply respects_bind; [exact Htr| |intros m].
  { apply respects_reads; [exact Hrf|].
    destruct (str_eq _ _); [|apply reads_ret].
    apply reads_bind; [apply reads_rand|]. intros u. apply reads_ret. }
  apply respects_bind; [exact Htr| |intros _].
  - unfold when. destruct (str_is m "2D").
    + apply respects_augment2D.
    + apply respects_reads; [exact Hrf|apply reads_ret].
  - unfold when. destruct (str_is m "3D").
    + apply respects_augment3D.
    + apply respects_reads; [exact Hrf|apply reads_ret].
Qed.

Lemma longaff_keeps_shapes_witness :
  LongAff.__call__ (LongAff.Make (lit "3D") (3 # 10) (3 / 10) (3 / 10) (Some false))
    (Kwargs (Some ["input"]) None)
    (World (<["input" := full 1 1 1 2 (Finite 2)]> {[ "label" := full 1 1 1 2 (Finite 1) ]})
           [DRand (1 # 2); DRand (1 # 4); DRand 0; DInt 7])
  = (Ok tt,
     World (<["input" :=
               volume_map
                 (greyscale
                    (LongAff.contrast_scale
                       (LongAff.Make (lit "3D") (3 # 10) (3 / 10) (3 / 10) (Some false))
                       (1 # 2))
                    (LongAff.brightness_shift
                       (LongAff.Make (lit "3D") (3 # 10) (3 / 10) (3 / 10) (Some false))
                       (1 # 4))
                    (LongAff.gamma_exponent 0))
                 (full 1 1 1 2 (Finite 2))]>
              (<["input" := full 1 1 1 2 (Finite 2)]> {[ "label" := full 1 1 1 2 (Finite 1) ]}))
           [DInt 7])
  ∧ same_shapes
      (<["input" := full 1 1 1 2 (Finite 2)]> {[ "label" := full 1 1 1 2 (Finite 1) ]})
      (<["input" :=
          volume_map
            (greyscale
               (LongAff.contrast_scale
                  (LongAff.Make (lit "3D") (3 # 10) (3 / 10) (3 / 10) (Some false))
                  (1 # 2))
               (LongAff.brightness_shift
                  (LongAff.Make (lit "3D") (3 # 10) (3 / 10) (3 / 10) (Some false))
                  (1 # 4))
               (LongAff.gamma_exponent 0))
            (full 1 1 1 2 (Finite 2))]>
         (<["input" := full 1 1 1 2 (Finite 2)]> {[ "label" := full 1 1 1 2 (Finite 1) ]})).
Proof.
  assert (Hcall := call_3D_one_key
            (LongAff.Make (lit "3D") (3 # 10) (3 / 10) (3 / 10) (Some false))
            (Kwargs (Some ["input"]) None) "input"
            (<["input" := full 1 1 1 2 (Finite 2)]> {[ "label" := full 1 1 1 2 (Finite 1) ]})
            (full 1 1 1 2 (Finite 2))
            (1 # 2)%Q (1 # 4)%Q 0%Q [DInt 7] eq_refl eq_refl eq_refl
            (lookup_insert_eq _ "input" (full 1 1 1 2 (Finite 2)))
            (unit_draw_decide (1 # 2) eq_refl) (unit_draw_decide (1 # 4) eq_refl)
            (unit_draw_decide 0 eq_refl)).
  split; [exact Hcall|].
  exact (longaff_keeps_shapes
           (LongAff.Make (lit "3D") (3 # 10) (3 / 10) (3 / 10) (Some false))
           (Kwargs (Some ["input"]) None) _ _ _ _ Hcall).
Defined.

(** ** Construction *)

Lemma Qle_bool_false x y : Qle_bool x y = false → ¬ (x <= y)%Q.
Proof. intros H Hle. apply Qle_bool_iff in Hle. congruence. Qed.

(** [Blur.__init__] accepts exactly the arguments that pass its four
    setters: a non-negative [max_sec] and [sigma_max], one of the three
    mode names, a [skip_ratio] within [0, 1].  The object then holds the
    arguments as given and has no [skip] attribute; any other argument
    list raises AssertionError. *)
Theorem blur_init_validates :
  ∀ (max_sec : Z) (sm : Q) (m : string) (ratio : Q),
    (blur_args_valid max_sec sm m ratio →
     Blur.__init__ max_sec sm m ratio = Ok (Blur.Make max_sec sm m ratio None))
    ∧
    (¬ blur_args_valid max_sec sm m ratio →
     Blur.__init__ max_sec sm m ratio = Raise AssertionError).
Proof.
  intros max_sec sm m ratio.
  unfold blur_args_valid, Blur.__init__, Blur.set_max_sections,
    Blur.set_sigma_max, Blur.set_mode, Blur.set_skip_ratio, Blur.blank.
  destruct (0 <=? max_sec)%Z eqn:H1; cbn [and_then Blur.MAX_SEC Blur.sigma_max
    Blur.mode Blur.skip_ratio Blur.skip].
  2:{ apply Z.leb_gt in H1. split; [intros (? & _); lia|reflexivity]. }
  apply Z.leb_le in H1.
  destruct (Qle_bool 0 sm) eqn:H2; cbn [and_then Blur.MAX_SEC Blur.sigma_max
    Blur.mode Blur.skip_ratio Blur.skip].
  2:{ apply Qle_bool_false in H2.
      split; [intros (_ & ? & _); contradiction|reflexivity]. }
  apply Qle_bool_iff in H2.
  destruct (bool_decide (m = "full") || bool_decide (m = "partial")
            || bool_decide (m = "mix")) eqn:H3;
    cbn [and_then Blur.MAX_SEC Blur.sigma_max Blur.mode Blur.skip_ratio Blur.skip].
  2:{ apply orb_false_iff in H3 as [H3 H3c].
      apply orb_false_iff in H3 as [H3a H3b].
      apply bool_decide_eq_false in H3a, H3b, H3c.
      split; [intros (_ & _ & [?|[?|?]] & _); contradiction|reflexivity]. }
  assert (Hm : m = "full" ∨ m = "partial" ∨ m = "mix").
  { apply orb_true_iff in H3 as [H3|H3];
      [apply orb_true_iff in H3 as [H3|H3]|];
      apply bool_decide_eq_true in H3; auto. }
  destruct (Qle_bool 0 ratio) eqn:H4; cbn [andb].
  2:{ apply Qle_bool_false in H4.
      split; [intros (_ & _ & _ & ? & _); contradiction|reflexivity]. }
  destruct (Qle_bool ratio 1) eqn:H5.
  2:{ apply Qle_bool_false in H5.
      split; [intros (_ & _ & _ & _ & ?); contradiction|reflexivity]. }
  apply Qle_bool_iff in H4, H5.
  split; [reflexivity|]. intros Hn. destruct Hn. auto.
Qed.

(** [LongAff.__init__] accepts exactly a mode string with the characters
    of one of the three mode names (it compares with [==]) and a
    [skip_ratio] within [0, 1]; the object then holds them, both factors
    are 0.3 and there is no [skip] attribute.  Any other argument list
    raises AssertionError. *)
Theorem longaff_init_validates :
  ∀ (m : pystr) (ratio : Q),
    (longaff_args_valid m ratio →
     LongAff.__init__ m ratio
     = Ok (LongAff.Make m ratio (3 / 10) (3 / 10) None))
    ∧
    (¬ longaff_args_valid m ratio →
     LongAff.__init__ m ratio = Raise AssertionError).
Proof.
  intros m ratio.
  unfold longaff_args_valid, LongAff.__init__, LongAff.set_mode,
    LongAff.set_skip_ratio, LongAff.blank, str_eq.
  destruct (bool_decide (chars m = "2D") || bool_decide (chars m = "3D")
            || bool_decide (chars m = "mix")) eqn:H3;
    cbn [and_then LongAff.mode LongAff.skip_ratio LongAff.skip
         LongAff.CONTRAST_FACTOR LongAff.BRIGHTNESS_FACTOR].
  2:{ apply orb_false_iff in H3 as [H3 H3c].
      apply orb_false_iff in H3 as [H3a H3b].
      apply bool_decide_eq_false in H3a, H3b, H3c.
      split; [intros ([?|[?|?]] & _); contradiction|reflexivity]. }
  assert (Hm : chars m = "2D" ∨ chars m = "3D" ∨ chars m = "mix").
  { apply orb_true_iff in H3 as [H3|H3];
      [apply orb_true_iff in H3 as [H3|H3]|];
      apply bool_decide_eq_true in H3; auto. }
  destruct (Qle_bool 0 ratio) eqn:H4; cbn [andb].
  2:{ apply Qle_bool_false in H4.
      split; [intros (_ & ? & _); contradiction|reflexivity]. }
  destruct (Qle_bool ratio 1) eqn:H5.
  2:{ apply Qle_bool_false in H5.
      split; [intros (_ & _ & ?); contradiction|reflexivity]. }
  apply Qle_bool_iff in H4, H5.
  split; [reflexivity|]. intros Hn. destruct Hn. auto.
Qed.

(** ** A skip ratio of zero *)

Lemma Qltb_above_zero u r : (0 <= u)%Q → (r == 0)%Q → Qltb u r = false.
Proof.
  intros Hu Hr. unfold Qltb. apply negb_false_iff, Qle_bool_iff.
  rewrite Hr. exact Hu.
Qed.

(** With [skip_ratio = 0.0], whatever [prepare] draws, the flag it sets is
    False: the paired [__call__] of [Blur] is [augment], and that of
    [LongAff] is not skipped either. *)
Theorem skip_ratio_zero_never_skips :
  (∀ (A S : Type) (gaussian_filter : list (plane A) → Q → list (plane A))
     (self self' : Blur.t) (spec spec' : S) (w0 w1 : world A),
      (Blur.skip_ratio self == 0)%Q →
      Blur.prepare self spec w0 = (Ok (self', spec'), w1) →
      Blur.skip self' = Some false ∧
      ∀ (kw : kwargs) (w : world A),
        Blur.__call__ gaussian_filter self' kw w
        = Blur.augment gaussian_filter self' kw w)
  ∧
  (∀ (S : Type) (self self' : LongAff.t) (spec spec' : S) (w0 w1 : world npfloat),
      (LongAff.skip_ratio self == 0)%Q →
      LongAff.prepare self spec w0 = (Ok (self', spec'), w1) →
      LongAff.skip self' = Some false).
Proof.
  split.
  - intros A S gf self self' spec spec' w0 w1 Hr Hp.
    apply Blur_prepare_Ok in Hp as (u & Hu & _ & _ & Hs & _).
    rewrite (Qltb_above_zero _ _ Hu Hr) in Hs.
    split; [exact Hs|]. intros kw w. unfold Blur.__call__. rewrite Hs.
    reflexivity.
  - intros S self self' spec spec' w0 w1 Hr Hp.
    apply LongAff_prepare_Ok in Hp as (u & Hu & _ & _ & Hs & _).
    rewrite (Qltb_above_zero _ _ Hu Hr) in Hs. exact Hs.
Qed.

Lemma skip_ratio_zero_never_skips_witness :
  ((0 == 0)%Q ∧
   Blur.prepare (Blur.Make 1 5 "full" 0 None) tt
     (World (∅ : gmap string (volume Q)) [DRand 0])
   = (Ok (Blur.Make 1 5 "full" 0 (Some false), tt), World ∅ []) ∧
   Blur.skip (Blur.Make 1 5 "full" 0 (Some false)) = Some false)
  ∧
  ((0 == 0)%Q ∧
   LongAff.prepare (LongAff.Make (lit "3D") 0 (3 / 10) (3 / 10) None) tt
     (World ∅ [DRand 0])
   = (Ok (LongAff.Make (lit "3D") 0 (3 / 10) (3 / 10) (Some false), tt), World ∅ []) ∧
   LongAff.skip (LongAff.Make (lit "3D") 0 (3 / 10) (3 / 10) (Some false)) = Some false).
Proof.
  split.
  - assert (H0 : (0 == 0)%Q) by reflexivity.
    split; [exact H0|]. split; [reflexivity|].
    exact (proj1 (proj1 skip_ratio_zero_never_skips Q unit box_filter
                    (Blur.Make 1 5 "full" 0 None) _ tt tt
                    (World ∅ [DRand 0]) (World ∅ []) H0 eq_refl)).
  - assert (H0 : (0 == 0)%Q) by reflexivity.
    split; [exact H0|]. split; [reflexivity|].
    exact (proj2 skip_ratio_zero_never_skips unit
             (LongAff.Make (lit "3D") 0 (3 / 10) (3 / 10) None) _ tt tt
             (World ∅ [DRand 0]) (World ∅ []) H0 eq_refl).
Defined.

(** ** Blur: arguments it cannot work with *)

(** A call of [Blur] that is not skipped first draws the number of
    sections, and only then looks at its arguments.  Without the keyword
    [imgs] it raises KeyError; with an empty [imgs] the set of shapes is
    empty and the assertion on its size raises AssertionError; with a
    first key that the sample does not hold it raises KeyError.  In each
    case the sample is as it was and one draw has been used. *)
Theorem blur_call_rejects_bad_imgs :
  ∀ (A : Type) (gaussian_filter : list (plane A) → Q → list (plane A))
    (self : Blur.t) (sample : gmap string (volume A)) (n : Z)
    (rest : list draw),
    Blur.skip self = Some false →
    (1 <= n <= Blur.MAX_SEC self)%Z →
    (∀ kw, kw_imgs kw = None →
       Blur.__call__ gaussian_filter self kw (World sample (DInt n :: rest))
       = (Raise KeyError, World sample rest))
    ∧
    (∀ kw, kw_imgs kw = Some [] →
       Blur.__call__ gaussian_filter self kw (World sample (DInt n :: rest))
       = (Raise AssertionError, World sample rest))
    ∧
    (∀ kw key imgs, kw_imgs kw = Some (key :: imgs) → sample !! key = None →
       Blur.__call__ gaussian_filter self kw (World sample (DInt n :: rest))
       = (Raise KeyError, World sample rest)).
Proof.
  intros A gf self sample n rest Hs Hn.
  assert (Hdraw : randint 1 (Blur.MAX_SEC self + 1) (World sample (DInt n :: rest))
                  = (Ok n, World sample rest)) by (apply randint_run; lia).
  repeat split.
  - intros kw Hkw. unfold Blur.__call__. rewrite Hs. cbn [negb].
    unfold Blur.augment. rewrite (bind_step _ _ _ _ _ Hdraw).
    unfold kwargs_imgs. rewrite Hkw. reflexivity.
  - intros kw Hkw. unfold Blur.__call__. rewrite Hs. cbn [negb].
    unfold Blur.augment. rewrite (bind_step _ _ _ _ _ Hdraw).
    unfold kwargs_imgs. rewrite Hkw. reflexivity.
  - intros kw key imgs Hkw Hk. unfold Blur.__call__. rewrite Hs. cbn [negb].
    unfold Blur.augment. rewrite (bind_step _ _ _ _ _ Hdraw).
    unfold kwargs_imgs. rewrite Hkw.
    rewrite (bind_step _ _ _ (key :: imgs) (World sample rest) eq_refl).
    apply bind_raise. cbn [Blur.collect_dims]. apply bind_raise.
    unfold getitem. cbn [store]. rewrite Hk. reflexivity.
Qed.

Lemma blur_call_rejects_bad_imgs_witness :
  Blur.__call__ box_filter (Blur.Make 2 5 "full" (3 # 10) (Some false))
    (Kwargs None None)
    (World {[ "input" := full 1 3 2 2 1%Q ]} [DInt 2; DChoice [0; 1]])
  = (Raise KeyError, World {[ "input" := full 1 3 2 2 1%Q ]} [DChoice [0; 1]])
  ∧
  Blur.__call__ box_filter (Blur.Make 2 5 "full" (3 # 10) (Some false))
    (Kwargs (Some []) None)
    (World {[ "input" := full 1 3 2 2 1%Q ]} [DInt 2; DChoice [0; 1]])
  = (Raise AssertionError, World {[ "input" := full 1 3 2 2 1%Q ]} [DChoice [0; 1]])
  ∧
  Blur.__call__ box_filter (Blur.Make 2 5 "full" (3 # 10) (Some false))
    (Kwargs (Some ["label"; "input"]) None)
    (World {[ "input" := full 1 3 2 2 1%Q ]} [DInt 2; DChoice [0; 1]])
  = (Raise KeyError, World {[ "input" := full 1 3 2 2 1%Q ]} [DChoice [0; 1]]).
Proof.
  assert (Hn : (1 <= 2 <= Blur.MAX_SEC (Blur.Make 2 5 "full" (3 # 10) (Some false)))%Z)
    by (simpl; lia).
  pose proof (blur_call_rejects_bad_imgs Q box_filter
                (Blur.Make 2 5 "full" (3 # 10) (Some false))
                {[ "input" := full 1 3 2 2 1%Q ]} 2%Z [DChoice [0; 1]]
                eq_refl Hn) as (H1 & H2 & H3).
  split; [exact (H1 (Kwargs None None) eq_refl)|].
  split; [exact (H2 (Kwargs (Some []) None) eq_refl)|].
  exact (H3 (Kwargs (Some ["label"; "input"]) None) "label" ["input"]
            eq_refl eq_refl).
Defined.

(** ** LongAff: which augmentation runs *)

Lemma bind_ret_tt {A} (m : M A unit) w : bind m (λ _, ret tt) w = m w.
Proof. unfold bind, ret. destruct (m w) as [[[]|e|] w1]; reflexivity. Qed.

(** Which augmentation a call of [LongAff] that is not skipped runs.  With
    the mode the object of the literal '2D' it is [augment2D], with that of
    '3D' it is [augment3D], with no draw of its own; with a mode of the
    characters 'mix' one draw decides: above 0.5 it is [augment3D],
    otherwise [augment2D], on the rest of the tape.  With any other mode,
    and so with a string of the characters '2D' or '3D' that is not the
    object of the literal, [mode is '2D'] and [mode is '3D'] are both
    false: the call runs neither and returns with the sample and the tape
    as they were. *)
Theorem longaff_call_dispatch :
  ∀ (self : LongAff.t) (kw : kwargs),
    LongAff.skip self = Some false →
    (LongAff.mode self = lit "2D" →
     ∀ w, LongAff.__call__ self kw w = LongAff.augment2D self kw w)
    ∧
    (LongAff.mode self = lit "3D" →
     ∀ w, LongAff.__call__ self kw w = LongAff.augment3D self kw w)
    ∧
    (chars (LongAff.mode self) = "mix" →
     ∀ s u t, unit_draw u →
       LongAff.__call__ self kw (World s (DRand u :: t))
       = if Qltb (1 # 2) u
         then LongAff.augment3D self kw (World s t)
         else LongAff.augment2D self kw (World s t))
    ∧
    (chars (LongAff.mode self) ≠ "mix" →
     LongAff.mode self ≠ lit "2D" → LongAff.mode self ≠ lit "3D" →
     ∀ w, LongAff.__call__ self kw w = (Ok tt, w)).
Proof.
  intros self kw Hs. unfold LongAff.__call__. rewrite Hs. cbn [negb].
  assert (H2 : str_is (lit "2D") "2D" = true ∧ str_is (lit "2D") "3D" = false).
  { split; reflexivity. }
  assert (H3 : str_is (lit "3D") "2D" = false ∧ str_is (lit "3D") "3D" = true).
  { split; reflexivity. }
  destruct H2 as [H22 H23], H3 as [H32 H33].
  split; [|split; [|split]].
  - intros Hm w. rewrite Hm.
    replace (str_eq (lit "2D") "mix") with false by reflexivity.
    rewrite (bind_step (ret (lit "2D")) _ w (lit "2D") w eq_refl).
    rewrite H22, H23. unfold when. apply bind_ret_tt.
  - intros Hm w. rewrite Hm.
    replace (str_eq (lit "3D") "mix") with false by reflexivity.
    rewrite (bind_step (ret (lit "3D")) _ w (lit "3D") w eq_refl).
    rewrite H32, H33.
    unfold when. rewrite (bind_step (ret tt) _ w tt w eq_refl). reflexivity.
  - intros Hm s u t [Hu0 Hu1]. unfold str_eq at 1.
    rewrite (bool_decide_eq_true_2 _ Hm).
    rewrite (bind_step _ _ _ (if Qltb (1 # 2) u then lit "3D" else lit "2D")
               (World s t)).
    2:{ rewrite (bind_step _ _ _ u (World s t)) by (apply rand_run; assumption).
        reflexivity. }
    destruct (Qltb (1 # 2) u).
    + rewrite H32, H33.
      unfold when. rewrite (bind_step (ret tt) _ _ tt (World s t) eq_refl).
      reflexivity.
    + rewrite H22, H23. unfold when. apply bind_ret_tt.
  - intros Hmix Hn2 Hn3 w. unfold str_eq.
    rewrite (bool_decide_eq_false_2 _ Hmix).
    rewrite (bind_step (ret (LongAff.mode self)) _ w (LongAff.mode self) w eq_refl).
    assert (Hno : ∀ c, LongAff.mode self ≠ lit c →
                       str_is (LongAff.mode self) c = false).
    { intros c Hc. unfold str_is. destruct (LongAff.mode self) as [cs [|]];
        cbn [interned chars andb]; [|reflexivity].
      apply bool_decide_eq_false_2. intros ->. apply Hc. reflexivity. }
    rewrite (Hno "2D" Hn2), (Hno "3D" Hn3). reflexivity.
Qed.

Lemma longaff_call_dispatch_witness :
  (LongAff.__call__ (LongAff.Make (lit "mix") (3 # 10) (3 / 10) (3 / 10) (Some false))
     (Kwargs (Some []) None) (World ∅ [DRand (3 # 4); DInt 7])
   = (if Qltb (1 # 2) (3 # 4)
      then LongAff.augment3D
             (LongAff.Make (lit "mix") (3 # 10) (3 / 10) (3 / 10) (Some false))
             (Kwargs (Some []) None) (World ∅ [DInt 7])
      else LongAff.augment2D
             (LongAff.Make (lit "mix") (3 # 10) (3 / 10) (3 / 10) (Some false))
             (Kwargs (Some []) None) (World ∅ [DInt 7])))
  ∧
  LongAff.__call__
    (LongAff.Make (PyStr "3D" false) (3 # 10) (3 / 10) (3 / 10) (Some false))
    (Kwargs (Some ["input"]) None)
    (World {[ "input" := full 1 1 1 1 (Finite 2) ]} [DRand (3 # 4); DInt 7])
  = (Ok tt, World {[ "input" := full 1 1 1 1 (Finite 2) ]} [DRand (3 # 4); DInt 7]).
Proof.
  split.
  - exact (proj1 (proj2 (proj2 (longaff_call_dispatch
                           (LongAff.Make (lit "mix") (3 # 10) (3 / 10) (3 / 10) (Some false))
                           (Kwargs (Some []) None) eq_refl)))
             eq_refl ∅ (3 # 4)%Q [DInt 7] (unit_draw_decide (3 # 4) eq_refl)).
  - assert (Hmix : chars (PyStr "3D" false) ≠ "mix") by discriminate.
    assert (Hn2 : PyStr "3D" false ≠ lit "2D") by discriminate.
    assert (Hn3 : PyStr "3D" false ≠ lit "3D") by discriminate.
    exact (proj2 (proj2 (proj2 (longaff_call_dispatch
                           (LongAff.Make (PyStr "3D" false) (3 # 10) (3 / 10) (3 / 10)
                                         (Some false))
                           (Kwargs (Some ["input"]) None) eq_refl)))
             Hmix Hn2 Hn3 _).
Defined.

(** ** LongAff: the size of the perturbation *)

Lemma clip01_mono a a' : (a <= a')%R → (LongAff.clip01 a <= LongAff.clip01 a')%R.
Proof.
  intros H. unfold LongAff.clip01, Rmin, Rmax.
  repeat destruct (Rle_dec _ _); lra.
Qed.

Lemma np_power_mono a a' g :
  (0 <= a)%R → (a <= a')%R → (0 < g)%R →
  (LongAff.np_power a g <= LongAff.np_power a' g)%R.
Proof.
  intros Ha Hle Hg. unfold LongAff.np_power.
  destruct (Rlt_dec 0 a) as [Hpos|Hz]; destruct (Rlt_dec 0 a') as [Hpos'|Hz'].
  - apply Rle_Rpower_l; lra.
  - lra.
  - left. unfold Rpower. apply exp_pos.
  - lra.
Qed.

(** For an object built by [__init__] and prepared, the factor by which a
    pixel is multiplied lies in [0.85, 1.15) and the shift that is added in
    [-0.15, 0.15), whatever is drawn; and the whole chain (scale, shift,
    clip, gamma) never reverses the order of two pixel values: a brighter
    input pixel does not come out darker under the same draws. *)
Theorem greyscale_factors_and_order :
  ∀ (S : Type) (m : pystr) (ratio : Q) (self0 self : LongAff.t)
    (spec spec' : S) (w0 w1 : world npfloat) (u1 u2 u3 : Q),
    LongAff.__init__ m ratio = Ok self0 →
    LongAff.prepare self0 spec w0 = (Ok (self, spec'), w1) →
    unit_draw u1 → unit_draw u2 → unit_draw u3 →
    (17 / 20 <= LongAff.contrast_scale self u1 < 23 / 20)%R ∧
    (- (3 / 20) <= LongAff.brightness_shift self u2 < 3 / 20)%R ∧
    ∀ a a' : R, (a <= a')%R →
      (perturb (LongAff.contrast_scale self u1) (LongAff.brightness_shift self u2)
               (LongAff.gamma_exponent u3) a
       <= perturb (LongAff.contrast_scale self u1) (LongAff.brightness_shift self u2)
                  (LongAff.gamma_exponent u3) a')%R.
Proof.
  intros S m ratio self0 self spec spec' w0 w1 u1 u2 u3 Hi Hp [H1 H1'] [H2 H2'] _.
  assert (Hc : LongAff.CONTRAST_FACTOR self = (3 / 10)%R
               ∧ LongAff.BRIGHTNESS_FACTOR self = (3 / 10)%R).
  { unfold LongAff.prepare in Hp.
    apply bind_Ok in Hp as (u & w2 & _ & Hp). unfold ret in Hp.
    injection Hp as <- _ _. cbn [LongAff.CONTRAST_FACTOR LongAff.BRIGHTNESS_FACTOR].
    unfold LongAff.__init__ in Hi.
    apply and_then_Ok in Hi as (s1 & _ & Hi).
    apply and_then_Ok in Hi as (s2 & _ & Hi).
    injection Hi as <-. split; reflexivity. }
  destruct Hc as [Hcf Hbf].
  pose proof (Q2R_unit_interval u1 H1 H1') as Hq1.
  pose proof (Q2R_unit_interval u2 H2 H2') as Hq2.
  assert (Hcs : (17 / 20 <= LongAff.contrast_scale self u1 < 23 / 20)%R).
  { unfold LongAff.contrast_scale. rewrite Hcf. lra. }
  split; [exact Hcs|]. split.
  { unfold LongAff.brightness_shift. rewrite Hbf. lra. }
  intros a a' Hle. unfold perturb.
  apply np_power_mono; [apply clip01_range| |apply gamma_exponent_pos].
  apply clip01_mono. nra.
Qed.

Lemma greyscale_factors_and_order_witness :
  (17 / 20 <= LongAff.contrast_scale
                (LongAff.Make (lit "3D") (3 # 10) (3 / 10) (3 / 10) (Some false)) (1 # 2)
   < 23 / 20)%R ∧
  (- (3 / 20) <= LongAff.brightness_shift
                   (LongAff.Make (lit "3D") (3 # 10) (3 / 10) (3 / 10) (Some false)) (1 # 4)
   < 3 / 20)%R ∧
  ∀ a a' : R, (a <= a')%R →
    (perturb (LongAff.contrast_scale
                (LongAff.Make (lit "3D") (3 # 10) (3 / 10) (3 / 10) (Some false)) (1 # 2))
             (LongAff.brightness_shift
                (LongAff.Make (lit "3D") (3 # 10) (3 / 10) (3 / 10) (Some false)) (1 # 4))
             (LongAff.gamma_exponent 0) a
     <= perturb (LongAff.contrast_scale
                   (LongAff.Make (lit "3D") (3 # 10) (3 / 10) (3 / 10) (Some false)) (1 # 2))
                (LongAff.brightness_shift
                   (LongAff.Make (lit "3D") (3 # 10) (3 / 10) (3 / 10) (Some false)) (1 # 4))
                (LongAff.gamma_exponent 0) a')%R.
Proof.
  exact (greyscale_factors_and_order unit (lit "3D") (3 # 10)%Q
           (LongAff.Make (lit "3D") (3 # 10) (3 / 10) (3 / 10) None)
           (LongAff.Make (lit "3D") (3 # 10) (3 / 10) (3 / 10) (Some false))
           tt tt (World ∅ [DRand (1 # 2)]) (World ∅ [])
           (1 # 2)%Q (1 # 4)%Q 0%Q eq_refl eq_refl
           (unit_draw_decide (1 # 2) eq_refl) (unit_draw_decide (1 # 4) eq_refl)
           (unit_draw_decide 0 eq_refl)).
Defined.

(** ** Flip: two calls in a row *)

Lemma Flip_call_rule {A} (flip : volume A → rule4 → volume A) kw
    (sample : gmap string (volume A)) tp rule :
  kw_rule kw = Some rule →
  Flip.__call__ flip kw (World sample tp)
  = (Ok tt, World ((λ v, flip v rule) <$> sample) tp).
Proof.
  intros Hr. unfold Flip.__call__. rewrite Hr.
  rewrite (bind_step _ _ _ rule (World sample tp)) by reflexivity.
  rewrite (bind_step _ _ _ (map_to_list sample) (World sample tp))
    by reflexivity.
  rewrite (for_setitem (λ v, flip v rule)), foldl_insert_image_fmap.
  reflexivity.
Qed.

(** Two calls of [Flip] with given rules, one after the other, leave the
    keys of the sample as they were, use no draw, and bind every key to
    its volume flipped by the first rule and then by the second.  When the
    second flip undoes the first on every volume of the sample, the sample
    is back as it was. *)
Theorem flip_calls_compose :
  ∀ (A : Type) (flip : volume A → rule4 → volume A) (kw1 kw2 : kwargs)
    (sample : gmap string (volume A)) (tp : list draw) (rule1 rule2 : rule4),
    kw_rule kw1 = Some rule1 → kw_rule kw2 = Some rule2 →
    (Flip.__call__ flip kw1 ;;' Flip.__call__ flip kw2) (World sample tp)
    = (Ok tt, World ((λ v, flip (flip v rule1) rule2) <$> sample) tp)
    ∧ dom ((λ v, flip (flip v rule1) rule2) <$> sample) = dom sample
    ∧ ((∀ key v, sample !! key = Some v → flip (flip v rule1) rule2 = v) →
       (Flip.__call__ flip kw1 ;;' Flip.__call__ flip kw2) (World sample tp)
       = (Ok tt, World sample tp)).
Proof.
  intros A flip kw1 kw2 sample tp rule1 rule2 H1 H2.
  assert (Hrun : (Flip.__call__ flip kw1 ;;' Flip.__call__ flip kw2) (World sample tp)
                 = (Ok tt, World ((λ v, flip (flip v rule1) rule2) <$> sample) tp)).
  { rewrite (bind_step _ _ _ tt _ (Flip_call_rule flip kw1 sample tp rule1 H1)).
    rewrite (Flip_call_rule flip kw2 _ tp rule2 H2).
    rewrite <- map_fmap_compose. reflexivity. }
  split; [exact Hrun|]. split; [apply dom_fmap_L|].
  intros Hinv. rewrite Hrun. f_equal. f_equal.
  apply map_eq. intros k. rewrite lookup_fmap.
  destruct (sample !! k) as [v|] eqn:Hk; [|reflexivity].
  simpl. f_equal. eapply Hinv, Hk.
Qed.

Lemma flip_calls_compose_witness :
  (Flip.__call__ flip (Kwargs None (Some (false, true, false, false))) ;;'
   Flip.__call__ flip (Kwargs None (Some (false, false, true, false))))
    (World {[ "a" := Volume 1 1 2 2 [[ [[1; 2]; [3; 4]] ]];
              "b" := Volume 1 1 2 1 [[ [[5]; [6]] ]] ]} [DRand 0])
  = (Ok tt,
     World {[ "a" := Volume 1 1 2 2 [[ [[4; 3]; [2; 1]] ]];
              "b" := Volume 1 1 2 1 [[ [[6]; [5]] ]] ]} [DRand 0]).
Proof.
  rewrite (proj1 (flip_calls_compose nat flip
                    (Kwargs None (Some (false, true, false, false)))
                    (Kwargs None (Some (false, false, true, false)))
                    _ _ (false, true, false, false) (false, false, true, false)
                    eq_refl eq_refl)).
  reflexivity.
Defined.

(** ** Runs that return *)




Section BlurReturns.
Context {A : Type}.
Variable gf : list (plane A) → Q → list (plane A).
Variable self : Blur.t.



End BlurReturns.



Section LongAffReturns.
Variable self : LongAff.t.

Lemma augment3D_for_run :
  ∀ imgs (s : gmap string (volume npfloat)) us rest,
    (∀ key, key ∈ imgs → key ∈ dom s) →
    Forall unit_draw us → length us = 3 * length imgs →
    ∃ s', for_ imgs (LongAff.augment3D_key self)
            (World s ((DRand <$> us) ++ rest))
          = (Ok tt, World s' rest) ∧ dom s' = dom s.
Proof.
  induction imgs as [|key imgs IH]; intros s us rest Hin Hus Hlen.
  - destruct us; [|discriminate]. exists s. split; reflexivity.
  - destruct us as [|u1 [|u2 [|u3 us]]]; try (simpl in Hlen; lia).
    apply Forall_cons in Hus as [H1 Hus]. apply Forall_cons in Hus as [H2 Hus].
    apply Forall_cons in Hus as [H3 Hus].
    assert (Hk : key ∈ dom s) by (apply Hin, elem_of_cons; left; reflexivity).
    apply elem_of_dom in Hk as Hsome. destruct Hsome as [v Hv].
    pose proof (augment3D_key_run self key s v u1 u2 u3
                  ((DRand <$> us) ++ rest) Hv H1 H2 H3) as Hrun1.
    set (v1 := volume_map _ v) in Hrun1.
    assert (Hdom : dom (<[key := v1]> s) = dom s).
    { apply dom_insert_lookup_L. eauto. }
    destruct (IH (<[key := v1]> s) us rest) as (s' & Hrun & Hd).
    { intros k Hk'. rewrite Hdom. apply Hin, elem_of_cons. right. exact Hk'. }
    { exact Hus. }
    { simpl in Hlen. lia. }
    exists s'. split; [|rewrite Hd; exact Hdom].
    cbn [for_]. rewrite !fmap_cons. cbn [app].
    rewrite (bind_step _ _ _ tt _ Hrun1). exact Hrun.
Qed.

Lemma slices_loop_run key :
  ∀ zl (s : gmap string (volume npfloat)) v us rest,
    s !! key = Some v →
    Forall (λ ch, length ch = zext v) (voxels v) →
    (∀ z, z ∈ zl → z < zext v) →
    Forall unit_draw us → length us = 3 * length zl →
    ∃ v', for_ zl (LongAff.augment2D_slice self key)
            (World s ((DRand <$> us) ++ rest))
          = (Ok tt, World (<[key := v']> s) rest)
          ∧ zext v' = zext v
          ∧ Forall (λ ch, length ch = zext v') (voxels v').
Proof.
  induction zl as [|z zl IH]; intros s v us rest Hv Hch Hzl Hus Hlen.
  - destruct us; [|discriminate]. exists v.
    rewrite (insert_id s key v Hv). repeat split. exact Hch.
  - destruct us as [|u1 [|u2 [|u3 us]]]; try (simpl in Hlen; lia).
    apply Forall_cons in Hus as [H1 Hus]. apply Forall_cons in Hus as [H2 Hus].
    apply Forall_cons in Hus as [H3 Hus].
    assert (Hz : z < zext v) by (apply Hzl, elem_of_cons; left; reflexivity).
    assert (Hzch : Forall (λ ch, z < length ch) (voxels v)).
    { eapply Forall_impl; [exact Hch|]. intros ch Hc. simpl in Hc. lia. }
    pose proof (augment2D_slice_run self key z s v u1 u2 u3
                  ((DRand <$> us) ++ rest) Hv Hzch H1 H2 H3) as Hrun1.
    set (v1 := set_section z _ v) in Hrun1.
    destruct (IH (<[key := v1]> s) v1 us rest) as (v' & Hrun & Hz' & Hch').
    { apply lookup_insert_eq. }
    { apply (set_section_chan_lengths z _ v (λ n, n = zext v)), Hch. }
    { intros z' Hz''. apply Hzl, elem_of_cons. right. exact Hz''. }
    { exact Hus. }
    { simpl in Hlen. lia. }
    exists v'. split; [|split; [exact Hz'|exact Hch']].
    cbn [for_]. rewrite !fmap_cons. cbn [app].
    rewrite (bind_step _ _ _ tt _ Hrun1). rewrite Hrun.
    rewrite insert_insert_eq. reflexivity.
Qed.

Lemma augment2D_for_run :
  ∀ imgs (s : gmap string (volume npfloat)) us rest,
    (∀ key, key ∈ imgs → key ∈ dom s) → sections_agree s →
    Forall unit_draw us →
    length us = 3 * sum_list (extent s <$> imgs) →
    ∃ s', for_ imgs (λ key,
            v ←' getitem key;
            for_ (seq 0 (zext v)) (LongAff.augment2D_slice self key))
            (World s ((DRand <$> us) ++ rest))
          = (Ok tt, World s' rest) ∧ dom s' = dom s.
Proof.
  induction imgs as [|key imgs IH]; intros s us rest Hin Hag Hus Hlen.
  - destruct us; [|discriminate]. exists s. split; reflexivity.
  - assert (Hk : key ∈ dom s) by (apply Hin, elem_of_cons; left; reflexivity).
    apply elem_of_dom in Hk as Hsome. destruct Hsome as [v Hv].
    change (sum_list (extent s <$> key :: imgs))
      with (extent s key + sum_list (extent s <$> imgs)) in Hlen.
    assert (He : extent s key = zext v) by (unfold extent; rewrite Hv; reflexivity).
    rewrite He in Hlen.
    rewrite <- (take_drop (3 * zext v) us) in Hus |- *.
    apply Forall_app in Hus as [Hus1 Hus2].
    rewrite fmap_app, <- app_assoc.
    destruct (slices_loop_run key (seq 0 (zext v)) s v (take (3 * zext v) us)
                ((DRand <$> drop (3 * zext v) us) ++ rest))
      as (v' & Hrun1 & Hz' & Hch'); [exact Hv|exact (Hag key v Hv)| |exact Hus1| |].
    { intros z Hz. apply elem_of_seq in Hz. lia. }
    { rewrite length_take, length_seq. lia. }
    assert (Hdom : dom (<[key := v']> s) = dom s).
    { apply dom_insert_lookup_L. eauto. }
    assert (Hext : ∀ k, extent (<[key := v']> s) k = extent s k).
    { intros k. unfold extent. destruct (decide (k = key)) as [-> | Hne].
      - rewrite lookup_insert_eq, Hv. exact Hz'.
      - rewrite lookup_insert_ne by congruence. reflexivity. }
    destruct (IH (<[key := v']> s) (drop (3 * zext v) us) rest)
      as (s' & Hrun & Hd).
    { intros k Hk'. rewrite Hdom. apply Hin, elem_of_cons. right. exact Hk'. }
    { intros k u Hu. destruct (decide (k = key)) as [-> | Hne].
      - rewrite lookup_insert_eq in Hu. injection Hu as <-. exact Hch'.
      - rewrite lookup_insert_ne in Hu by congruence. apply (Hag k u Hu). }
    { exact Hus2. }
    { rewrite length_drop.
      rewrite (list_fmap_ext (extent (<[key := v']> s)) (extent s) imgs)
        by (intros i k _; apply Hext).
      lia. }
    exists s'. split; [|rewrite Hd; exact Hdom].
    cbn [for_].
    rewrite (bind_step _ _ _ tt (World (<[key := v']> s)
               ((DRand <$> drop (3 * zext v) us) ++ rest)));
      [exact Hrun|].
    rewrite (bind_step _ _ _ v _ (getitem_run key s v _ Hv)).
    exact Hrun1.
Qed.

End LongAffReturns.

(** [LongAff] with the mode the object of the literal '2D' or '3D'
    returns whenever every key of [imgs] is in the sample, the arrays hold as many sections as their shape
    says, and [np.random] answers as it can: three draws per key in mode
    '3D', three draws per section of every key in mode '2D'.  The call
    uses exactly these draws and binds the same keys as before. *)
Theorem longaff_returns :
  ∀ (self : LongAff.t) (kw : kwargs) (imgs : list string)
    (sample : gmap string (volume npfloat)) (us : list Q) (rest : list draw),
    LongAff.skip self = Some false →
    kw_imgs kw = Some imgs →
    (∀ key, key ∈ imgs → is_Some (sample !! key)) →
    sections_agree sample →
    Forall unit_draw us →
    (LongAff.mode self = lit "3D" ∧ length us = 3 * length imgs)
    ∨ (LongAff.mode self = lit "2D"
       ∧ length us = 3 * sum_list (extent sample <$> imgs)) →
    ∃ s',
      LongAff.__call__ self kw (World sample ((DRand <$> us) ++ rest))
      = (Ok tt, World s' rest)
      ∧ dom s' = dom sample.
Proof.
  intros self kw imgs sample us rest Hs Hkw Hin Hag Hus Hmode.
  assert (Hin' : ∀ key, key ∈ imgs → key ∈ dom sample).
  { intros key Hk. apply elem_of_dom, Hin, Hk. }
  unfold LongAff.__call__. rewrite Hs. cbn [negb].
  destruct Hmode as [[Hm Hlen] | [Hm Hlen]]; rewrite Hm.
  - replace (str_eq (lit "3D") "mix") with false by reflexivity.
    rewrite (bind_step (ret (lit "3D")) _ _ (lit "3D") _ eq_refl).
    replace (str_is (lit "3D") "2D") with false by reflexivity.
    replace (str_is (lit "3D") "3D") with true by reflexivity.
    unfold when. rewrite (bind_step (ret tt) _ _ tt _ eq_refl).
    unfold LongAff.augment3D, kwargs_imgs. rewrite Hkw.
    rewrite (bind_step (ret imgs) _ _ imgs _ eq_refl).
    apply augment3D_for_run; assumption.
  - replace (str_eq (lit "2D") "mix") with false by reflexivity.
    rewrite (bind_step (ret (lit "2D")) _ _ (lit "2D") _ eq_refl).
    replace (str_is (lit "2D") "2D") with true by reflexivity.
    replace (str_is (lit "2D") "3D") with false by reflexivity.
    unfold when. rewrite bind_ret_tt.
    unfold LongAff.augment2D, kwargs_imgs. rewrite Hkw.
    rewrite (bind_step (ret imgs) _ _ imgs _ eq_refl).
    apply augment2D_for_run; assumption.
Qed.

Lemma longaff_returns_witness :
  ∃ s',
    LongAff.__call__ (LongAff.Make (lit "2D") (3 # 10) (3 / 10) (3 / 10) (Some false))
      (Kwargs (Some ["input"]) None)
      (World {[ "input" := full 1 2 1 2 (Finite 2) ]}
             ((DRand <$> [1 # 2; 1 # 4; 0%Q; 3 # 4; 0%Q; 1 # 2]) ++ [DInt 7]))
    = (Ok tt, World s' [DInt 7])
    ∧ dom s' = dom ({[ "input" := full 1 2 1 2 (Finite 2) ]} : gmap string (volume npfloat)).
Proof.
  assert (Hin : ∀ key, key ∈ ["input"] →
            is_Some (({[ "input" := full 1 2 1 2 (Finite 2) ]} : gmap string (volume npfloat))
                     !! key)).
  { intros key Hk. apply list_elem_of_singleton in Hk as ->.
    rewrite lookup_singleton_eq. eauto. }
  assert (Hag : sections_agree {[ "input" := full 1 2 1 2 (Finite 2) ]}).
  { intros key v Hk. apply lookup_singleton_Some in Hk as [_ <-].
    repeat constructor. }
  assert (Hus : Forall unit_draw [1 # 2; 1 # 4; 0%Q; 3 # 4; 0%Q; 1 # 2]).
  { repeat constructor; apply unit_draw_decide; reflexivity. }
  assert (Hlen : length [1 # 2; 1 # 4; 0%Q; 3 # 4; 0%Q; 1 # 2]
                 = 3 * sum_list (extent ({[ "input" := full 1 2 1 2 (Finite 2) ]}
                                         : gmap string (volume npfloat))
                                 <$> ["input"])).
  { unfold extent. rewrite fmap_cons, lookup_singleton_eq. reflexivity. }
  exact (longaff_returns
           (LongAff.Make (lit "2D") (3 # 10) (3 / 10) (3 / 10) (Some false))
           (Kwargs (Some ["input"]) None) ["input"]
           {[ "input" := full 1 2 1 2 (Finite 2) ]}
           [1 # 2; 1 # 4; 0%Q; 3 # 4; 0%Q; 1 # 2] [DInt 7]
           eq_refl eq_refl Hin Hag Hus (or_intror (conj eq_refl Hlen))).
Defined.

Section BlurPartialReturns.
Context {A : Type}.
Variable gf : list (plane A) → Q → list (plane A).
Variable self : Blur.t.
Hypothesis not_mix : Blur.mode self ≠ "mix".




End BlurPartialReturns.



(** In mix mode the body of the loop first draws a coin; above 0.5 it
    writes the whole blurred section to the volume and draws nothing more,
    so that section of a well-formed volume is then the blurred one and
    the other sections are as they were. *)
Theorem mix_coin_replaces_whole_section :
  ∀ (A : Type) (gaussian_filter : list (plane A) → Q → list (plane A))
    (self : Blur.t) (xdim ydim z : nat) (sigma : Q) (key : string)
    (s : gmap string (volume A)) (v : volume A) (c : Q) (rest : list draw),
    Blur.mode self = "mix" →
    s !! key = Some v →
    unit_draw c → (1 # 2 < c)%Q →
    Blur.blur_partial_key gaussian_filter self xdim ydim z sigma key
      (World s (DRand c :: rest))
    = (Ok tt,
       World (<[key := set_section z (gaussian_filter (get_section z v) sigma) v]> s)
             rest)
    ∧
    ((∀ img sg, length (gaussian_filter img sg) = length img) →
     volume_wf v → z < zext v →
     get_section z (set_section z (gaussian_filter (get_section z v) sigma) v)
     = gaussian_filter (get_section z v) sigma
     ∧ ∀ z', z' ≠ z →
         get_section z' (set_section z (gaussian_filter (get_section z v) sigma) v)
         = get_section z' v).
Proof.
  intros A gf self xdim ydim z sigma key s v c rest Hm Hv [Hc0 Hc1] Hc.
  split.
  - unfold Blur.blur_partial_key.
    rewrite (bind_step _ _ _ v _ (getitem_run key s v _ Hv)).
    rewrite (bool_decide_eq_true_2 _ Hm).
    rewrite (bind_step _ _ _ true (World s rest)).
    2:{ rewrite (bind_step _ _ _ c _ (rand_run s c rest Hc0 Hc1)).
        unfold ret. f_equal. f_equal. apply Qltb_lt, Hc. }
    reflexivity.
  - intros Hgf Hwf Hz.
    assert (Hlen : length (gf (get_section z v) sigma) = length (voxels v)).
    { rewrite Hgf. apply length_get_section. }
    split.
    + apply get_set_section_eq; [apply wf_section_in_range; assumption|exact Hlen].
    + intros z' Hne. apply get_set_section_ne; [congruence|exact Hlen].
Qed.

Lemma mix_coin_replaces_whole_section_witness :
  Blur.blur_partial_key box_filter (Blur.Make 1 5 "mix" (3 # 10) (Some false))
    2 2 1 (5 # 2) "input"
    (World {[ "input" := demo_volume ]} [DRand (3 # 4); DInt 7])
  = (Ok tt,
     World (<["input" := set_section 1 (box_filter (get_section 1 demo_volume) (5 # 2))
                                      demo_volume]> {[ "input" := demo_volume ]})
           [DInt 7]).
Proof.
  assert (Hc : (1 # 2 < 3 # 4)%Q) by reflexivity.
  exact (proj1 (mix_coin_replaces_whole_section Q box_filter
                  (Blur.Make 1 5 "mix" (3 # 10) (Some false)) 2 2 1 (5 # 2)%Q "input"
                  {[ "input" := demo_volume ]} demo_volume (3 # 4)%Q [DInt 7]
                  eq_refl (lookup_singleton_eq "input" demo_volume)
                  (unit_draw_decide (3 # 4) eq_refl) Hc)).
Defined.
